(** * The interview session of ai-interview-pro, embedded in Rocq

  Sources:
  - [src/components/interview-session.tsx]  (component [InterviewSession])
  - [src/unnamed/part_001]                  (component [SpeechRecognition])

  Both are React function components.  A function declared inside a
  component is a closure over the state values of the render that declared
  it, while [setX] calls and [useRef] cells act on the one live component
  instance.  The embedding keeps the two apart:

  - a [State] value is the tuple of [useState] values of one render;
  - a [World] holds the committed [State] (the [store]), the [useRef]
    cells, and the browser side: pending timers, utterances handed to
    speech synthesis, fetches in flight, media tracks, the clock;
  - every source function takes the render [r : State] it closes over and
    the world it acts on; reads of state variables go to [r], [setX] calls
    and ref accesses go to the world;
  - a callback handed to [setTimeout], to an utterance or awaited behind a
    [fetch] is data ([Callback], [OnComplete], [Continuation]) carrying the
    render that created it, and runs when the matching event arrives. *)

From Stdlib Require Import ZArith Lia Ascii.
From stdpp Require Import base option list gmap strings.

(** ** JavaScript strings *)

Module JS.

(** Characters are code units below 256.  [isWhiteSpace] is the ECMAScript
    WhiteSpace and LineTerminator set restricted to that range: TAB, LF,
    VT, FF, CR, SP and NBSP. *)
Definition isWhiteSpace (c : ascii) : bool :=
  let n := nat_of_ascii c in
  bool_decide (n = 9 \/ n = 10 \/ n = 11 \/ n = 12 \/ n = 13 \/ n = 32 \/ n = 160)%nat.

Definition isEmpty (s : string) : bool :=
  match s with EmptyString => true | String _ _ => false end.

(** A string is truthy when it is not the empty string. *)
Definition truthy (s : string) : bool := negb (isEmpty s).

Fixpoint trimStart (s : string) : string :=
  match s with
  | EmptyString => EmptyString
  | String c s' => if isWhiteSpace c then trimStart s' else s
  end.

Fixpoint trimEnd (s : string) : string :=
  match s with
  | EmptyString => EmptyString
  | String c s' =>
      let t := trimEnd s' in
      if isWhiteSpace c && isEmpty t then EmptyString else String c t
  end.

(** [String.prototype.trim] *)
Definition trim (s : string) : string := trimEnd (trimStart s).

(** [s] consists of white space only (the empty string included). *)
Fixpoint blank (s : string) : bool :=
  match s with
  | EmptyString => true
  | String c s' => isWhiteSpace c && blank s'
  end.

End JS.

(** ** The session component: data model *)

Module Session.

(** [Question.category].  The interface declares the union of the four
    literals below.  Nothing checks it when a reply of the question
    service is parsed, so a question carries whatever string the reply
    holds; [handleResponse] compares it with three of the literals. *)
Definition Category := string.
Definition Introduction : Category := "introduction".
Definition Technical : Category := "technical".
Definition Behavioral : Category := "behavioral".
Definition FollowUp : Category := "follow-up".

(** [InterviewPhase] *)
Inductive InterviewPhase :=
| PhaseInstructions | PhaseVoiceIntro | PhaseIntroduction | PhaseTechnical
| PhaseBehavioral | PhaseEnding | PhaseFeedback.

(** The [phase] argument of [generateQuestionsForPhase] and
    [generateNextQuestionInPhase]: one of the three keys of
    [fallbackQuestions] and of [questionCounts]. *)
Inductive PhaseKey := KeyIntroduction | KeyTechnical | KeyBehavioral.

Definition categoryOfKey (k : PhaseKey) : Category :=
  match k with
  | KeyIntroduction => Introduction
  | KeyTechnical => Technical
  | KeyBehavioral => Behavioral
  end.

Definition phaseOfKey (k : PhaseKey) : InterviewPhase :=
  match k with
  | KeyIntroduction => PhaseIntroduction
  | KeyTechnical => PhaseTechnical
  | KeyBehavioral => PhaseBehavioral
  end.

Record Question := mkQuestion {
  id : Z;
  text : string;
  category : Category;
  asked : bool
}.

Record Response := mkResponse {
  questionId : Z;
  question : string;
  answer : string;
  timestamp : Z;
  duration : Z
}.

Record QuestionCounts := mkCounts {
  introduction : nat;
  technical : nat;
  behavioral : nat
}.

Inductive PermissionStatus := Granted | Denied | Prompt | Unknown.

(** The [useState] values of one render.  [isRecording], [windowFocused],
    [postureWarnings] and [isPostureGood] are left out: no modelled
    function reads them. *)
Record State := mkState {
  isCameraOn : bool;
  isMicOn : bool;
  currentQuestion : option Question;
  questions : list Question;
  responses : list Response;
  isListening : bool;
  interviewPhase : InterviewPhase;
  isLoading : bool;
  aiSpeaking : bool;
  microphoneError : option string;
  cameraError : option string;
  cameraPermissionStatus : PermissionStatus;
  isVideoLoaded : bool;
  isInterviewEnded : bool;
  questionCounts : QuestionCounts;
  currentQuestionIndex : nat
}.

#[global] Instance Category_eq_dec : EqDecision Category.
Proof. unfold Category. apply _. Defined.
#[global] Instance InterviewPhase_eq_dec : EqDecision InterviewPhase.
Proof. solve_decision. Defined.
#[global] Instance PhaseKey_eq_dec : EqDecision PhaseKey.
Proof. solve_decision. Defined.

(** The initial [useState] values. *)
Definition initialState : State :=
  {| isCameraOn := true; isMicOn := true; currentQuestion := None;
     questions := []; responses := []; isListening := false;
     interviewPhase := PhaseInstructions; isLoading := false;
     aiSpeaking := false; microphoneError := None; cameraError := None;
     cameraPermissionStatus := Unknown; isVideoLoaded := false;
     isInterviewEnded := false; questionCounts := mkCounts 0 0 0;
     currentQuestionIndex := 0 |}.

(** [fallbackQuestions] *)
Definition fallbackQuestions (k : PhaseKey) : list Question :=
  match k with
  | KeyIntroduction =>
      [ mkQuestion 1 "Please introduce yourself - tell me your name, educational background, and a brief overview of your professional experience." Introduction false;
        mkQuestion 2 "Can you walk me through your current role and what you do on a day-to-day basis?" Introduction false;
        mkQuestion 3 "Tell me about your educational background and how it led you to your current field." Introduction false ]
  | KeyTechnical =>
      [ mkQuestion 4 "Describe your experience with the main technologies mentioned in the job description." Technical false;
        mkQuestion 5 "How would you approach solving a complex technical problem?" Technical false;
        mkQuestion 6 "What programming languages are you most comfortable with?" Technical false;
        mkQuestion 7 "Explain a technical project you're proud of." Technical false;
        mkQuestion 8 "How do you stay updated with new technologies?" Technical false ]
  | KeyBehavioral =>
      [ mkQuestion 9 "What attracted you to this specific position and our company?" Behavioral false;
        mkQuestion 10 "Tell me about a challenging project you worked on and how you overcame obstacles." Behavioral false;
        mkQuestion 11 "Describe a situation where you had to work with a difficult team member or handle conflict." Behavioral false;
        mkQuestion 12 "Where do you see yourself in the next 3-5 years, and how does this role align with your career goals?" Behavioral false ]
  end.

(** *** State setters *)

Definition setIsCameraOn (v : bool) (s : State) : State :=
  mkState v (isMicOn s) (currentQuestion s) (questions s) (responses s)
    (isListening s) (interviewPhase s) (isLoading s) (aiSpeaking s)
    (microphoneError s) (cameraError s) (cameraPermissionStatus s)
    (isVideoLoaded s) (isInterviewEnded s) (questionCounts s) (currentQuestionIndex s).
Definition setIsMicOn (v : bool) (s : State) : State :=
  mkState (isCameraOn s) v (currentQuestion s) (questions s) (responses s)
    (isListening s) (interviewPhase s) (isLoading s) (aiSpeaking s)
    (microphoneError s) (cameraError s) (cameraPermissionStatus s)
    (isVideoLoaded s) (isInterviewEnded s) (questionCounts s) (currentQuestionIndex s).
Definition setCurrentQuestion (v : option Question) (s : State) : State :=
  mkState (isCameraOn s) (isMicOn s) v (questions s) (responses s)
    (isListening s) (interviewPhase s) (isLoading s) (aiSpeaking s)
    (microphoneError s) (cameraError s) (cameraPermissionStatus s)
    (isVideoLoaded s) (isInterviewEnded s) (questionCounts s) (currentQuestionIndex s).
Definition setQuestions (v : list Question) (s : State) : State :=
  mkState (isCameraOn s) (isMicOn s) (currentQuestion s) v (responses s)
    (isListening s) (interviewPhase s) (isLoading s) (aiSpeaking s)
    (microphoneError s) (cameraError s) (cameraPermissionStatus s)
    (isVideoLoaded s) (isInterviewEnded s) (questionCounts s) (currentQuestionIndex s).
Definition setResponses (v : list Response) (s : State) : State :=
  mkState (isCameraOn s) (isMicOn s) (currentQuestion s) (questions s) v
    (isListening s) (interviewPhase s) (isLoading s) (aiSpeaking s)
    (microphoneError s) (cameraError s) (cameraPermissionStatus s)
    (isVideoLoaded s) (isInterviewEnded s) (questionCounts s) (currentQuestionIndex s).
Definition setIsListening (v : bool) (s : State) : State :=
  mkState (isCameraOn s) (isMicOn s) (currentQuestion s) (questions s) (responses s)
    v (interviewPhase s) (isLoading s) (aiSpeaking s)
    (microphoneError s) (cameraError s) (cameraPermissionStatus s)
    (isVideoLoaded s) (isInterviewEnded s) (questionCounts s) (currentQuestionIndex s).
Definition setInterviewPhase (v : InterviewPhase) (s : State) : State :=
  mkState (isCameraOn s) (isMicOn s) (currentQuestion s) (questions s) (responses s)
    (isListening s) v (isLoading s) (aiSpeaking s)
    (microphoneError s) (cameraError s) (cameraPermissionStatus s)
    (isVideoLoaded s) (isInterviewEnded s) (questionCounts s) (currentQuestionIndex s).
Definition setIsLoading (v : bool) (s : State) : State :=
  mkState (isCameraOn s) (isMicOn s) (currentQuestion s) (questions s) (responses s)
    (isListening s) (interviewPhase s) v (aiSpeaking s)
    (microphoneError s) (cameraError s) (cameraPermissionStatus s)
    (isVideoLoaded s) (isInterviewEnded s) (questionCounts s) (currentQuestionIndex s).
Definition setAiSpeaking (v : bool) (s : State) : State :=
  mkState (isCameraOn s) (isMicOn s) (currentQuestion s) (questions s) (responses s)
    (isListening s) (interviewPhase s) (isLoading s) v
    (microphoneError s) (cameraError s) (cameraPermissionStatus s)
    (isVideoLoaded s) (isInterviewEnded s) (questionCounts s) (currentQuestionIndex s).
Definition setMicrophoneError (v : option string) (s : State) : State :=
  mkState (isCameraOn s) (isMicOn s) (currentQuestion s) (questions s) (responses s)
    (isListening s) (interviewPhase s) (isLoading s) (aiSpeaking s)
    v (cameraError s) (cameraPermissionStatus s)
    (isVideoLoaded s) (isInterviewEnded s) (questionCounts s) (currentQuestionIndex s).
Definition setCameraError (v : option string) (s : State) : State :=
  mkState (isCameraOn s) (isMicOn s) (currentQuestion s) (questions s) (responses s)
    (isListening s) (interviewPhase s) (isLoading s) (aiSpeaking s)
    (microphoneError s) v (cameraPermissionStatus s)
    (isVideoLoaded s) (isInterviewEnded s) (questionCounts s) (currentQuestionIndex s).
Definition setCameraPermissionStatus (v : PermissionStatus) (s : State) : State :=
  mkState (isCameraOn s) (isMicOn s) (currentQuestion s) (questions s) (responses s)
    (isListening s) (interviewPhase s) (isLoading s) (aiSpeaking s)
    (microphoneError s) (cameraError s) v
    (isVideoLoaded s) (isInterviewEnded s) (questionCounts s) (currentQuestionIndex s).
Definition setIsVideoLoaded (v : bool) (s : State) : State :=
  mkState (isCameraOn s) (isMicOn s) (currentQuestion s) (questions s) (responses s)
    (isListening s) (interviewPhase s) (isLoading s) (aiSpeaking s)
    (microphoneError s) (cameraError s) (cameraPermissionStatus s)
    v (isInterviewEnded s) (questionCounts s) (currentQuestionIndex s).
Definition setIsInterviewEnded (v : bool) (s : State) : State :=
  mkState (isCameraOn s) (isMicOn s) (currentQuestion s) (questions s) (responses s)
    (isListening s) (interviewPhase s) (isLoading s) (aiSpeaking s)
    (microphoneError s) (cameraError s) (cameraPermissionStatus s)
    (isVideoLoaded s) v (questionCounts s) (currentQuestionIndex s).
Definition setQuestionCounts (v : QuestionCounts) (s : State) : State :=
  mkState (isCameraOn s) (isMicOn s) (currentQuestion s) (questions s) (responses s)
    (isListening s) (interviewPhase s) (isLoading s) (aiSpeaking s)
    (microphoneError s) (cameraError s) (cameraPermissionStatus s)
    (isVideoLoaded s) (isInterviewEnded s) v (currentQuestionIndex s).
Definition setCurrentQuestionIndex (v : nat) (s : State) : State :=
  mkState (isCameraOn s) (isMicOn s) (currentQuestion s) (questions s) (responses s)
    (isListening s) (interviewPhase s) (isLoading s) (aiSpeaking s)
    (microphoneError s) (cameraError s) (cameraPermissionStatus s)
    (isVideoLoaded s) (isInterviewEnded s) (questionCounts s) v.

(** *** Closures handed to the browser *)

(** Bodies of the arrow functions passed to [createTimeout]. *)
Inductive Callback :=
| CbSpeakQuestionAt (r : State) (from : list Question) (index : nat)
    (* [() => { speakQuestion(from[index].text) }] *)
| CbSpeakText (r : State) (txt : string)
    (* [() => { speakQuestion(newQuestion.text) }] *)
| CbStartListening (r : State)
    (* [() => { if (!isInterviewEnded) setIsListening(true) }] *)
| CbDetermineNextStep (r : State) (counts : QuestionCounts) (allResponses : list Response)
    (* [() => { determineNextStep(newCounts, newResponses) }] *)
| CbShowFeedback
    (* [() => { setInterviewPhase("feedback") }] *).

(** Bodies of the functions passed to a bare [setTimeout]. *)
Inductive RawCallback :=
| RawInitializeCamera (r : State)   (* mount effect, [requestCameraPermission] *).

(** The [onComplete] arguments of [speakQuestion]. *)
Inductive OnComplete :=
| OcBeginIntroduction (r : State)                 (* [giveVoiceInstructions] *)
| OcFirstQuestion (r : State) (batch : list Question)  (* [determineNextStep] *)
| OcThankYou (r : State)                          (* [endInterview] *).

(** What runs after an awaited [fetch]. *)
Inductive Continuation :=
| KGenerateQuestionsForPhase (r : State) (phase : PhaseKey)
| KTransition (r : State) (phase : PhaseKey)
| KNextQuestion (r : State) (phase : PhaseKey) (allResponses : list Response).

Inductive TimerBody :=
| Tracked (r : State) (cb : Callback)   (* wrapper built by [createTimeout] *)
| Raw (cb : RawCallback).

Record Timer := mkTimer { timerId : nat; due : Z; body : TimerBody }.

Record Utterance := mkUtterance {
  utteranceId : nat;
  utteranceText : string;
  owner : State;                    (* render of the [speakQuestion] call *)
  onComplete : option OnComplete;
  attached : bool;                  (* [onend]/[onerror] not nulled *)
  cancelled : bool                  (* removed by [speechSynthesis.cancel] *)
}.

Record Fetch := mkFetch { fetchId : nat; continuation : Continuation }.

(** The JSON body of a reply: [data.questions] and [data.question]. *)
Record Body := mkBody {
  bodyQuestions : option (list Question);
  bodyQuestion : option string
}.

(** Outcome of [await fetch(...)] followed by [await response.json()]:
    the fetch rejects, or answers with a status and a body that parses
    ([Some]) or not ([None]). *)
Inductive Reply :=
| NetworkError
| Http (status : Z) (json : option Body).

Inductive TrackKind := Audio | Video.

Record Track := mkTrack {
  trackId : nat;
  kind : TrackKind;
  enabled : bool;
  live : bool                        (* [readyState === "live"] *)
}.

Inductive Constraints := IdealConstraints | BasicConstraints.

Record MediaRequest := mkMediaRequest {
  requestId : nat;
  requester : State;                 (* render of the [initializeCamera] call *)
  constraints : Constraints
}.

Inductive MediaError :=
| NotAllowedError | NotFoundError | NotReadableError | OverconstrainedError
| OtherError (mentionsGetUserMedia : bool) (message : string).

Inductive MediaReply :=
| StreamGranted (kinds : list TrackKind)
| StreamRejected (e : MediaError).

(** Effects visible outside the component, in the order they happen. *)
Inductive Action :=
| RequestedQuestions (phase : PhaseKey)
| RequestedNextQuestion (phase : PhaseKey) (questionCount : nat) (sent : list Response)
| Installed (batch : list Question)
| Spoke (txt : string)
| Settled (txt : string)
| CancelledSpeech
| StoppedTrack (t : nat)
| CalledOnEnd.

Record World := mkWorld {
  store : State;
  (* [useRef] cells *)
  streamRef : option (list nat);
  speechSynthRef : option nat;
  timeoutsRef : gset nat;
  (* the adapter's [onResult] prop closes over this render *)
  onResultOf : State;
  (* browser *)
  now : Z;
  nextId : nat;
  timers : list Timer;
  utterances : list Utterance;
  fetches : list Fetch;
  mediaRequests : list MediaRequest;
  tracks : list Track;
  trace : list Action
}.

Definition withStore (f : State -> State) (w : World) : World :=
  mkWorld (f (store w)) (streamRef w) (speechSynthRef w) (timeoutsRef w) (onResultOf w)
    (now w) (nextId w) (timers w) (utterances w) (fetches w) (mediaRequests w)
    (tracks w) (trace w).
Definition withStreamRef (v : option (list nat)) (w : World) : World :=
  mkWorld (store w) v (speechSynthRef w) (timeoutsRef w) (onResultOf w)
    (now w) (nextId w) (timers w) (utterances w) (fetches w) (mediaRequests w)
    (tracks w) (trace w).
Definition withSpeechSynthRef (v : option nat) (w : World) : World :=
  mkWorld (store w) (streamRef w) v (timeoutsRef w) (onResultOf w)
    (now w) (nextId w) (timers w) (utterances w) (fetches w) (mediaRequests w)
    (tracks w) (trace w).
Definition withTimeoutsRef (v : gset nat) (w : World) : World :=
  mkWorld (store w) (streamRef w) (speechSynthRef w) v (onResultOf w)
    (now w) (nextId w) (timers w) (utterances w) (fetches w) (mediaRequests w)
    (tracks w) (trace w).
Definition withOnResultOf (v : State) (w : World) : World :=
  mkWorld (store w) (streamRef w) (speechSynthRef w) (timeoutsRef w) v
    (now w) (nextId w) (timers w) (utterances w) (fetches w) (mediaRequests w)
    (tracks w) (trace w).
Definition withNow (v : Z) (w : World) : World :=
  mkWorld (store w) (streamRef w) (speechSynthRef w) (timeoutsRef w) (onResultOf w)
    v (nextId w) (timers w) (utterances w) (fetches w) (mediaRequests w)
    (tracks w) (trace w).
Definition withNextId (v : nat) (w : World) : World :=
  mkWorld (store w) (streamRef w) (speechSynthRef w) (timeoutsRef w) (onResultOf w)
    (now w) v (timers w) (utterances w) (fetches w) (mediaRequests w)
    (tracks w) (trace w).
Definition withTimers (v : list Timer) (w : World) : World :=
  mkWorld (store w) (streamRef w) (speechSynthRef w) (timeoutsRef w) (onResultOf w)
    (now w) (nextId w) v (utterances w) (fetches w) (mediaRequests w)
    (tracks w) (trace w).
Definition withUtterances (v : list Utterance) (w : World) : World :=
  mkWorld (store w) (streamRef w) (speechSynthRef w) (timeoutsRef w) (onResultOf w)
    (now w) (nextId w) (timers w) v (fetches w) (mediaRequests w)
    (tracks w) (trace w).
Definition withFetches (v : list Fetch) (w : World) : World :=
  mkWorld (store w) (streamRef w) (speechSynthRef w) (timeoutsRef w) (onResultOf w)
    (now w) (nextId w) (timers w) (utterances w) v (mediaRequests w)
    (tracks w) (trace w).
Definition withMediaRequests (v : list MediaRequest) (w : World) : World :=
  mkWorld (store w) (streamRef w) (speechSynthRef w) (timeoutsRef w) (onResultOf w)
    (now w) (nextId w) (timers w) (utterances w) (fetches w) v
    (tracks w) (trace w).
Definition withTracks (v : list Track) (w : World) : World :=
  mkWorld (store w) (streamRef w) (speechSynthRef w) (timeoutsRef w) (onResultOf w)
    (now w) (nextId w) (timers w) (utterances w) (fetches w) (mediaRequests w)
    v (trace w).
Definition record (a : Action) (w : World) : World :=
  mkWorld (store w) (streamRef w) (speechSynthRef w) (timeoutsRef w) (onResultOf w)
    (now w) (nextId w) (timers w) (utterances w) (fetches w) (mediaRequests w)
    (tracks w) (trace w ++ [a]).

(** *** Browser primitives *)

(** [setTimeout(f, delay)]; the id handed back is [nextId w]. *)
Definition setTimeout (b : TimerBody) (delay : Z) (w : World) : World :=
  withNextId (S (nextId w))
    (withTimers (timers w ++ [mkTimer (nextId w) (now w + delay)%Z b]) w).

Definition clearTimeout (i : nat) (w : World) : World :=
  withTimers (filter (λ t, timerId t ≠ i) (timers w)) w.

Definition cancelUtterance (u : Utterance) : Utterance :=
  mkUtterance (utteranceId u) (utteranceText u) (owner u) (onComplete u) (attached u) true.

(** [speechSynthesis.cancel()]: every utterance handed over so far is
    dropped from the queue; its error event is still to be delivered. *)
Definition speechSynthesisCancel (w : World) : World :=
  record CancelledSpeech (withUtterances (cancelUtterance <$> utterances w) w).

(** [speechSynthesis.speak(utterance)] *)
Definition speechSynthesisSpeak (u : Utterance) (w : World) : World :=
  record (Spoke (utteranceText u)) (withUtterances (utterances w ++ [u]) w).

Definition detachHandlers (i : nat) (u : Utterance) : Utterance :=
  if decide (utteranceId u = i)
  then mkUtterance (utteranceId u) (utteranceText u) (owner u) (onComplete u) false (cancelled u)
  else u.

(** [fetch(...)] up to the [await]: the request is in flight. *)
Definition fetch (k : Continuation) (w : World) : World :=
  withNextId (S (nextId w)) (withFetches (fetches w ++ [mkFetch (nextId w) k]) w).

(** [track.stop()] *)
Definition stopTrack (w : World) (i : nat) : World :=
  record (StoppedTrack i)
    (withTracks ((λ t, if decide (trackId t = i)
                        then mkTrack (trackId t) (kind t) (enabled t) false
                        else t) <$> tracks w) w).

Definition setTrackEnabled (i : nat) (v : bool) (w : World) : World :=
  withTracks ((λ t, if decide (trackId t = i)
                    then mkTrack (trackId t) (kind t) v (live t)
                    else t) <$> tracks w) w.

#[global] Instance TrackKind_eq_dec : EqDecision TrackKind.
Proof. solve_decision. Defined.

Definition kindOfTrack (w : World) (i : nat) : option TrackKind :=
  (kind ∘ snd) <$> list_find (λ t, trackId t = i) (tracks w).

(** [stream.getAudioTracks()] / [stream.getVideoTracks()] *)
Definition getTracksOfKind (k : TrackKind) (stream : list nat) (w : World) : list nat :=
  filter (λ i, kindOfTrack w i = Some k) stream.

(** *** Timers of the component *)

(** [createTimeout]: the wrapper deletes its id from [timeoutsRef] and runs
    [callback] unless [isInterviewEnded] (of the creating render) holds. *)
Definition createTimeout (r : State) (cb : Callback) (delay : Z) (w : World) : World :=
  let timeoutId := nextId w in
  let w := setTimeout (Tracked r cb) delay w in
  withTimeoutsRef ({[ timeoutId ]} ∪ timeoutsRef w) w.

(** [clearAllTimeouts] *)
Definition clearAllTimeouts (w : World) : World :=
  withTimeoutsRef ∅
    (withTimers (filter (λ t, timerId t ∉ timeoutsRef w) (timers w)) w).

(** *** Spoken texts *)

Definition instruction : string :=
"
      Welcome to your AI-powered mock interview! I'm your virtual interviewer today. 
      
      This interview has three phases: First, I'll ask some introduction questions to get to know you personally and professionally. Then, we'll move to technical questions about your skills. Finally, I'll ask behavioral questions about your experience.
      
      Please speak clearly. When you finish answering, stop speaking for 2 seconds and I'll move to the next question.
      
      Let's begin with the introduction phase. I'm excited to learn about you!
    ".

(** [transitionMessage] of the two phase changes in [determineNextStep];
    there is none into the introduction phase. *)
Definition transitionMessage (next : PhaseKey) : string :=
  match next with
  | KeyTechnical => "Great! Thank you for that introduction. Now let's move to the technical questions. These will focus on your technical skills and knowledge relevant to the position."
  | KeyBehavioral => "Excellent! Now for the final phase, I'll ask you some behavioral questions. These will help me understand your experience and how you handle different situations."
  | KeyIntroduction => EmptyString
  end.

Definition thankYouMessage : string :=
"
      Congratulations! You have successfully completed your mock interview. 
      
      You answered all the questions across the three phases - introduction, technical, and behavioral. 
      
      Thank you for your time and effort today. You demonstrated great professionalism throughout the interview process.
      
      I will now analyze all of your responses and provide you with detailed feedback, including your strengths, areas for improvement, and specific recommendations to help you excel in your future interviews.
      
      Please wait a moment while I prepare your comprehensive performance report.
    ".

Definition skipped : string := "User skipped this question".

(** *** The functions of the component *)

(** [speakQuestion] up to [speechSynthesis.speak]; the two handlers it
    installs are [utteranceSettled] below. *)
Definition speakQuestion (r : State) (txt : string) (k : option OnComplete)
    (w : World) : World :=
  if isInterviewEnded r then w else
  let w := withStore (setAiSpeaking true) w in
  let w := speechSynthesisCancel w in
  let utterance := mkUtterance (nextId w) txt r k true false in
  let w := withNextId (S (nextId w)) w in
  let w := withSpeechSynthRef (Some (utteranceId utterance)) w in
  speechSynthesisSpeak utterance w.

Definition ok (status : Z) : bool :=
  bool_decide (200 ≤ status ≤ 299)%Z.

(** The value of [data] when the [try] block gets past [await fetch], the
    [response.ok] test and [await response.json()]; [None] when one of them
    throws. *)
Definition received (reply : Reply) : option Body :=
  match reply with
  | NetworkError => None
  | Http status json => if ok status then json else None
  end.

(** [data.questions && data.questions.length > 0] *)
Definition usableBatch (data : Body) : option (list Question) :=
  match bodyQuestions data with
  | Some (q :: qs) => Some (q :: qs)
  | _ => None
  end.

(** [generateQuestionsForPhase], up to [await fetch]. *)
Definition generateQuestionsForPhase (r : State) (phase : PhaseKey) (w : World) : World :=
  if isInterviewEnded r then w else
  let w := withStore (setIsLoading true) w in
  fetch (KGenerateQuestionsForPhase r phase) (record (RequestedQuestions phase) w).

(** The block shared by the three branches of [generateQuestionsForPhase]:
    install [batch] and, for the introduction phase only, schedule its
    first question. *)
Definition installFirstBatch (r : State) (phase : PhaseKey) (batch : list Question)
    (w : World) : World :=
  let w := withStore (setQuestions batch) w in
  let w := withStore (setCurrentQuestion (batch !! 0%nat)) w in
  let w := withStore (setCurrentQuestionIndex 0) w in
  let w := record (Installed batch) w in
  if decide (phase = KeyIntroduction)
  then createTimeout r (CbSpeakQuestionAt r batch 0) 1000 w
  else w.

(** [generateQuestionsForPhase], from the reply on. *)
Definition generateQuestionsForPhase_resume (r : State) (phase : PhaseKey)
    (reply : Reply) (w : World) : World :=
  let w :=
    match received reply with
    | Some data =>
        match usableBatch data with
        | Some batch => installFirstBatch r phase batch w
        | None => installFirstBatch r phase (fallbackQuestions phase) w
        end
    | None => installFirstBatch r phase (fallbackQuestions phase) w
    end in
  withStore (setIsLoading false) w.

(** [questionCounts[phase]] *)
Definition countOf (phase : PhaseKey) (c : QuestionCounts) : nat :=
  match phase with
  | KeyIntroduction => introduction c
  | KeyTechnical => technical c
  | KeyBehavioral => behavioral c
  end.

(** [generateNextQuestionInPhase], up to [await fetch]. *)
Definition generateNextQuestionInPhase (r : State) (phase : PhaseKey)
    (allResponses : list Response) (w : World) : World :=
  if isInterviewEnded r then w else
  let w := withStore (setIsLoading true) w in
  fetch (KNextQuestion r phase allResponses)
    (record (RequestedNextQuestion phase (countOf phase (questionCounts r)) allResponses) w).

(** [generateNextQuestionInPhase], from the reply on. *)
Definition generateNextQuestionInPhase_resume (r : State) (phase : PhaseKey)
    (reply : Reply) (w : World) : World :=
  let w :=
    match received reply with
    | Some data =>
        match bodyQuestion data with
        | Some txt =>
            if JS.truthy txt then
              let newQuestion := mkQuestion (now w) txt (categoryOfKey phase) false in
              let w := withStore (setCurrentQuestion (Some newQuestion)) w in
              let w := withStore (λ s, setQuestions (questions s ++ [newQuestion]) s) w in
              let w := withStore (setCurrentQuestionIndex (length (questions r))) w in
              createTimeout r (CbSpeakText r (text newQuestion)) 1000 w
            else w
        | None => w
        end
    | None => w
    end in
  withStore (setIsLoading false) w.

(** [endInterview] *)
Definition endInterview (r : State) (w : World) : World :=
  if isInterviewEnded r then w else
  let w := withStore (setInterviewPhase PhaseEnding) w in
  let w := withStore (setCurrentQuestion None) w in
  let w := withStore (setIsListening false) w in
  speakQuestion r thankYouMessage (Some (OcThankYou r)) w.

(** [determineNextStep], branch "ask the next question of this phase". *)
Definition askNextInPhase (r : State) (phase : PhaseKey)
    (allResponses : list Response) (w : World) : World :=
  let nextIndex := (currentQuestionIndex r + 1)%nat in
  if bool_decide (nextIndex < length (questions r))%nat then
    let w := withStore (setCurrentQuestionIndex nextIndex) w in
    let w := withStore (setCurrentQuestion (questions r !! nextIndex)) w in
    createTimeout r (CbSpeakQuestionAt r (questions r) nextIndex) 1000 w
  else generateNextQuestionInPhase r phase allResponses w.

(** [determineNextStep], branch "move to the next phase", up to
    [await fetch].  The source spells the block out twice, for
    [next = "technical"] and for [next = "behavioral"]. *)
Definition moveToPhase (r : State) (next : PhaseKey) (w : World) : World :=
  let w := withStore (setInterviewPhase (phaseOfKey next)) w in
  let w := withStore (setCurrentQuestionIndex 0) w in
  let w := withStore (setIsLoading true) w in
  fetch (KTransition r next) (record (RequestedQuestions next) w).

(** The same branch from the reply on: the [try] block when the reply is
    received, the [catch] block otherwise. *)
Definition moveToPhase_resume (r : State) (next : PhaseKey) (reply : Reply)
    (w : World) : World :=
  match received reply with
  | Some data =>
      let batch :=
        match usableBatch data with
        | Some qs => qs
        | None => fallbackQuestions next
        end in
      let w := withStore (setQuestions batch) w in
      let w := withStore (setCurrentQuestion (batch !! 0%nat)) w in
      let w := record (Installed batch) w in
      let w := withStore (setIsLoading false) w in
      speakQuestion r (transitionMessage next) (Some (OcFirstQuestion r batch)) w
  | None =>
      let w := withStore (setIsLoading false) w in
      let batch := fallbackQuestions next in
      let w := withStore (setQuestions batch) w in
      let w := withStore (setCurrentQuestion (batch !! 0%nat)) w in
      let w := record (Installed batch) w in
      speakQuestion r (transitionMessage next) (Some (OcFirstQuestion r batch)) w
  end.

(** [determineNextStep] *)
Definition determineNextStep (r : State) (counts : QuestionCounts)
    (allResponses : list Response) (w : World) : World :=
  if isInterviewEnded r then w else
  match interviewPhase r with
  | PhaseIntroduction =>
      if bool_decide (introduction counts < 3)%nat
      then askNextInPhase r KeyIntroduction allResponses w
      else moveToPhase r KeyTechnical w
  | PhaseTechnical =>
      if bool_decide (technical counts < 5)%nat
      then askNextInPhase r KeyTechnical allResponses w
      else moveToPhase r KeyBehavioral w
  | PhaseBehavioral =>
      if bool_decide (behavioral counts < 4)%nat
      then askNextInPhase r KeyBehavioral allResponses w
      else endInterview r w
  | _ => w
  end.

(** [newCounts] of [handleResponse] *)
Definition countAnswer (c : Category) (counts : QuestionCounts) : QuestionCounts :=
  if decide (c = "introduction")
  then mkCounts (S (introduction counts)) (technical counts) (behavioral counts)
  else if decide (c = "technical")
  then mkCounts (introduction counts) (S (technical counts)) (behavioral counts)
  else if decide (c = "behavioral")
  then mkCounts (introduction counts) (technical counts) (S (behavioral counts))
  else counts.

(** [q.id === currentQuestion.id ? { ...q, asked: true } : q]: the copy
    differs from [q] in [asked] only, so the condition is placed there. *)
Definition markAsked (current q : Question) : Question :=
  mkQuestion (id q) (text q) (category q)
    (if decide (id q = id current) then true else asked q).

(** [handleResponse] *)
Definition handleResponse (r : State) (ans : string) (w : World) : World :=
  match currentQuestion r with
  | None => w
  | Some current =>
      if isInterviewEnded r then w else
      let response := mkResponse (id current) (text current) ans (now w) 0 in
      let newResponses := responses r ++ [response] in
      let w := withStore (setResponses newResponses) w in
      let w := withStore (setIsListening false) w in
      let newCounts := countAnswer (category current) (questionCounts r) in
      let w := withStore (setQuestionCounts newCounts) w in
      let updatedQuestions := markAsked current <$> questions r in
      let w := withStore (setQuestions updatedQuestions) w in
      createTimeout r (CbDetermineNextStep r newCounts newResponses) 2000 w
  end.

(** [handleManualNext] *)
Definition handleManualNext (r : State) (w : World) : World :=
  match currentQuestion r with
  | Some _ =>
      if isInterviewEnded r then w else
      let w := speechSynthesisCancel w in
      let w := withStore (setAiSpeaking false) w in
      handleResponse r skipped w
  | None => w
  end.

(** [giveVoiceInstructions] *)
Definition giveVoiceInstructions (r : State) (w : World) : World :=
  if isInterviewEnded r then w else
  speakQuestion r instruction (Some (OcBeginIntroduction r)) w.

(** [startInterview] *)
Definition startInterview (r : State) (w : World) : World :=
  giveVoiceInstructions r (withStore (setInterviewPhase PhaseVoiceIntro) w).

(** [handleEndInterview].  Steps 3 and 5 of the source (the <video>
    element and the posture interval) act on objects that are not part of
    the model. *)
Definition handleEndInterview (w : World) : World :=
  let w := withStore (setIsInterviewEnded true) w in
  let w := speechSynthesisCancel w in
  let w :=
    match speechSynthRef w with
    | Some u => withUtterances (detachHandlers u <$> utterances w) w
    | None => w
    end in
  let w :=
    match streamRef w with
    | Some stream => withStreamRef None (foldl stopTrack w stream)
    | None => w
    end in
  let w := clearAllTimeouts w in
  let w := withStore (setAiSpeaking false) w in
  let w := withStore (setIsListening false) w in
  let w := withStore (setCurrentQuestion None) w in
  let w := withStore (setIsLoading false) w in
  let w := withStore (setIsCameraOn false) w in
  let w := withStore (setIsMicOn false) w in
  let w := withStore (setIsVideoLoaded false) w in
  let w := withStore (setCameraError None) w in
  let w := withStore (setMicrophoneError None) w in
  let w := withStore (setCameraPermissionStatus Unknown) w in
  record CalledOnEnd w.

(** [toggleCamera] *)
Definition toggleCamera (r : State) (w : World) : World :=
  match streamRef w with
  | Some stream =>
      match getTracksOfKind Video stream w !! 0%nat with
      | Some videoTrack =>
          let w := setTrackEnabled videoTrack (negb (isCameraOn r)) w in
          withStore (setIsCameraOn (negb (isCameraOn r))) w
      | None => w
      end
  | None => w
  end.

(** [toggleMic] *)
Definition toggleMic (r : State) (w : World) : World :=
  match streamRef w with
  | Some stream =>
      match getTracksOfKind Audio stream w !! 0%nat with
      | Some audioTrack =>
          let w := setTrackEnabled audioTrack (negb (isMicOn r)) w in
          let w := withStore (setIsMicOn (negb (isMicOn r))) w in
          if negb (isMicOn r) && isListening r
          then withStore (setIsListening false) w
          else w
      | None => w
      end
  | None => w
  end.

(** The [onRestart] prop handed to the feedback view. *)
Definition onRestart (w : World) : World :=
  let w := withStore (setIsInterviewEnded false) w in
  let w := withStore (setInterviewPhase PhaseInstructions) w in
  let w := withStore (setResponses []) w in
  let w := withStore (setQuestions []) w in
  let w := withStore (setQuestionCounts (mkCounts 0 0 0)) w in
  let w := withStore (setCurrentQuestionIndex 0) w in
  clearAllTimeouts w.

(** *** Camera and microphone *)

(** [getUserMedia(...)] up to the [await]. *)
Definition getUserMedia (r : State) (c : Constraints) (w : World) : World :=
  withNextId (S (nextId w))
    (withMediaRequests (mediaRequests w ++ [mkMediaRequest (nextId w) r c]) w).

(** [initializeCamera], up to the first [await].  The browser is taken to
    offer [navigator.mediaDevices.getUserMedia]. *)
Definition initializeCamera (r : State) (w : World) : World :=
  let w := withStore (setCameraError None) w in
  let w := withStore (setMicrophoneError None) w in
  let w := withStore (setIsVideoLoaded false) w in
  getUserMedia r IdealConstraints w.

Definition errorMessage (e : MediaError) : string :=
  "Unable to access camera/microphone. " +:+
  match e with
  | NotAllowedError => "Please allow camera and microphone permissions and refresh the page."
  | NotFoundError => "No camera or microphone found on this device."
  | NotReadableError => "Camera/microphone is already in use by another application."
  | OverconstrainedError => "Camera constraints could not be satisfied."
  | OtherError true _ => "Your browser doesn't support camera access."
  | OtherError false message => "Error: " +:+ message
  end.

(** Fresh live tracks of a granted stream, numbered from [i]. *)
Fixpoint newTracks (i : nat) (kinds : list TrackKind) : list Track :=
  match kinds with
  | [] => []
  | k :: kinds' => mkTrack i k true true :: newTracks (S i) kinds'
  end.

(** [initializeCamera], from the answer to [getUserMedia] on.  After
    [streamRef.current = stream] the source wires the stream to the
    <video> element, behind two bare [setTimeout]s of 500 ms and 5 s, and
    starts the posture [setInterval] (lines 326-415).  These set
    [isVideoLoaded] and the posture state only, and no teardown path
    clears the two timeouts.  They are not modelled: the timers pending in
    the model are among those pending in the source. *)
Definition initializeCamera_resume (q : MediaRequest) (reply : MediaReply)
    (w : World) : World :=
  let r := requester q in
  match reply with
  | StreamGranted kinds =>
      let stream := newTracks (nextId w) kinds in
      let w := withTracks (tracks w ++ stream) w in
      let w := withNextId (nextId w + length kinds)%nat w in
      let w := withStreamRef (Some (trackId <$> stream)) w in
      withStore (setCameraPermissionStatus Granted) w
  | StreamRejected e =>
      match constraints q with
      | IdealConstraints => getUserMedia r BasicConstraints w
      | BasicConstraints =>
          if isInterviewEnded r then w else
          let w :=
            match e with
            | NotAllowedError => withStore (setCameraPermissionStatus Denied) w
            | _ => w
            end in
          let w := withStore (setCameraError (Some (errorMessage e))) w in
          let w := withStore (setMicrophoneError (Some (errorMessage e))) w in
          withStore (setIsVideoLoaded false) w
      end
  end.

(** [requestCameraPermission] *)
Definition requestCameraPermission (r : State) (w : World) : World :=
  let w := withStore (setCameraError None) w in
  let w := withStore (setMicrophoneError None) w in
  let w := withStore (setIsVideoLoaded false) w in
  let w :=
    match streamRef w with
    | Some stream => withStreamRef None (foldl stopTrack w stream)
    | None => w
    end in
  setTimeout (Raw (RawInitializeCamera r)) 100 w.

(** *** Running the closures *)

Definition runCallback (cb : Callback) (w : World) : World :=
  match cb with
  | CbSpeakQuestionAt r from index =>
      match from !! index with
      | Some q => speakQuestion r (text q) None w
      | None => w                       (* TypeError: nothing else happens *)
      end
  | CbSpeakText r txt => speakQuestion r txt None w
  | CbStartListening r =>
      if isInterviewEnded r then w else withStore (setIsListening true) w
  | CbDetermineNextStep r counts allResponses =>
      determineNextStep r counts allResponses w
  | CbShowFeedback => withStore (setInterviewPhase PhaseFeedback) w
  end.

Definition runOnComplete (k : OnComplete) (w : World) : World :=
  match k with
  | OcBeginIntroduction r =>
      if isInterviewEnded r then w else
      generateQuestionsForPhase r KeyIntroduction
        (withStore (setInterviewPhase PhaseIntroduction) w)
  | OcFirstQuestion r batch =>
      if isInterviewEnded r then w else
      match batch !! 0%nat with
      | Some _ => createTimeout r (CbSpeakQuestionAt r batch 0) 1000 w
      | None => w
      end
  | OcThankYou r =>
      if isInterviewEnded r then w else createTimeout r CbShowFeedback 2000 w
  end.

(** [utterance.onend] and [utterance.onerror] of [speakQuestion]: apart
    from what they log, the two handlers are the same code. *)
Definition utteranceSettled (u : Utterance) (w : World) : World :=
  let r := owner u in
  let w := record (Settled (utteranceText u)) w in
  let w := withStore (setAiSpeaking false) w in
  if isInterviewEnded r then w else
  match onComplete u with
  | Some k => runOnComplete k w
  | None =>
      if isMicOn r && negb (bool_decide (interviewPhase r = PhaseVoiceIntro))
      then createTimeout r (CbStartListening r) 1000 w
      else w
  end.

(** The function handed to [setTimeout], once its timer has fired. *)
Definition fireTimer (t : Timer) (w : World) : World :=
  match body t with
  | Tracked r cb =>
      let w := withTimeoutsRef (timeoutsRef w ∖ {[ timerId t ]}) w in
      if isInterviewEnded r then w else runCallback cb w
  | Raw (RawInitializeCamera r) => initializeCamera r w
  end.

Definition resume (k : Continuation) (reply : Reply) (w : World) : World :=
  match k with
  | KGenerateQuestionsForPhase r phase => generateQuestionsForPhase_resume r phase reply w
  | KTransition r next => moveToPhase_resume r next reply w
  | KNextQuestion r phase _ => generateNextQuestionInPhase_resume r phase reply w
  end.

(** *** Events *)

(** What can happen to a mounted session.  Clicks run the handler of the
    committed render; the other events run a closure stored earlier. *)
Inductive Event :=
| Elapse (ms : Z)                       (* time passes *)
| ClickStart
| ClickSkip
| ClickEnd
| ClickMic
| ClickCamera
| ClickRetryCamera
| ClickRestart
| TimerFires (i : nat)
| UtteranceEnds (u : nat)               (* [onend] *)
| UtteranceFails (u : nat)              (* [onerror], cancellation included *)
| FetchReplies (f : nat) (reply : Reply)
| MediaReplies (q : nat) (reply : MediaReply)
| RecognitionResult (transcript : string)   (* the adapter calls [onResult] *)
| RecognitionStopped                    (* the adapter calls [onStop] *)
| RecognitionRebound                    (* the adapter re-installs its handlers *).

(** The main view is rendered in every phase but the first and the last. *)
Definition mainView (s : State) : bool :=
  negb (bool_decide (interviewPhase s = PhaseInstructions))
  && negb (bool_decide (interviewPhase s = PhaseFeedback)).

(** The [disabled] attribute of the Skip Question button, negated. *)
Definition skipEnabled (s : State) : bool :=
  negb (negb (bool_decide (is_Some (currentQuestion s)))
        || isLoading s
        || bool_decide (interviewPhase s = PhaseEnding)
        || bool_decide (interviewPhase s = PhaseVoiceIntro)
        || isInterviewEnded s).

(** One of the two camera retry buttons is rendered. *)
Definition retryShown (s : State) : bool :=
  bool_decide (is_Some (cameraError s)) || negb (isVideoLoaded s).

Definition handle (e : Event) (w : World) : World :=
  let s := store w in
  match e with
  | Elapse ms => if bool_decide (0 ≤ ms)%Z then withNow (now w + ms)%Z w else w
  | ClickStart =>
      if bool_decide (interviewPhase s = PhaseInstructions) then startInterview s w else w
  | ClickSkip => if mainView s && skipEnabled s then handleManualNext s w else w
  | ClickEnd => if mainView s then handleEndInterview w else w
  | ClickMic => if mainView s then toggleMic s w else w
  | ClickCamera => if mainView s then toggleCamera s w else w
  | ClickRetryCamera =>
      if mainView s && retryShown s then requestCameraPermission s w else w
  | ClickRestart =>
      if bool_decide (interviewPhase s = PhaseFeedback) then onRestart w else w
  | TimerFires i =>
      match filter (λ t, timerId t = i) (timers w) with
      | t :: _ =>
          if bool_decide (due t ≤ now w)%Z then fireTimer t (clearTimeout i w) else w
      | [] => w
      end
  | UtteranceEnds i =>
      match filter (λ u, utteranceId u = i) (utterances w) with
      | u :: _ =>
          if cancelled u then w else
          let w := withUtterances (filter (λ u, utteranceId u ≠ i) (utterances w)) w in
          if attached u then utteranceSettled u w else w
      | [] => w
      end
  | UtteranceFails i =>
      match filter (λ u, utteranceId u = i) (utterances w) with
      | u :: _ =>
          let w := withUtterances (filter (λ u, utteranceId u ≠ i) (utterances w)) w in
          if attached u then utteranceSettled u w else w
      | [] => w
      end
  | FetchReplies i reply =>
      match filter (λ f, fetchId f = i) (fetches w) with
      | f :: _ =>
          resume (continuation f) reply
            (withFetches (filter (λ f, fetchId f ≠ i) (fetches w)) w)
      | [] => w
      end
  | MediaReplies i reply =>
      match filter (λ q, requestId q = i) (mediaRequests w) with
      | q :: _ =>
          initializeCamera_resume q reply
            (withMediaRequests (filter (λ q, requestId q ≠ i) (mediaRequests w)) w)
      | [] => w
      end
  | RecognitionResult transcript =>
      if isListening s then handleResponse (onResultOf w) transcript w else w
  | RecognitionStopped => withStore (setIsListening false) w
  | RecognitionRebound => withOnResultOf s w
  end.

(** The adapter re-installs its handlers, and with them the [onResult] of
    the render just committed, whenever [isListening] changes (the
    dependency list of its effect). *)
Definition commit (before after : World) : World :=
  if bool_decide (isListening (store before) = isListening (store after))
  then after
  else withOnResultOf (store after) after.

Definition step (w : World) (e : Event) : World := commit w (handle e w).

Definition run (es : list Event) (w : World) : World := foldl step w es.

(** The world right after the component has mounted: the first effect has
    scheduled [initializeCamera] behind a bare 100 ms [setTimeout]. *)
Definition mounted : World :=
  mkWorld initialState None None ∅ initialState 0 1
    [mkTimer 0 100 (Raw (RawInitializeCamera initialState))] [] [] [] [] [].

(** *** Schedules *)

(** A cue names the next thing the environment does without naming ids:
    [Wait] lets the pending timer that is due first fire, at its due time
    or now if that is past; [Speech] lets the utterance being spoken end;
    [Answer] and [Camera] answer the oldest pending request; [Do] is any
    other event. *)
Inductive Cue :=
| Wait
| Speech
| Answer (reply : Reply)
| Camera (reply : MediaReply)
| Do (e : Event).

Definition earliest (ts : list Timer) : option Timer :=
  foldr (λ t acc,
           match acc with
           | Some t' => if bool_decide (due t ≤ due t')%Z then Some t else Some t'
           | None => Some t
           end) None ts.

Definition cue (c : Cue) (w : World) : list Event :=
  match c with
  | Wait =>
      match earliest (timers w) with
      | Some t => [Elapse (Z.max 0 (due t - now w)); TimerFires (timerId t)]
      | None => []
      end
  | Speech =>
      match filter (λ u, cancelled u = false) (utterances w) with
      | u :: _ => [UtteranceEnds (utteranceId u)]
      | [] => []
      end
  | Answer reply =>
      match fetches w with
      | f :: _ => [FetchReplies (fetchId f) reply]
      | [] => []
      end
  | Camera reply =>
      match mediaRequests w with
      | q :: _ => [MediaReplies (requestId q) reply]
      | [] => []
      end
  | Do e => [e]
  end.

Fixpoint play (cs : list Cue) (w : World) : World :=
  match cs with
  | [] => w
  | c :: cs' => play cs' (run (cue c w) w)
  end.

(** The events a list of cues stands for, from [w] on. *)
Fixpoint script (cs : list Cue) (w : World) : list Event :=
  match cs with
  | [] => []
  | c :: cs' => cue c w ++ script cs' (run (cue c w) w)
  end.

(** *** Predicates used in the statements *)

Definition reachable (w : World) : Prop := ∃ es, w = run es mounted.

(** The fixed question budget of a phase. *)
Definition budget (phase : PhaseKey) : nat :=
  match phase with
  | KeyIntroduction => 3
  | KeyTechnical => 5
  | KeyBehavioral => 4
  end.

(** [sum(questionCounts)] *)
Definition total (c : QuestionCounts) : nat :=
  (introduction c + technical c + behavioral c)%nat.

(** The batch a reply makes usable, if any. *)
Definition batchOf (reply : Reply) : option (list Question) :=
  received reply ≫= usableBatch.

(** The fetch of a batch failed: it threw, was answered with a status
    outside 200-299, with a body that does not parse, or with no
    questions. *)
Definition failed (reply : Reply) : Prop := batchOf reply = None.

(** The batch installed for [phase] after [reply]. *)
Definition batchFor (phase : PhaseKey) (reply : Reply) : list Question :=
  default (fallbackQuestions phase) (batchOf reply).

(** Every id handed out so far is below [nextId]. *)
Definition fresh (w : World) : Prop :=
  Forall (λ t, (timerId t < nextId w)%nat) (timers w)
  ∧ Forall (λ u, (utteranceId u < nextId w)%nat) (utterances w)
  ∧ Forall (λ f, (fetchId f < nextId w)%nat) (fetches w)
  ∧ Forall (λ q, (requestId q < nextId w)%nat) (mediaRequests w)
  ∧ Forall (λ t, (trackId t < nextId w)%nat) (tracks w).

(** *** Definitions used in the statements and in the invariants *)

(** [track.stop()] on the track [i], seen from one track. *)
Definition halt (i : nat) (t : Track) : Track :=
  if decide (trackId t = i) then mkTrack (trackId t) (kind t) (enabled t) false else t.

(** The phase after [phase]; there is none after the behavioral phase. *)
Definition nextPhase (phase : PhaseKey) : option PhaseKey :=
  match phase with
  | KeyIntroduction => Some KeyTechnical
  | KeyTechnical => Some KeyBehavioral
  | KeyBehavioral => None
  end.

(** In the render [r], the counter of the running phase has reached its
    budget and [next] is the phase that follows. *)
Definition atBudget (r : State) (counts : QuestionCounts) (next : PhaseKey) : Prop :=
  (interviewPhase r = PhaseIntroduction
   ∧ (budget KeyIntroduction ≤ introduction counts)%nat ∧ next = KeyTechnical)
  ∨ (interviewPhase r = PhaseTechnical
     ∧ (budget KeyTechnical ≤ technical counts)%nat ∧ next = KeyBehavioral).

(** A batch that covers the budget of its phase with questions of the
    category of that phase. *)
Definition proper (phase : PhaseKey) (batch : list Question) : Prop :=
  (budget phase ≤ length batch)%nat
  ∧ Forall (λ q, category q = categoryOfKey phase) (take (budget phase) batch).

(** What the log shows of a response. *)
Definition logged (x : Response) : Z * string * string :=
  (questionId x, question x, answer x).

(** The timers still pending, and the tracks still live. *)
Definition pending (w : World) : list (nat * Z) := (λ t, (timerId t, due t)) <$> timers w.
Definition liveTracks (w : World) : list nat :=
  trackId <$> filter (λ t, live t = true) (tracks w).

(** **** Schedules *)

(** The camera is granted 100 ms after the mount. *)
Definition cameraReady : list Cue := [Wait; Camera (StreamGranted [Video; Audio])].
(** Start is clicked and the instructions are heard to their end. *)
Definition opening : list Cue := [Do ClickStart; Speech].
(** The question is heard, listening starts, Skip is clicked, and the
    2 s before [determineNextStep] pass. *)
Definition skipIt : list Cue := [Speech; Wait; Do ClickSkip; Wait].
(** The same with a spoken answer in place of the click. *)
Definition answerIt (ans : string) : list Cue :=
  [Speech; Wait; Do (RecognitionResult ans); Wait].
(** The 1 s before the next question of the phase is spoken. *)
Definition nextQuestion : list Cue := [Wait].
(** The closing words are heard and the 2 s before the feedback pass. *)
Definition closing : list Cue := [Speech; Wait].

Fixpoint skipPhase (n : nat) : list Cue :=
  match n with
  | O => []
  | S O => skipIt
  | S n' => skipIt ++ nextQuestion ++ skipPhase n'
  end.

(** A whole session in which every question is skipped; [r1], [r2] and
    [r3] are the replies to the three batch requests. *)
Definition skipEverything (r1 r2 r3 : Reply) : list Cue :=
  cameraReady ++ opening
  ++ [Answer r1; Wait] ++ skipPhase 3
  ++ [Answer r2; Speech; Wait] ++ skipPhase 5
  ++ [Answer r3; Speech; Wait] ++ skipPhase 4
  ++ closing.

(** Up to the moment the first question is about to be spoken. *)
Definition toFirstQuestion (reply : Reply) : list Cue :=
  cameraReady ++ opening ++ [Answer reply; Wait].

(** The introduction phase with three spoken answers. *)
Definition answerIntroduction (reply : Reply) (a1 a2 a3 : string) : list Cue :=
  toFirstQuestion reply
  ++ answerIt a1 ++ nextQuestion ++ answerIt a2 ++ nextQuestion ++ answerIt a3.

(** A batch of one question of the fourth category of [Question]. *)
Definition followUp : Question :=
  mkQuestion 1 "Could you tell me more about that?" FollowUp false.
Definition followUpBatch : Reply := Http 200 (Some (mkBody (Some [followUp]) None)).

(** The service answers the first request with [followUpBatch]; the
    question is spoken and answered by voice. *)
Definition followUpAnswered : list Event :=
  [Elapse 100; TimerFires 0; MediaReplies 1 (StreamGranted [Video; Audio]);
   ClickStart; UtteranceEnds 4; FetchReplies 5 followUpBatch;
   Elapse 1000; TimerFires 6; UtteranceEnds 7;
   Elapse 1000; TimerFires 8; RecognitionResult "It went well."].

(** Four clicks on Skip while the first question is still the current one. *)
Definition rapidSkips : list Event :=
  [Elapse 100; TimerFires 0; MediaReplies 1 (StreamGranted [Video; Audio]);
   ClickStart; UtteranceEnds 4; FetchReplies 5 NetworkError;
   Elapse 1000; TimerFires 6;
   ClickSkip; ClickSkip; ClickSkip; ClickSkip].

(** Retry Camera, and End Interview within the 100 ms of its bare timer. *)
Definition retryThenEnd : list Event :=
  [Elapse 100; TimerFires 0; ClickStart; ClickRetryCamera; Elapse 50; ClickEnd].

(** Retry Camera while the first request for the camera is pending; both
    requests are granted, then End Interview. *)
Definition twoStreamsThenEnd : list Event :=
  [Elapse 100; TimerFires 0; ClickStart; ClickRetryCamera; Elapse 100; TimerFires 3;
   MediaReplies 1 (StreamGranted [Video; Audio]);
   MediaReplies 4 (StreamGranted [Video; Audio]);
   ClickEnd].

(** Skip is clicked in the second between the end of the first question
    and the start of listening. *)
Definition skipBeforeListening : list Event :=
  [Elapse 100; TimerFires 0; MediaReplies 1 (StreamGranted [Video; Audio]);
   ClickStart; UtteranceEnds 4; FetchReplies 5 NetworkError;
   Elapse 1000; TimerFires 6; UtteranceEnds 7;
   Elapse 500; ClickSkip;
   Elapse 500; TimerFires 8;
   Elapse 1500; TimerFires 9;
   Elapse 1000; TimerFires 10].

(** **** The log and the counters *)

(** The three categories [handleResponse] has a counter for. *)
Definition counted (c : Category) : Prop :=
  c = Introduction ∨ c = Technical ∨ c = Behavioral.

#[global] Instance counted_dec c : Decision (counted c).
Proof. unfold counted. apply _. Defined.

(** A question of one of the three counted categories. *)
Definition clean (q : Question) : Prop := counted (category q).

Definition good (s : State) : Prop :=
  length (responses s) = total (questionCounts s)
  ∧ Forall clean (questions s)
  ∧ (∀ q, currentQuestion s = Some q → clean q).

Definition cleanCallback (cb : Callback) : Prop :=
  match cb with
  | CbDetermineNextStep r _ _ => Forall clean (questions r)
  | _ => True
  end.

Definition cleanTimer (t : Timer) : Prop :=
  match body t with
  | Tracked _ cb => cleanCallback cb
  | Raw _ => True
  end.

(** The invariant: the log is as long as the counters say, in the store
    and in the render behind the adapter, and it stays so when a pending
    timer fires. *)
Definition agree (w : World) : Prop :=
  good (store w) ∧ good (onResultOf w) ∧ Forall cleanTimer (timers w).

(** Every question of the batch the question service delivers has one of
    the three counted categories. *)
Definition cleanReply (reply : Reply) : Prop :=
  match reply with
  | Http _ (Some data) =>
      match bodyQuestions data with
      | Some batch => Forall clean batch
      | None => True
      end
  | _ => True
  end.

Definition cleanEvent (e : Event) : Prop :=
  match e with
  | FetchReplies _ reply => cleanReply reply
  | _ => True
  end.

(** A setter that leaves the four fields alone. *)
Definition quiet (f : State → State) : Prop :=
  ∀ s, responses (f s) = responses s ∧ questionCounts (f s) = questionCounts s
       ∧ questions (f s) = questions s ∧ currentQuestion (f s) = currentQuestion s.

(** **** Timers and [timeoutsRef] *)

(** A timer made by [createTimeout] is recorded in [timeoutsRef]. *)
Definition recorded (ref : gset nat) (t : Timer) : Prop :=
  match body t with
  | Tracked _ _ => timerId t ∈ ref
  | Raw _ => True
  end.

Definition tracked (w : World) : Prop := Forall (recorded (timeoutsRef w)) (timers w).

(** A timer made by [setTimeout] called directly, not through
    [createTimeout]. *)
Definition bare (t : Timer) : Prop :=
  match body t with
  | Tracked _ _ => False
  | Raw _ => True
  end.

(** **** The render behind the adapter *)

(** While listening, the render behind the adapter's [onResult] does not
    miss that the store has no current question or has the ended flag. *)
Definition bound (w : World) : Prop :=
  isListening (store w) = true →
  (currentQuestion (store w) = None → currentQuestion (onResultOf w) = None)
  ∧ (isInterviewEnded (store w) = true → isInterviewEnded (onResultOf w) = true).

(** From [s] to [s'] listening was not switched on, and if it is still on
    no question was withdrawn and the ended flag was not raised. *)
Definition calmer (s s' : State) : Prop :=
  (isListening s' = true → isListening s = true)
  ∧ (isListening s' = true → currentQuestion s' = None → currentQuestion s = None)
  ∧ (isListening s' = true → isInterviewEnded s' = true → isInterviewEnded s = true).

Definition tame (w0 w : World) : Prop :=
  onResultOf w = onResultOf w0 ∧ calmer (store w0) (store w).

(** A setter that leaves the three fields alone. *)
Definition discreet (f : State → State) : Prop :=
  ∀ s, isListening (f s) = isListening s ∧ currentQuestion (f s) = currentQuestion s
       ∧ isInterviewEnded (f s) = isInterviewEnded s.

(** What an event does to the store, as far as [bound] can tell: it is
    calm, or it leaves the current question and the ended flag alone. *)
Definition mild (w w' : World) : Prop :=
  onResultOf w' = onResultOf w
  ∧ (calmer (store w) (store w')
     ∨ (currentQuestion (store w') = currentQuestion (store w)
        ∧ isInterviewEnded (store w') = isInterviewEnded (store w))).

(** **** The whole session, skipped *)

(** The texts handed to speech synthesis, in order. *)
Definition spoken (w : World) : list string :=
  omap (λ a, match a with Spoke txt => Some txt | _ => None end) (trace w).

(** The questions of a phase that are asked: as many as its budget, from
    the head of the batch in use. *)
Definition asked_of (phase : PhaseKey) (reply : Reply) : list Question :=
  take (budget phase) (batchFor phase reply).

(** The events of [skipEverything], spelled out.  One question: a second
    after it has become current it is spoken (timer [t]) and heard to its
    end; a second later listening starts; Skip is clicked; two seconds
    later [determineNextStep] runs. *)
Definition skipQuestion (t : nat) : list Event :=
  [Elapse 1000; TimerFires t; UtteranceEnds (t + 1);
   Elapse 1000; TimerFires (t + 2); ClickSkip; Elapse 2000; TimerFires (t + 3)].

Definition skipsEverything (r1 r2 r3 : Reply) : list Event :=
  [Elapse 100; TimerFires 0; MediaReplies 1 (StreamGranted [Video; Audio]);
   ClickStart; UtteranceEnds 4; FetchReplies 5 r1]
  ++ skipQuestion 6 ++ skipQuestion 10 ++ skipQuestion 14
  ++ [FetchReplies 18 r2; UtteranceEnds 19]
  ++ skipQuestion 20 ++ skipQuestion 24 ++ skipQuestion 28 ++ skipQuestion 32
  ++ skipQuestion 36
  ++ [FetchReplies 40 r3; UtteranceEnds 41]
  ++ skipQuestion 42 ++ skipQuestion 46 ++ skipQuestion 50 ++ skipQuestion 54
  ++ [UtteranceEnds 58; Elapse 2000; TimerFires 59].

(** **** Closures that say nothing *)

(** A callback that neither speaks nor decides what is asked next. *)
Definition muteCallback (cb : Callback) : bool :=
  match cb with
  | CbStartListening _ | CbShowFeedback => true
  | CbSpeakQuestionAt _ _ _ | CbSpeakText _ _ | CbDetermineNextStep _ _ _ => false
  end.

Definition muteTimer (t : Timer) : bool :=
  match body t with
  | Tracked _ cb => muteCallback cb
  | Raw _ => true
  end.

(** An utterance whose handlers are detached or that was spoken without
    [onComplete]: when it settles, at most the timer that starts listening
    is set. *)
Definition muteUtterance (u : Utterance) : bool :=
  negb (attached u) || match onComplete u with None => true | Some _ => false end.

Definition loudTimers (w : World) : list Timer :=
  filter (λ t, muteTimer t = false) (timers w).
Definition loudUtterances (w : World) : list Utterance :=
  filter (λ u, muteUtterance u = false) (utterances w).

(** Nothing that is pending will speak: no fetch is in flight, and the
    pending timers and utterances are mute. *)
Definition hushed (w : World) : Prop :=
  fetches w = [] ∧ loudTimers w = [] ∧ loudUtterances w = [].

(** What is requested, installed and spoken, in order. *)
Definition audible (a : Action) : bool :=
  match a with
  | RequestedQuestions _ | RequestedNextQuestion _ _ _ | Installed _ | Spoke _ => true
  | Settled _ | CancelledSpeech | StoppedTrack _ | CalledOnEnd => false
  end.
Definition course (w : World) : list Action :=
  filter (λ a, audible a = true) (trace w).

(** The candidate submits no answer and does not start, end or restart the
    session; everything else may happen. *)
Definition passive (e : Event) : Prop :=
  match e with
  | ClickStart | ClickSkip | ClickEnd | ClickRestart | RecognitionResult _ => False
  | _ => True
  end.

(** [e] runs none of the pending closures of [w] that speak. *)
Definition spares (w : World) (e : Event) : Prop :=
  match e with
  | TimerFires i => Forall (λ t, timerId t = i → muteTimer t = true) (timers w)
  | UtteranceEnds i | UtteranceFails i =>
      Forall (λ u, utteranceId u = i → muteUtterance u = true) (utterances w)
  | FetchReplies i _ => Forall (λ f, fetchId f ≠ i) (fetches w)
  | _ => True
  end.

(** [w'] differs from [w] by changes that request, install and speak
    nothing and leave the closures that speak as they are. *)
Definition quietly (w w' : World) : Prop :=
  course w' = course w ∧ fetches w' = fetches w ∧ (nextId w ≤ nextId w')%nat
  ∧ loudUtterances w' = loudUtterances w ∧ loudTimers w' = loudTimers w
  ∧ (∀ P : Utterance → Prop, Forall P (utterances w) → Forall P (utterances w'))
  ∧ (∀ P : Timer → Prop, Forall P (timers w) →
       (∀ x, muteTimer x = true → (nextId w ≤ timerId x)%nat → P x) →
       Forall P (timers w')).

(** The three stages of a phase change: the batch is awaited, the
    announcement is being spoken, the first question is about to be
    spoken.  In each the closure named is the one pending that speaks. *)
Definition awaiting (f : Fetch) (w : World) : Prop :=
  fetches w = [f] ∧ loudTimers w = [] ∧ loudUtterances w = [].
Definition announcing (u : Utterance) (w : World) : Prop :=
  fetches w = [] ∧ loudTimers w = [] ∧ loudUtterances w = [u]
  ∧ Forall (λ x, x = u ∨ ¬ utteranceId x = utteranceId u) (utterances w).
Definition pausing (t : Timer) (w : World) : Prop :=
  fetches w = [] ∧ loudUtterances w = [] ∧ loudTimers w = [t]
  ∧ Forall (λ x, x = t ∨ ¬ timerId x = timerId t) (timers w)
  ∧ (timerId t < nextId w)%nat.

(** Skip is clicked twice on the last introduction question.  Two seconds
    later the two decisions run; each requests the technical batch, each
    reply installs it and speaks the announcement, the second cutting the
    first.  The error event of the first announcement is delivered, and a
    second later its timer fires. *)
Definition secondSkip : list Event :=
  [Elapse 100; TimerFires 0; MediaReplies 1 (StreamGranted [Video; Audio]);
   ClickStart; UtteranceEnds 4; FetchReplies 5 NetworkError]
  ++ skipQuestion 6 ++ skipQuestion 10
  ++ [Elapse 1000; TimerFires 14; UtteranceEnds 15; Elapse 1000; TimerFires 16;
      ClickSkip; ClickSkip; Elapse 2000; TimerFires 17; TimerFires 18;
      FetchReplies 19 NetworkError; FetchReplies 20 NetworkError;
      UtteranceFails 21; Elapse 1000; TimerFires 23].

(** What an utterance is: its id, its text, and whether its handlers are
    attached and it was cancelled. *)
Definition uttered (u : Utterance) : nat * string * bool * bool :=
  (utteranceId u, utteranceText u, attached u, cancelled u).

End Session.

(** ** The speech input adapter (component [SpeechRecognition]) *)

Module Recognition.

(** One entry of [event.results]: [result[0].transcript] and
    [result.isFinal].  The confidence is only displayed and is left out. *)
Record Result := mkResult { transcript : string; isFinal : bool }.

Record ResultEvent := mkResultEvent { resultIndex : nat; results : list Result }.

(** The two functions the component hands to [setTimeout]. *)
Inductive TimerBody :=
| Silence                       (* set by [onresult] *)
| Restart (isListening : bool)  (* set by [scheduleRestart]; closes over the prop *).

Record Timer := mkTimer { timerId : nat; due : Z; body : TimerBody }.

Inductive ErrorCode :=
| NoSpeech | AudioCapture | NotAllowed | Network | Aborted | ServiceNotAllowed
| OtherCode (code : string).

Inductive Action :=
| Started              (* [recognition.start()] *)
| Stopped              (* [recognition.stop()] *)
| Emitted (txt : string)   (* [onResult(txt)] *)
| CalledOnStop.

Record Adapter := mkAdapter {
  (* [useState] *)
  shownTranscript : string;
  interimTranscript : string;
  error : option string;
  isRecognitionActive : bool;
  (* [useRef] *)
  recognitionRef : bool;                (* a recogniser has been created *)
  handlers : bool;                      (* its four handlers are installed *)
  silenceTimeoutRef : option nat;
  restartTimeoutRef : option nat;
  finalTranscriptRef : string;
  isProcessingRef : bool;
  (* values the installed handlers close over *)
  isListening : bool;
  errorSeen : option string;
  (* browser *)
  now : Z;
  nextId : nat;
  timers : list Timer;
  trace : list Action
}.

Definition withShownTranscript (v : string) (a : Adapter) : Adapter :=
  mkAdapter v (interimTranscript a) (error a) (isRecognitionActive a) (recognitionRef a)
    (handlers a) (silenceTimeoutRef a) (restartTimeoutRef a) (finalTranscriptRef a)
    (isProcessingRef a) (isListening a) (errorSeen a) (now a) (nextId a) (timers a) (trace a).
Definition withInterimTranscript (v : string) (a : Adapter) : Adapter :=
  mkAdapter (shownTranscript a) v (error a) (isRecognitionActive a) (recognitionRef a)
    (handlers a) (silenceTimeoutRef a) (restartTimeoutRef a) (finalTranscriptRef a)
    (isProcessingRef a) (isListening a) (errorSeen a) (now a) (nextId a) (timers a) (trace a).
Definition withError (v : option string) (a : Adapter) : Adapter :=
  mkAdapter (shownTranscript a) (interimTranscript a) v (isRecognitionActive a) (recognitionRef a)
    (handlers a) (silenceTimeoutRef a) (restartTimeoutRef a) (finalTranscriptRef a)
    (isProcessingRef a) (isListening a) (errorSeen a) (now a) (nextId a) (timers a) (trace a).
Definition withIsRecognitionActive (v : bool) (a : Adapter) : Adapter :=
  mkAdapter (shownTranscript a) (interimTranscript a) (error a) v (recognitionRef a)
    (handlers a) (silenceTimeoutRef a) (restartTimeoutRef a) (finalTranscriptRef a)
    (isProcessingRef a) (isListening a) (errorSeen a) (now a) (nextId a) (timers a) (trace a).
Definition withHandlers (created installed : bool) (a : Adapter) : Adapter :=
  mkAdapter (shownTranscript a) (interimTranscript a) (error a) (isRecognitionActive a) created
    installed (silenceTimeoutRef a) (restartTimeoutRef a) (finalTranscriptRef a)
    (isProcessingRef a) (isListening a) (errorSeen a) (now a) (nextId a) (timers a) (trace a).
Definition withSilenceTimeoutRef (v : option nat) (a : Adapter) : Adapter :=
  mkAdapter (shownTranscript a) (interimTranscript a) (error a) (isRecognitionActive a) (recognitionRef a)
    (handlers a) v (restartTimeoutRef a) (finalTranscriptRef a)
    (isProcessingRef a) (isListening a) (errorSeen a) (now a) (nextId a) (timers a) (trace a).
Definition withRestartTimeoutRef (v : option nat) (a : Adapter) : Adapter :=
  mkAdapter (shownTranscript a) (interimTranscript a) (error a) (isRecognitionActive a) (recognitionRef a)
    (handlers a) (silenceTimeoutRef a) v (finalTranscriptRef a)
    (isProcessingRef a) (isListening a) (errorSeen a) (now a) (nextId a) (timers a) (trace a).
Definition withFinalTranscriptRef (v : string) (a : Adapter) : Adapter :=
  mkAdapter (shownTranscript a) (interimTranscript a) (error a) (isRecognitionActive a) (recognitionRef a)
    (handlers a) (silenceTimeoutRef a) (restartTimeoutRef a) v
    (isProcessingRef a) (isListening a) (errorSeen a) (now a) (nextId a) (timers a) (trace a).
Definition withIsProcessingRef (v : bool) (a : Adapter) : Adapter :=
  mkAdapter (shownTranscript a) (interimTranscript a) (error a) (isRecognitionActive a) (recognitionRef a)
    (handlers a) (silenceTimeoutRef a) (restartTimeoutRef a) (finalTranscriptRef a)
    v (isListening a) (errorSeen a) (now a) (nextId a) (timers a) (trace a).
Definition withClosure (listening : bool) (err : option string) (a : Adapter) : Adapter :=
  mkAdapter (shownTranscript a) (interimTranscript a) (error a) (isRecognitionActive a) (recognitionRef a)
    (handlers a) (silenceTimeoutRef a) (restartTimeoutRef a) (finalTranscriptRef a)
    (isProcessingRef a) listening err (now a) (nextId a) (timers a) (trace a).
Definition withNow (v : Z) (a : Adapter) : Adapter :=
  mkAdapter (shownTranscript a) (interimTranscript a) (error a) (isRecognitionActive a) (recognitionRef a)
    (handlers a) (silenceTimeoutRef a) (restartTimeoutRef a) (finalTranscriptRef a)
    (isProcessingRef a) (isListening a) (errorSeen a) v (nextId a) (timers a) (trace a).
Definition withTimers (n : nat) (v : list Timer) (a : Adapter) : Adapter :=
  mkAdapter (shownTranscript a) (interimTranscript a) (error a) (isRecognitionActive a) (recognitionRef a)
    (handlers a) (silenceTimeoutRef a) (restartTimeoutRef a) (finalTranscriptRef a)
    (isProcessingRef a) (isListening a) (errorSeen a) (now a) n v (trace a).
Definition record (x : Action) (a : Adapter) : Adapter :=
  mkAdapter (shownTranscript a) (interimTranscript a) (error a) (isRecognitionActive a) (recognitionRef a)
    (handlers a) (silenceTimeoutRef a) (restartTimeoutRef a) (finalTranscriptRef a)
    (isProcessingRef a) (isListening a) (errorSeen a) (now a) (nextId a) (timers a) (trace a ++ [x]).

Definition setTimeout (b : TimerBody) (delay : Z) (a : Adapter) : Adapter :=
  withTimers (S (nextId a)) (timers a ++ [mkTimer (nextId a) (now a + delay)%Z b]) a.

Definition clearTimeout (i : nat) (a : Adapter) : Adapter :=
  withTimers (nextId a) (filter (λ t, timerId t ≠ i) (timers a)) a.

(** [recognitionRef.current.stop()], guarded by [if (recognitionRef.current)] *)
Definition stop (a : Adapter) : Adapter :=
  if recognitionRef a then record Stopped a else a.

(** [clearAllTimeouts].  [timeoutRef] is never assigned in the source and
    stays null. *)
Definition clearAllTimeouts (a : Adapter) : Adapter :=
  let a :=
    match silenceTimeoutRef a with
    | Some i => withSilenceTimeoutRef None (clearTimeout i a)
    | None => a
    end in
  match restartTimeoutRef a with
  | Some i => withRestartTimeoutRef None (clearTimeout i a)
  | None => a
  end.

(** [processTranscript] *)
Definition processTranscript (txt : string) (a : Adapter) : Adapter :=
  if isProcessingRef a || negb (JS.truthy (JS.trim txt)) then a else
  let a := withIsProcessingRef true a in
  let a := stop a in
  let a := clearAllTimeouts a in
  let a := record (Emitted (JS.trim txt)) a in
  let a := withShownTranscript EmptyString a in
  let a := withInterimTranscript EmptyString a in
  let a := withFinalTranscriptRef EmptyString a in
  withIsRecognitionActive false a.

(** [scheduleRestart] *)
Definition scheduleRestart (delay : Z) (a : Adapter) : Adapter :=
  let a :=
    match restartTimeoutRef a with
    | Some i => clearTimeout i a
    | None => a
    end in
  let i := nextId a in
  withRestartTimeoutRef (Some i) (setTimeout (Restart (isListening a)) delay a).

(** [cleanup] *)
Definition cleanup (a : Adapter) : Adapter :=
  let a := if recognitionRef a then withHandlers true false (stop a) else a in
  let a := clearAllTimeouts a in
  let a := withIsRecognitionActive false a in
  withIsProcessingRef false a.

(** [onstart] *)
Definition onstart (a : Adapter) : Adapter :=
  let a := withIsRecognitionActive true a in
  let a := withError None a in
  let a := withShownTranscript EmptyString a in
  let a := withInterimTranscript EmptyString a in
  let a := withFinalTranscriptRef EmptyString a in
  withIsProcessingRef false a.

(** The loop of [onresult]: the final and the interim text of the entries
    from [resultIndex] on. *)
Fixpoint gather (rs : list Result) (finalText interimText : string) : string * string :=
  match rs with
  | [] => (finalText, interimText)
  | r :: rs' =>
      let t := JS.trim (transcript r) in
      if isFinal r
      then gather rs' (finalText +:+ t +:+ " ") interimText
      else gather rs' finalText (interimText +:+ t +:+ " ")
  end.

(** [onresult] *)
Definition onresult (ev : ResultEvent) (a : Adapter) : Adapter :=
  if isProcessingRef a then a else
  let '(finalText, interimText) := gather (drop (resultIndex ev) (results ev)) EmptyString EmptyString in
  let a :=
    if JS.truthy (JS.trim finalText) then
      let a := withFinalTranscriptRef (finalTranscriptRef a +:+ finalText) a in
      let a := withShownTranscript (JS.trim (finalTranscriptRef a)) a in
      let a :=
        match silenceTimeoutRef a with
        | Some i => clearTimeout i a
        | None => a
        end in
      let i := nextId a in
      withSilenceTimeoutRef (Some i) (setTimeout Silence 1500 a)
    else a in
  if JS.truthy (JS.trim interimText)
  then withInterimTranscript (JS.trim interimText) a
  else a.

(** [onerror]; [onStop] is the parent's [() => setIsListening(false)]. *)
Definition onerror (code : ErrorCode) (a : Adapter) : Adapter :=
  match code with
  | NoSpeech =>
      let a := withError (Some "No speech detected. Please speak clearly into your microphone.") a in
      if isListening a then scheduleRestart 1000 a else a
  | AudioCapture =>
      let a := withError (Some "Microphone not accessible. Please check your microphone permissions.") a in
      record CalledOnStop (withIsRecognitionActive false a)
  | NotAllowed =>
      let a := withError (Some "Microphone permission denied. Please allow microphone access and refresh the page.") a in
      record CalledOnStop (withIsRecognitionActive false a)
  | Network =>
      let a := withError (Some "Network error. Please check your internet connection.") a in
      if isListening a then scheduleRestart 2000 a else a
  | Aborted => withIsRecognitionActive false a
  | ServiceNotAllowed =>
      let a := withError (Some "Speech recognition service not allowed. Please check your browser settings.") a in
      record CalledOnStop (withIsRecognitionActive false a)
  | OtherCode code =>
      let a := withError (Some ("Speech recognition error: " +:+ code)) a in
      if isListening a then scheduleRestart 1500 a else a
  end.

(** [onend].  [clearTimeout] leaves the two refs as they are. *)
Definition onend (a : Adapter) : Adapter :=
  let a := withIsRecognitionActive false a in
  let a :=
    match silenceTimeoutRef a with
    | Some i => clearTimeout i a
    | None => a
    end in
  if isListening a && negb (bool_decide (is_Some (errorSeen a))) && negb (isProcessingRef a)
  then scheduleRestart 500 a
  else a.

(** The function handed to [setTimeout], once its timer has fired. *)
Definition fireTimer (t : Timer) (a : Adapter) : Adapter :=
  match body t with
  | Silence =>
      if JS.truthy (JS.trim (finalTranscriptRef a)) && negb (isProcessingRef a)
      then processTranscript (JS.trim (finalTranscriptRef a)) a
      else a
  | Restart listening =>
      if listening && recognitionRef a && negb (isProcessingRef a)
      then record Started a
      else a
  end.

(** The first effect, run for the props [listening]: the clean-up of its
    previous run, then a new recogniser with handlers closing over
    [listening] and the current [error]. *)
Definition reinstall (listening : bool) (a : Adapter) : Adapter :=
  let a := cleanup a in
  withHandlers true true (withClosure listening (error a) a).

(** The second effect, run for the props [listening]. *)
Definition startOrStop (listening : bool) (a : Adapter) : Adapter :=
  if listening && recognitionRef a && negb (isRecognitionActive a) && negb (isProcessingRef a)
  then record Started (withError None a)
  else if negb listening && recognitionRef a && isRecognitionActive a
  then cleanup (stop a)
  else a.

Inductive Event :=
| Elapse (ms : Z)
| OnStart
| OnResult (ev : ResultEvent)
| OnError (code : ErrorCode)
| OnEnd
| TimerFires (i : nat)
| Reinstall (listening : bool)
| StartOrStop (listening : bool).

(** Browser events reach the component only while its handlers are
    installed. *)
Definition step (a : Adapter) (e : Event) : Adapter :=
  match e with
  | Elapse ms => if bool_decide (0 ≤ ms)%Z then withNow (now a + ms)%Z a else a
  | OnStart => if handlers a then onstart a else a
  | OnResult ev => if handlers a then onresult ev a else a
  | OnError code => if handlers a then onerror code a else a
  | OnEnd => if handlers a then onend a else a
  | TimerFires i =>
      match filter (λ t, timerId t = i) (timers a) with
      | t :: _ =>
          if bool_decide (due t ≤ now a)%Z then fireTimer t (clearTimeout i a) else a
      | [] => a
      end
  | Reinstall listening => reinstall listening a
  | StartOrStop listening => startOrStop listening a
  end.

Definition run (es : list Event) (a : Adapter) : Adapter := foldl step a es.

(** The adapter before its first effect has run. *)
Definition initial : Adapter :=
  mkAdapter EmptyString EmptyString None false false false None None EmptyString false false None 0 0 [] [].

(** The texts handed to [onResult] so far. *)
Definition emitted (a : Adapter) : list string :=
  omap (λ x, match x with Emitted txt => Some txt | _ => None end) (trace a).

Definition isSilence (t : Timer) : bool :=
  match body t with Silence => true | Restart _ => false end.

(** Shape of the adapter states that arise: timer ids are below [nextId],
    a pending silence timer is the one [silenceTimeoutRef] names, and
    handlers are installed on a recogniser that exists. *)
Definition tidy (a : Adapter) : Prop :=
  Forall (λ t, (timerId t < nextId a)%nat) (timers a)
  ∧ Forall (λ t, isSilence t = true → silenceTimeoutRef a = Some (timerId t)) (timers a)
  ∧ (handlers a = true → recognitionRef a = true).



(** *** Result events and schedules used in the statements *)

(** One final segment, "hello"; then the same list with a second final
    segment that holds a space only. *)
Definition hello : ResultEvent := mkResultEvent 0 [mkResult "hello" true].



(** One second after "hello" the recogniser ends by itself; it is started
    again half a second later. *)
Definition endsEarly : list Event :=
  [Reinstall true; StartOrStop true; OnStart; OnResult hello; Elapse 1000; OnEnd;
   Elapse 500; TimerFires 0; TimerFires 1; OnStart].

(** *** The wait for the silence timer *)





End Recognition.

(** * Properties *)

(** ** [trim] and blank strings *)

Section JSFacts.
Import JS.

Lemma trimEnd_keeps_head c s :
  isWhiteSpace c = false -> trimEnd (String c s) = String c (trimEnd s).
Proof. intros H. simpl. rewrite H. reflexivity. Qed.

Lemma isEmpty_trim s : isEmpty (trim s) = blank s.
Proof.
  unfold trim. induction s as [|c s IH]; [reflexivity|].
  cbn [trimStart blank]. destruct (isWhiteSpace c) eqn:Hc.
  - exact IH.
  - rewrite trimEnd_keeps_head by exact Hc. reflexivity.
Qed.

Lemma trim_not_blank s : truthy (trim s) = true -> blank (trim s) = false.
Proof.
  unfold truthy, trim. induction s as [|c s IH]; [discriminate|].
  cbn [trimStart]. destruct (isWhiteSpace c) eqn:Hc; [exact IH|].
  intros _. rewrite trimEnd_keeps_head by exact Hc.
  cbn [blank]. rewrite Hc. reflexivity.
Qed.


Lemma truthy_trim s : truthy (trim s) = negb (blank s).
Proof. unfold truthy. by rewrite isEmpty_trim. Qed.
End JSFacts.

(** ** The adapter: what each handler hands to [onResult] *)

Section AdapterFacts.
Import Recognition.

Arguments JS.trim : simpl never.
Arguments JS.truthy : simpl never.
Arguments String.append : simpl never.
Arguments scheduleRestart : simpl never.
Arguments clearAllTimeouts : simpl never.
Arguments stop : simpl never.
Arguments cleanup : simpl never.
Arguments processTranscript : simpl never.

(** *** What each function does to the trace of emitted texts *)

Lemma emitted_record x a :
  emitted (record x a)
  = emitted a ++ match x with Emitted txt => [txt] | _ => [] end.
Proof.
  unfold emitted. cbn. rewrite omap_app. destruct x; reflexivity.
Qed.

Lemma trace_clearTimeout i a : trace (clearTimeout i a) = trace a.
Proof. reflexivity. Qed.

Lemma trace_clearAllTimeouts a : trace (clearAllTimeouts a) = trace a.
Proof.
  unfold clearAllTimeouts.
  destruct (silenceTimeoutRef a); cbn; destruct (restartTimeoutRef a); reflexivity.
Qed.

Lemma trace_stop a :
  trace (stop a) = trace a ++ (if recognitionRef a then [Stopped] else []).
Proof. unfold stop. destruct (recognitionRef a); cbn; by rewrite ?app_nil_r. Qed.

Lemma trace_processTranscript txt a :
  trace (processTranscript txt a)
  = if isProcessingRef a || negb (JS.truthy (JS.trim txt)) then trace a
    else trace a ++ (if recognitionRef a then [Stopped] else []) ++ [Emitted (JS.trim txt)].
Proof.
  unfold processTranscript.
  destruct (isProcessingRef a || negb (JS.truthy (JS.trim txt))); [reflexivity|].
  cbn. rewrite trace_clearAllTimeouts, trace_stop. cbn. by rewrite <- app_assoc.
Qed.

Lemma trace_scheduleRestart d a : trace (scheduleRestart d a) = trace a.
Proof. unfold scheduleRestart. destruct (restartTimeoutRef a); reflexivity. Qed.

Lemma trace_cleanup a :
  trace (cleanup a) = trace a ++ (if recognitionRef a then [Stopped] else []).
Proof.
  unfold cleanup. cbn. rewrite trace_clearAllTimeouts.
  destruct (recognitionRef a) eqn:H; cbn; [|by rewrite app_nil_r].
  rewrite trace_stop, H. reflexivity.
Qed.

Lemma trace_onresult ev a : trace (onresult ev a) = trace a.
Proof.
  unfold onresult. destruct (isProcessingRef a); [reflexivity|].
  destruct (gather _ _ _) as [f i].
  destruct (JS.truthy (JS.trim f)), (JS.truthy (JS.trim i)); cbn;
    try destruct (silenceTimeoutRef a); reflexivity.
Qed.

Lemma emitted_onerror code a : emitted (onerror code a) = emitted a.
Proof.
  destruct code; unfold onerror;
    try (match goal with |- context [if ?b then _ else _] => destruct b end);
    rewrite ?emitted_record, ?app_nil_r; unfold emitted;
    rewrite ?trace_scheduleRestart; reflexivity.
Qed.

Lemma emitted_onend a : emitted (onend a) = emitted a.
Proof.
  unfold onend, emitted. cbn.
  destruct (_ && _); rewrite ?trace_scheduleRestart;
    destruct (silenceTimeoutRef a); reflexivity.
Qed.

(** Every text handed to [onResult] is a trimmed, non-empty one. *)
Lemma emitted_step a e :
  emitted (step a e) = emitted a
  ∨ ∃ txt, emitted (step a e) = emitted a ++ [JS.trim txt]
           ∧ JS.truthy (JS.trim txt) = true ∧ isProcessingRef a = false.
Proof.
  destruct e as [ms| |ev|code| |i|l|l]; cbn.
  - left. by destruct (bool_decide _).
  - left. by destruct (handlers a).
  - left. destruct (handlers a); [|done]. unfold emitted. by rewrite trace_onresult.
  - left. destruct (handlers a); [|done]. apply emitted_onerror.
  - left. destruct (handlers a); [|done]. apply emitted_onend.
  - destruct (filter _ (timers a)) as [|t ts]; [by left|].
    destruct (bool_decide _); [|by left].
    unfold fireTimer. destruct (body t) as [|l].
    + change (isProcessingRef (clearTimeout i a)) with (isProcessingRef a).
      change (finalTranscriptRef (clearTimeout i a)) with (finalTranscriptRef a).
      destruct (JS.truthy (JS.trim (finalTranscriptRef a))) eqn:Ht; [|by left].
      destruct (isProcessingRef a) eqn:Hp; [by left|]. cbn [negb andb].
      right. exists (JS.trim (finalTranscriptRef a)).
      unfold emitted. rewrite trace_processTranscript.
      change (isProcessingRef (clearTimeout i a)) with (isProcessingRef a).
      rewrite Hp. cbn [orb].
      assert (Hq : JS.truthy (JS.trim (JS.trim (finalTranscriptRef a))) = true).
      { rewrite truthy_trim. by rewrite (trim_not_blank _ Ht). }
      rewrite Hq. cbn [negb]. rewrite !omap_app. cbn.
      change (recognitionRef (clearTimeout i a)) with (recognitionRef a).
      split; [|done]. destruct (recognitionRef a); cbn; by rewrite ?app_nil_r.
    + left. destruct (_ && _); [|done]. by rewrite emitted_record, app_nil_r.
  - left. unfold reinstall, emitted. cbn. rewrite trace_cleanup.
    rewrite omap_app. destruct (recognitionRef a); cbn; by rewrite app_nil_r.
  - left. unfold startOrStop. destruct (_ && _).
    + by rewrite emitted_record, app_nil_r.
    + destruct (_ && _); [|done]. unfold emitted. rewrite trace_cleanup, trace_stop.
      rewrite !omap_app.
      destruct (recognitionRef (stop a)), (recognitionRef a); cbn; by rewrite ?app_nil_r.
Qed.
End AdapterFacts.

(** ** Filtering lists *)

Section ListFacts.
Context {A : Type} (P : A → Prop) `{!∀ x, Decision (P x)}.

Lemma Forall_filter_keep (Q : A → Prop) l : Forall Q l → Forall Q (filter P l).
Proof.
  rewrite !Forall_forall. intros HQ x Hx. apply HQ.
  by apply list_elem_of_filter in Hx as [_ ?].
Qed.

Lemma filter_none l : Forall (λ x, ¬ P x) l → filter P l = [].
Proof.
  induction 1 as [|x l Hx _ IH]; [done|]. by rewrite filter_cons_False.
Qed.

Lemma filter_all l : Forall P l → filter P l = l.
Proof.
  induction 1 as [|x l Hx _ IH]; [done|]. by rewrite filter_cons_True, IH.
Qed.

Lemma filter_last_only l x :
  Forall (λ y, ¬ P y) l → P x → filter P (l ++ [x]) = [x].
Proof.
  intros Hl Hx. rewrite filter_app, (filter_none l Hl). by rewrite filter_singleton_True.
Qed.
End ListFacts.

(** ** The adapter: the shape of its states *)

Section AdapterShape.
Import Recognition.

Arguments JS.trim : simpl never.
Arguments JS.truthy : simpl never.
Arguments String.append : simpl never.




(** Once the timer named by [silenceTimeoutRef] is cleared, no silence
    timer is pending. *)
Lemma no_silence_left a :
  tidy a →
  Forall (λ t, ¬ isSilence t = true)
    (timers (match silenceTimeoutRef a with
             | Some i => clearTimeout i a
             | None => a
             end)).
Proof.
  intros (_ & H2 & _). rewrite Forall_forall in H2. apply Forall_forall.
  destruct (silenceTimeoutRef a) as [i|] eqn:Hi; cbn.
  - intros t [Hne Ht]%list_elem_of_filter Hs. specialize (H2 t Ht Hs). congruence.
  - intros t Ht Hs. by specialize (H2 t Ht Hs).
Qed.

Lemma tidy_clearAllTimeouts a : tidy a → tidy (clearAllTimeouts a).
Proof.
  intros H. pose proof (no_silence_left a H) as Hn. destruct H as (H1 & H2 & H3).
  unfold clearAllTimeouts.
  set (a1 := match silenceTimeoutRef a with
             | Some i => withSilenceTimeoutRef None (clearTimeout i a)
             | None => a end).
  assert (Ha1 : tidy a1 ∧ Forall (λ t, ¬ isSilence t = true) (timers a1)).
  { subst a1. destruct (silenceTimeoutRef a) as [i|]; cbn in *.
    - split; [|exact Hn]. unfold tidy; split_and!; cbn; [by apply Forall_filter_keep| |exact H3].
      eapply Forall_impl; [exact Hn|]. cbn. tauto.
    - split; [|exact Hn]. unfold tidy; split_and!; [done| |done].
      eapply Forall_impl; [exact Hn|]. cbn. tauto. }
  destruct Ha1 as [(K1 & K2 & K3) Hs].
  destruct (restartTimeoutRef a1) as [j|]; [|by (unfold tidy; split_and!)].
  unfold tidy; split_and!; cbn; [by apply Forall_filter_keep| |exact K3].
  by apply Forall_filter_keep.
Qed.

Lemma tidy_state a a' :
  tidy a → timers a' = timers a → nextId a' = nextId a →
  silenceTimeoutRef a' = silenceTimeoutRef a →
  (handlers a' = true → recognitionRef a' = true) → tidy a'.
Proof.
  intros (H1 & H2 & H3) Ht Hn Hs Hh. unfold tidy. rewrite Ht, Hn, Hs. by (unfold tidy; split_and!).
Qed.


Ltac same_shape H :=
  eapply (tidy_state _ _ H); [reflexivity..|try (cbn; apply H)].

Lemma tidy_stop a : tidy a → tidy (stop a).
Proof. intros H. unfold stop. destruct (recognitionRef a); [|done]. same_shape H. Qed.

Lemma handlers_clearAllTimeouts a :
  handlers (clearAllTimeouts a) = handlers a
  ∧ recognitionRef (clearAllTimeouts a) = recognitionRef a.
Proof.
  unfold clearAllTimeouts.
  destruct (silenceTimeoutRef a); cbn; destruct (restartTimeoutRef a); done.
Qed.

Lemma tidy_cleanup a : tidy a → tidy (cleanup a).
Proof.
  intros H. unfold cleanup.
  set (a0 := if recognitionRef a then withHandlers true false (stop a) else a).
  assert (K : tidy (clearAllTimeouts a0)).
  { apply tidy_clearAllTimeouts. subst a0. destruct (recognitionRef a) eqn:Hr; [|done].
    pose proof (tidy_stop a H) as K. same_shape K. done. }
  same_shape K.
Qed.



End AdapterShape.

(** ** [trim] is idempotent *)

Section MoreJS.
Import JS.


End MoreJS.

(** ** The adapter: the restart timer has a name *)

Section Named.
Import Recognition.










End Named.

(** ** The adapter: the silence timer *)

Section SilenceTimer.
Import Recognition.
Arguments JS.trim : simpl never.
Arguments JS.truthy : simpl never.
Arguments String.append : simpl never.

Lemma silence_ref_none_no_timer a :
  tidy a → silenceTimeoutRef a = None →
  filter (λ t, isSilence t = true) (timers a) = [].
Proof.
  intros (_ & H2 & _) Hs. apply filter_none. eapply Forall_impl; [exact H2|].
  cbn. intros t Ht Hsil. specialize (Ht Hsil). congruence.
Qed.

Lemma silenceTimeoutRef_clearAllTimeouts a :
  silenceTimeoutRef (clearAllTimeouts a) = None.
Proof.
  unfold clearAllTimeouts.
  destruct (silenceTimeoutRef a) eqn:E; cbn; destruct (restartTimeoutRef a); cbn; done.
Qed.




Lemma filter_snoc_out {A} (P : A → Prop) `{!∀ x, Decision (P x)} (l : list A) (x : A) :
  ¬ P x → filter P (l ++ [x]) = filter P l.
Proof. intros Hx. rewrite filter_app, filter_cons_False by done. by rewrite filter_nil, app_nil_r. Qed.











(** The other events end the wait: [onend] and the clean-up of the two
    effects clear the silence timer, [onstart] empties the accumulated
    transcript. *)
Lemma other_events_end_the_wait a :
  tidy a → handlers a = true →
  filter (λ t, isSilence t = true) (timers (step a OnEnd)) = []
  ∧ finalTranscriptRef (step a OnStart) = EmptyString
  ∧ (∀ l, filter (λ t, isSilence t = true) (timers (step a (Reinstall l))) = [])
  ∧ (isRecognitionActive a = true →
     filter (λ t, isSilence t = true) (timers (step a (StartOrStop false))) = []).
Proof.
  intros Ht Hh. assert (Hr : recognitionRef a = true) by (by apply Ht).
  split_and!.
  - cbn [step]. rewrite Hh. unfold onend.
    set (a1 := withIsRecognitionActive false a).
    assert (K1 : tidy a1) by done.
    pose proof (no_silence_left a1 K1) as Hs.
    set (a2 := match silenceTimeoutRef a1 with Some i => clearTimeout i a1 | None => a1 end) in *.
    destruct (_ && _); [|by apply filter_none].
    unfold scheduleRestart. destruct (restartTimeoutRef a2); cbn.
    + rewrite filter_snoc_out by done. apply filter_none. by apply Forall_filter_keep.
    + rewrite filter_snoc_out by done. by apply filter_none.
  - cbn [step]. by rewrite Hh.
  - intros l. cbn [step]. unfold reinstall. cbn.
    apply silence_ref_none_no_timer; [by apply tidy_cleanup|].
    unfold cleanup. cbn. apply silenceTimeoutRef_clearAllTimeouts.
  - intros Ha. cbn [step]. unfold startOrStop. rewrite Hr, Ha. cbn [negb andb].
    apply silence_ref_none_no_timer; [by apply tidy_cleanup, tidy_stop|].
    unfold cleanup. cbn. apply silenceTimeoutRef_clearAllTimeouts.
Qed.
End SilenceTimer.

(** ** The adapter: results are not blank *)

Section NonBlankResults.
Import Recognition.
Arguments JS.trim : simpl never.
Arguments JS.truthy : simpl never.

Lemma processTranscript_blank txt a :
  JS.blank txt = true → processTranscript txt a = a.
Proof.
  intros Hb. unfold processTranscript. rewrite truthy_trim, Hb.
  by rewrite orb_true_r.
Qed.

Lemma emitted_latched a e :
  isProcessingRef a = true → emitted (step a e) = emitted a.
Proof.
  intros Hp. destruct (emitted_step a e) as [H|(txt & _ & _ & H)]; [done|congruence].
Qed.

Lemma emitted_run_not_blank es a :
  Forall (λ txt, JS.blank txt = false) (emitted a) →
  Forall (λ txt, JS.blank txt = false) (emitted (run es a)).
Proof.
  revert a. induction es as [|e es IH]; intros a Ha; [exact Ha|].
  cbn. apply IH. destruct (emitted_step a e) as [->|(txt & -> & Ht & _)]; [exact Ha|].
  apply Forall_app. split; [exact Ha|]. repeat constructor. by apply trim_not_blank.
Qed.

Lemma handleResponse_appends r txt w current :
  Session.currentQuestion r = Some current → Session.isInterviewEnded r = false →
  Session.responses (Session.store (Session.handleResponse r txt w))
  = Session.responses r
    ++ [Session.mkResponse (Session.id current) (Session.text current) txt
          (Session.now w) 0].
Proof.
  intros Hc He. unfold Session.handleResponse. rewrite Hc, He. by destruct w.
Qed.

(** C10.  Finalization of a transcript that trims to the empty string
    changes nothing, so nothing is handed to [onResult]; no run of the
    adapter hands [onResult] a blank text; and the response that
    [handleResponse] appends for a text the adapter handed over has that
    text, which is not blank, as its answer. *)
Theorem voice_answers_are_never_blank :
  (∀ txt a, JS.trim txt = EmptyString → processTranscript txt a = a)
  ∧ (∀ es, Forall (λ txt, JS.blank txt = false) (emitted (run es initial)))
  ∧ (∀ es txt r w current,
       txt ∈ emitted (run es initial) →
       Session.currentQuestion r = Some current →
       Session.isInterviewEnded r = false →
       ∃ x, Session.responses (Session.store (Session.handleResponse r txt w))
            = Session.responses r ++ [x]
            ∧ Session.answer x = txt
            ∧ JS.blank (Session.answer x) = false).
Proof.
  split_and!.
  - intros txt a H. apply processTranscript_blank.
    rewrite <- isEmpty_trim, H. reflexivity.
  - intros es. apply emitted_run_not_blank. constructor.
  - intros es txt r w current Ht Hc He.
    eexists. split; [by apply handleResponse_appends|]. split; [reflexivity|].
    pose proof (emitted_run_not_blank es initial (Forall_nil_2 _)) as Hall.
    rewrite Forall_forall in Hall. by apply Hall.
Qed.

(** C10, at a turn in which "hello" is heard and a question is current. *)
Lemma voice_answers_are_never_blank_witness :
  let es := [Reinstall true; StartOrStop true; OnStart; OnResult hello;
             Elapse 1500; TimerFires 0] in
  let r := Session.setCurrentQuestion (Some Session.followUp) Session.initialState in
  emitted (run es initial) = ["hello"]
  ∧ ∃ x, Session.responses (Session.store (Session.handleResponse r "hello" Session.mounted))
         = [x]
         ∧ JS.blank (Session.answer x) = false.
Proof.
  cbv zeta. split; [vm_compute; reflexivity|].
  destruct voice_answers_are_never_blank as (_ & _ & H).
  destruct (H [Reinstall true; StartOrStop true; OnStart; OnResult hello;
               Elapse 1500; TimerFires 0] "hello"
              (Session.setCurrentQuestion (Some Session.followUp) Session.initialState)
              Session.mounted Session.followUp) as (x & H1 & _ & H3).
  - vm_compute. left.
  - reflexivity.
  - reflexivity.
  - exists x. split; [exact H1|exact H3].
Defined.


(** When the recogniser ends before the silence timer is due, [onend]
    clears the timer; the restart that follows resets the accumulated
    transcript, and nothing is handed to [onResult]. *)
Lemma recogniser_end_drops_the_transcript :
  let a := run (take 6 endsEarly) initial in
  finalTranscriptRef a = "hello "
  ∧ filter (λ t, isSilence t = true) (timers a) = []
  ∧ finalTranscriptRef (run endsEarly initial) = EmptyString
  ∧ emitted (run endsEarly initial) = [].
Proof. vm_compute. by split_and!. Qed.
End NonBlankResults.

(** ** The session: looking up the item that was added last *)

Section Lookup.
Context {A : Type} (key : A → nat).

Lemma filter_key_last l x :
  Forall (λ y, (key y < key x)%nat) l →
  filter (λ y, key y = key x) (l ++ [x]) = [x]
  ∧ filter (λ y, key y ≠ key x) (l ++ [x]) = l.
Proof.
  intros H. split.
  - apply filter_last_only; [|done]. eapply Forall_impl; [exact H|]. cbn. lia.
  - rewrite filter_app, filter_singleton_False by auto.
    rewrite app_nil_r. apply filter_all. eapply Forall_impl; [exact H|]. cbn. lia.
Qed.
End Lookup.

Tactic Notation "unwrap" :=
lazy beta iota zeta delta
  [Session.record Session.withStore Session.withStreamRef Session.withSpeechSynthRef
   Session.withTimeoutsRef Session.withOnResultOf Session.withNow Session.withNextId
   Session.withTimers Session.withUtterances Session.withFetches
   Session.withMediaRequests Session.withTracks
   Session.store Session.streamRef Session.speechSynthRef Session.timeoutsRef
   Session.onResultOf Session.now Session.nextId Session.timers Session.utterances
   Session.fetches Session.mediaRequests Session.tracks Session.trace
   Session.setTimeout Session.clearTimeout Session.speechSynthesisCancel
   Session.speechSynthesisSpeak Session.fetch Session.createTimeout
   Session.clearAllTimeouts Session.getUserMedia Session.setTrackEnabled];
cbn [Session.timerId Session.due Session.body Session.utteranceId
     Session.utteranceText Session.owner Session.onComplete Session.attached
     Session.cancelled Session.fetchId Session.continuation Session.requestId
     Session.requester Session.constraints].
Tactic Notation "unwrap" "in" hyp(H) :=
lazy beta iota zeta delta
  [Session.record Session.withStore Session.withStreamRef Session.withSpeechSynthRef
   Session.withTimeoutsRef Session.withOnResultOf Session.withNow Session.withNextId
   Session.withTimers Session.withUtterances Session.withFetches
   Session.withMediaRequests Session.withTracks
   Session.store Session.streamRef Session.speechSynthRef Session.timeoutsRef
   Session.onResultOf Session.now Session.nextId Session.timers Session.utterances
   Session.fetches Session.mediaRequests Session.tracks Session.trace
   Session.setTimeout Session.clearTimeout Session.speechSynthesisCancel
   Session.speechSynthesisSpeak Session.fetch Session.createTimeout
   Session.clearAllTimeouts Session.getUserMedia Session.setTrackEnabled] in H;
cbn [Session.timerId Session.due Session.body Session.utteranceId
     Session.utteranceText Session.owner Session.onComplete Session.attached
     Session.cancelled Session.fetchId Session.continuation Session.requestId
     Session.requester Session.constraints] in H.

(** ** The session: guards, batches and [speakQuestion] *)

Section SessionBasics.
Import Session.

(** The condition of [markAsked] spelled as in the source. *)
Lemma markAsked_spelled_out current q :
  markAsked current q
  = if decide (id q = id current)
    then mkQuestion (id q) (text q) (category q) true
    else q.
Proof. unfold markAsked. destruct q. by case_decide. Qed.

(** The guards of [handleResponse] and [handleManualNext]. *)
Lemma handleResponse_guard r w :
  currentQuestion r = None ∨ isInterviewEnded r = true →
  (∀ ans, handleResponse r ans w = w) ∧ handleManualNext r w = w.
Proof.
  intros H. unfold handleManualNext, handleResponse.
  destruct (currentQuestion r); [|done].
  destruct H as [H|H]; [done|]. by rewrite H.
Qed.

(** *** Replies *)
Lemma batchFor_nonempty phase reply :
  ∃ q qs, batchFor phase reply = q :: qs.
Proof.
  unfold batchFor, batchOf.
  destruct (received reply) as [data|]; cbn; [|destruct phase; cbn; eauto].
  unfold usableBatch. destruct (bodyQuestions data) as [[|q qs]|]; cbn; eauto;
    destruct phase; cbn; eauto.
Qed.

Lemma generateQuestionsForPhase_resume_batchFor r phase reply w :
  generateQuestionsForPhase_resume r phase reply w
  = withStore (setIsLoading false) (installFirstBatch r phase (batchFor phase reply) w).
Proof.
  unfold generateQuestionsForPhase_resume, batchFor, batchOf.
  destruct (received reply) as [data|]; cbn; [|done].
  by destruct (usableBatch data).
Qed.

Lemma speakQuestion_live r txt k w :
  isInterviewEnded r = false →
  speakQuestion r txt k w
  = mkWorld (setAiSpeaking true (store w)) (streamRef w) (Some (nextId w))
      (timeoutsRef w) (onResultOf w) (now w) (S (nextId w)) (timers w)
      ((cancelUtterance <$> utterances w) ++ [mkUtterance (nextId w) txt r k true false])
      (fetches w) (mediaRequests w) (tracks w)
      (trace w ++ [CancelledSpeech; Spoke txt]).
Proof.
  intros H. unfold speakQuestion. rewrite H. destruct w. unwrap.
  by rewrite <- app_assoc.
Qed.

Lemma moveToPhase_resume_batchFor r next reply w :
  isInterviewEnded r = false →
  moveToPhase_resume r next reply w
  = speakQuestion r (transitionMessage next)
      (Some (OcFirstQuestion r (batchFor next reply)))
      (record (Installed (batchFor next reply))
         (withStore (λ s, setIsLoading false
                            (setCurrentQuestion (batchFor next reply !! 0%nat)
                               (setQuestions (batchFor next reply) s))) w)).
Proof.
  intros H. unfold moveToPhase_resume, batchFor, batchOf.
  destruct (received reply) as [data|];
    [change (Some data ≫= usableBatch) with (usableBatch data);
     destruct (usableBatch data)|];
    rewrite !speakQuestion_live by exact H;
    destruct w as [[]]; unwrap; reflexivity.
Qed.
End SessionBasics.

(** ** The session: events that run one closure *)

Section PhaseTransition.
Import Session.

Lemma handle_TimerFires w i t :
  filter (λ t, timerId t = i) (timers w) = [t] → (due t ≤ now w)%Z →
  handle (TimerFires i) w = fireTimer t (clearTimeout i w).
Proof. intros H1 H2. unfold handle. by rewrite H1, bool_decide_true. Qed.

Lemma handle_utterance_settles w i u e :
  e = UtteranceEnds i ∨ e = UtteranceFails i →
  filter (λ u, utteranceId u = i) (utterances w) = [u] →
  cancelled u = false → attached u = true →
  handle e w
  = utteranceSettled u (withUtterances (filter (λ u, utteranceId u ≠ i) (utterances w)) w).
Proof. intros [->| ->] H1 H2 H3; unfold handle; by rewrite H1, ?H2, H3. Qed.

Lemma handle_FetchReplies w i f reply :
  filter (λ f, fetchId f = i) (fetches w) = [f] →
  handle (FetchReplies i reply) w
  = resume (continuation f) reply
      (withFetches (filter (λ f, fetchId f ≠ i) (fetches w)) w).
Proof. intros H1. unfold handle. by rewrite H1. Qed.

Lemma commit_same w w' :
  isListening (store w) = isListening (store w') → commit w w' = w'.
Proof. intros H. unfold commit. by rewrite bool_decide_true. Qed.

Lemma determineNextStep_atBudget r counts allResponses next w :
  isInterviewEnded r = false → atBudget r counts next →
  determineNextStep r counts allResponses w = moveToPhase r next w.
Proof.
  intros He [(Hp & Hc & ->)|(Hp & Hc & ->)]; unfold determineNextStep;
    rewrite He, Hp; cbn in Hc; by rewrite bool_decide_false by lia.
Qed.

End PhaseTransition.

Import Session.

(** ** The session: playing schedules *)

Section Schedules.
Lemma play_app cs1 cs2 w : play (cs1 ++ cs2) w = play cs2 (play cs1 w).
Proof. revert w. induction cs1 as [|c cs1 IH]; intros w; [done|]. cbn. apply IH. Qed.

Lemma play_script cs w : play cs w = run (script cs w) w.
Proof.
  revert w. induction cs as [|c cs IH]; intros w; [done|].
  cbn [play script]. unfold run. rewrite foldl_app. apply IH.
Qed.

Lemma play_Answer_first w f fs r phase reply cs :
  fetches w = f :: fs →
  continuation f = KGenerateQuestionsForPhase r phase →
  filter (λ g, fetchId g = fetchId f) (fetches w) = [f] →
  play (Answer reply :: cs) w
  = play cs (commit w (withStore (setIsLoading false)
               (installFirstBatch r phase (batchFor phase reply)
                  (withFetches (filter (λ g, fetchId g ≠ fetchId f) (fetches w)) w)))).
Proof.
  intros H1 H2 H3.
  change (play (Answer reply :: cs) w) with (play cs (run (cue (Answer reply) w) w)).
  replace (cue (Answer reply) w) with [FetchReplies (fetchId f) reply]
    by (cbn; by rewrite H1).
  unfold run. cbn [foldl]. unfold step.
  rewrite (handle_FetchReplies w (fetchId f) f reply H3), H2. cbn [resume].
  by rewrite generateQuestionsForPhase_resume_batchFor.
Qed.
End Schedules.

(** ** The session: every question is skipped *)

Section SkipEverything.
Lemma play_Answer_transition w f fs r next reply cs :
  fetches w = f :: fs →
  continuation f = KTransition r next →
  isInterviewEnded r = false →
  filter (λ g, fetchId g = fetchId f) (fetches w) = [f] →
  play (Answer reply :: cs) w
  = play cs (commit w
      (speakQuestion r (transitionMessage next)
         (Some (OcFirstQuestion r (batchFor next reply)))
         (record (Installed (batchFor next reply))
            (withStore (λ s, setIsLoading false
                               (setCurrentQuestion (batchFor next reply !! 0%nat)
                                  (setQuestions (batchFor next reply) s)))
               (withFetches (filter (λ g, fetchId g ≠ fetchId f) (fetches w)) w))))).
Proof.
  intros H1 H2 He H3.
  change (play (Answer reply :: cs) w) with (play cs (run (cue (Answer reply) w) w)).
  replace (cue (Answer reply) w) with [FetchReplies (fetchId f) reply]
    by (cbn; by rewrite H1).
  unfold run. cbn [foldl]. unfold step.
  rewrite (handle_FetchReplies w (fetchId f) f reply H3), H2. cbn [resume].
  by rewrite moveToPhase_resume_batchFor.
Qed.

Lemma proper_introduction batch :
  proper KeyIntroduction batch →
  ∃ i1 t1 a1 i2 t2 a2 i3 t3 a3 rest,
    batch = mkQuestion i1 t1 Introduction a1 :: mkQuestion i2 t2 Introduction a2
            :: mkQuestion i3 t3 Introduction a3 :: rest.
Proof.
  intros [Hl Hc]. destruct batch as [|[i1 t1 c1 a1] [|[i2 t2 c2 a2] [|[i3 t3 c3 a3] rest]]];
    cbn in Hl; try lia.
  cbn in Hc. repeat (apply Forall_cons in Hc as [? Hc]). cbn in *. subst.
  by repeat eexists.
Qed.

Lemma proper_technical batch :
  proper KeyTechnical batch →
  ∃ i1 t1 a1 i2 t2 a2 i3 t3 a3 i4 t4 a4 i5 t5 a5 rest,
    batch = mkQuestion i1 t1 Technical a1 :: mkQuestion i2 t2 Technical a2
            :: mkQuestion i3 t3 Technical a3 :: mkQuestion i4 t4 Technical a4
            :: mkQuestion i5 t5 Technical a5 :: rest.
Proof.
  intros [Hl Hc].
  destruct batch as [|[i1 t1 c1 a1] [|[i2 t2 c2 a2] [|[i3 t3 c3 a3]
                     [|[i4 t4 c4 a4] [|[i5 t5 c5 a5] rest]]]]];
    cbn in Hl; try lia.
  cbn in Hc. repeat (apply Forall_cons in Hc as [? Hc]). cbn in *. subst.
  by repeat eexists.
Qed.

Lemma proper_behavioral batch :
  proper KeyBehavioral batch →
  ∃ i1 t1 a1 i2 t2 a2 i3 t3 a3 i4 t4 a4 rest,
    batch = mkQuestion i1 t1 Behavioral a1 :: mkQuestion i2 t2 Behavioral a2
            :: mkQuestion i3 t3 Behavioral a3 :: mkQuestion i4 t4 Behavioral a4 :: rest.
Proof.
  intros [Hl Hc].
  destruct batch as [|[i1 t1 c1 a1] [|[i2 t2 c2 a2] [|[i3 t3 c3 a3]
                     [|[i4 t4 c4 a4] rest]]]];
    cbn in Hl; try lia.
  cbn in Hc. repeat (apply Forall_cons in Hc as [? Hc]). cbn in *. subst.
  by repeat eexists.
Qed.

Lemma failed_proper phase reply : failed reply → proper phase (batchFor phase reply).
Proof.
  intros H. unfold batchFor. rewrite H. cbn.
  destruct phase; (split; [cbn; lia|repeat constructor]).
Qed.

Lemma script_app cs1 cs2 w : script (cs1 ++ cs2) w = script cs1 w ++ script cs2 (play cs1 w).
Proof.
  revert w. induction cs1 as [|c cs1 IH]; intros w; [done|].
  cbn [app script play]. by rewrite IH, app_assoc.
Qed.

Lemma script_cons c cs w : script (c :: cs) w = cue c w ++ script cs (play [c] w).
Proof. reflexivity. Qed.

Lemma skipEverything_script r1 r2 r3 :
  proper KeyIntroduction (batchFor KeyIntroduction r1) →
  proper KeyTechnical (batchFor KeyTechnical r2) →
  proper KeyBehavioral (batchFor KeyBehavioral r3) →
  script (skipEverything r1 r2 r3) mounted = skipsEverything r1 r2 r3.
Proof.
  intros (i1 & t1 & a1 & i2 & t2 & a2 & i3 & t3 & a3 & rest1 & E1)%proper_introduction
         (j1 & u1 & b1 & j2 & u2 & b2 & j3 & u3 & b3 & j4 & u4 & b4 & j5 & u5 & b5 & rest2 & E2)%proper_technical
         (k1 & v1 & c1 & k2 & v2 & c2 & k3 & v3 & c3 & k4 & v4 & c4 & rest3 & E3)%proper_behavioral.
  unfold skipEverything. rewrite !script_app.
  rewrite !(script_cons (Answer _)).
  erewrite !(play_Answer_first (play opening _)); [|vm_compute; reflexivity..].
  rewrite E1.
  erewrite !(play_Answer_transition (play (skipPhase 3) _)); [|vm_compute; reflexivity..].
  rewrite E2.
  erewrite !(play_Answer_transition (play (skipPhase 5) _)); [|vm_compute; reflexivity..].
  rewrite E3.
  vm_compute. reflexivity.
Qed.
(** C8.  In the session [skipsEverything], in which Skip is clicked once
    on each question, after it has been spoken to its end, and each of the
    three batches in use (received or fallback) covers the budget of its
    phase with questions of the category of the phase: the feedback
    phase is reached; the log holds twelve responses, one for each of the
    first three introduction, five technical and four behavioral questions
    of the batches, in that order, with the id and the text of the question
    and the answer "User skipped this question"; the counters stand at 3, 5
    and 4; and the texts spoken are the instructions, the three
    introduction questions, the announcement of the technical phase, the
    five technical questions, the announcement of the behavioral phase, the
    four behavioral questions and the closing words, each once. *)
Theorem skipping_every_question r1 r2 r3 :
  proper KeyIntroduction (batchFor KeyIntroduction r1) →
  proper KeyTechnical (batchFor KeyTechnical r2) →
  proper KeyBehavioral (batchFor KeyBehavioral r3) →
  let w := run (skipsEverything r1 r2 r3) mounted in
  let asked := asked_of KeyIntroduction r1 ++ asked_of KeyTechnical r2
               ++ asked_of KeyBehavioral r3 in
  interviewPhase (store w) = PhaseFeedback
  ∧ length (responses (store w)) = 12%nat
  ∧ logged <$> responses (store w) = (λ q, (id q, text q, skipped)) <$> asked
  ∧ Forall (λ x, answer x = skipped) (responses (store w))
  ∧ questionCounts (store w) = mkCounts 3 5 4
  ∧ spoken w
    = [instruction] ++ (text <$> asked_of KeyIntroduction r1)
      ++ [transitionMessage KeyTechnical] ++ (text <$> asked_of KeyTechnical r2)
      ++ [transitionMessage KeyBehavioral] ++ (text <$> asked_of KeyBehavioral r3)
      ++ [thankYouMessage].
Proof.
  intros P1 P2 P3. rewrite <- (skipEverything_script r1 r2 r3 P1 P2 P3), <- play_script.
  revert P1 P2 P3.
  intros (i1 & t1 & a1 & i2 & t2 & a2 & i3 & t3 & a3 & rest1 & E1)%proper_introduction
         (j1 & u1 & b1 & j2 & u2 & b2 & j3 & u3 & b3 & j4 & u4 & b4 & j5 & u5 & b5 & rest2 & E2)%proper_technical
         (k1 & v1 & c1 & k2 & v2 & c2 & k3 & v3 & c3 & k4 & v4 & c4 & rest3 & E3)%proper_behavioral.
  unfold skipEverything, asked_of. rewrite !play_app.
  erewrite (play_Answer_first (play opening _)); [|vm_compute; reflexivity..].
  rewrite E1.
  erewrite (play_Answer_transition (play (skipPhase 3) _)); [|vm_compute; reflexivity..].
  rewrite E2.
  erewrite (play_Answer_transition (play (skipPhase 5) _)); [|vm_compute; reflexivity..].
  rewrite E3.
  vm_compute. split_and!; [reflexivity..|repeat constructor|reflexivity|reflexivity].
Qed.

(** C8, with the three fetches failing: the questions are the twelve of
    the fallback table. *)
Lemma skipping_every_question_witness :
  let w := run (skipsEverything NetworkError NetworkError NetworkError) mounted in
  interviewPhase (store w) = PhaseFeedback
  ∧ questionId <$> responses (store w) = [1; 2; 3; 4; 5; 6; 7; 8; 9; 10; 11; 12]%Z.
Proof.
  pose proof (skipping_every_question NetworkError NetworkError NetworkError
                (failed_proper KeyIntroduction NetworkError eq_refl)
                (failed_proper KeyTechnical NetworkError eq_refl)
                (failed_proper KeyBehavioral NetworkError eq_refl)) as (H1 & _ & H3 & _).
  cbv zeta. split; [exact H1|].
  apply (f_equal (fmap (λ x, x.1.1))) in H3. rewrite <- !list_fmap_compose in H3.
  etrans; [exact H3|]. vm_compute. reflexivity.
Defined.
End SkipEverything.

(** ** The session: stopping the tracks of a stream *)

Section StoppedTracks.

Lemma foldl_stopTrack stream w :
  foldl stopTrack w stream
  = mkWorld (store w) (streamRef w) (speechSynthRef w) (timeoutsRef w) (onResultOf w)
      (now w) (nextId w) (timers w) (utterances w) (fetches w) (mediaRequests w)
      (foldl (λ ts i, halt i <$> ts) (tracks w) stream)
      (trace w ++ (StoppedTrack <$> stream)).
Proof.
  revert w. induction stream as [|i stream IH]; intros w.
  - cbn. rewrite app_nil_r. by destruct w.
  - cbn [foldl]. rewrite IH. unfold stopTrack. cbn. by rewrite <- app_assoc.
Qed.

Lemma trackId_halt i t : trackId (halt i t) = trackId t.
Proof. unfold halt. by destruct (decide _). Qed.

Lemma Forall_trackId_halted (P : nat → Prop) stream ts :
  Forall (λ t, P (trackId t)) ts →
  Forall (λ t, P (trackId t)) (foldl (λ ts i, halt i <$> ts) ts stream).
Proof.
  revert ts. induction stream as [|i stream IH]; intros ts H; [done|].
  cbn. apply IH. apply Forall_fmap. eapply Forall_impl; [exact H|].
  intros t. cbn. by rewrite trackId_halt.
Qed.

End StoppedTracks.

(** ** The session: ids are fresh *)

Section FreshIds.

(** A world built from [w] by adding items numbered from [nextId w] and
    dropping or relabelling others stays fresh. *)
Lemma fresh_intro w n tms uts fts mrs tks st sr ssr tor oro nw trc :
  fresh w → (nextId w ≤ n)%nat →
  Forall (λ t, (timerId t < n)%nat) tms →
  Forall (λ u, (utteranceId u < n)%nat) uts →
  Forall (λ f, (fetchId f < n)%nat) fts →
  Forall (λ q, (requestId q < n)%nat) mrs →
  Forall (λ t, (trackId t < n)%nat) tks →
  fresh (mkWorld st sr ssr tor oro nw n tms uts fts mrs tks trc).
Proof. intros _ _ ? ? ? ? ?. by unfold fresh. Qed.

Lemma Forall_lt_weaken {A} (key : A → nat) n m l :
  Forall (λ x, (key x < n)%nat) l → (n ≤ m)%nat → Forall (λ x, (key x < m)%nat) l.
Proof. intros H Hn. eapply Forall_impl; [exact H|]. cbn. lia. Qed.

Lemma utteranceId_cancelUtterance u : utteranceId (cancelUtterance u) = utteranceId u.
Proof. reflexivity. Qed.

Lemma utteranceId_detachHandlers i u : utteranceId (detachHandlers i u) = utteranceId u.
Proof. unfold detachHandlers. by destruct (decide _). Qed.

Ltac bounded :=
  repeat first
    [ assumption
    | match goal with
      | |- Forall _ [] => apply Forall_nil_2
      | |- Forall _ (_ ++ _) => apply Forall_app; split
      | |- Forall _ (_ :: _) => apply Forall_cons; split
      | |- Forall _ (filter _ _) => apply Forall_filter_keep
      | |- Forall _ (_ <$> _) => apply Forall_fmap
      | |- Forall (λ t, (trackId t < ?n)%nat) (foldl _ _ _) =>
          apply (Forall_trackId_halted (λ i, (i < n)%nat))
      | |- Forall _ _ =>
          eapply Forall_impl; [eassumption|]; cbn;
          intros; rewrite ?utteranceId_detachHandlers, ?trackId_halt; cbn; lia
      | |- (_ < _)%nat => cbn; lia
      end ].

Ltac fresh_world H :=
  let Ht := fresh "Ht" in let Hu := fresh "Hu" in let Hf := fresh "Hf" in
  let Hq := fresh "Hq" in let Hk := fresh "Hk" in
  match type of H with
  | Session.fresh ?w => destruct w
  end;
  destruct H as (Ht & Hu & Hf & Hq & Hk);
  unwrap in Ht; unwrap in Hu; unwrap in Hf; unwrap in Hq; unwrap in Hk;
  unfold Session.fresh; unwrap; split_and!; bounded.

Lemma fresh_withStore f w : fresh w → fresh (withStore f w).
Proof. done. Qed.
Lemma fresh_record a w : fresh w → fresh (record a w).
Proof. done. Qed.
Lemma fresh_withOnResultOf s w : fresh w → fresh (withOnResultOf s w).
Proof. done. Qed.
Lemma fresh_withNow v w : fresh w → fresh (withNow v w).
Proof. done. Qed.
Lemma fresh_withTimeoutsRef v w : fresh w → fresh (withTimeoutsRef v w).
Proof. done. Qed.
Lemma fresh_withStreamRef v w : fresh w → fresh (withStreamRef v w).
Proof. done. Qed.

Lemma fresh_setTimeout b d w : fresh w → fresh (setTimeout b d w).
Proof. intros H. fresh_world H. Qed.

Lemma fresh_clearTimeout i w : fresh w → fresh (clearTimeout i w).
Proof. intros H. fresh_world H. Qed.

Lemma fresh_createTimeout r cb d w : fresh w → fresh (createTimeout r cb d w).
Proof. intros H. fresh_world H. Qed.

Lemma fresh_clearAllTimeouts w : fresh w → fresh (clearAllTimeouts w).
Proof. intros H. fresh_world H. Qed.

Lemma fresh_speechSynthesisCancel w : fresh w → fresh (speechSynthesisCancel w).
Proof. intros H. fresh_world H. Qed.

Lemma fresh_fetch k w : fresh w → fresh (fetch k w).
Proof. intros H. fresh_world H. Qed.

Lemma fresh_getUserMedia r c w : fresh w → fresh (getUserMedia r c w).
Proof. intros H. fresh_world H. Qed.

Lemma fresh_stopAll stream w : fresh w → fresh (foldl stopTrack w stream).
Proof. intros H. rewrite foldl_stopTrack. fresh_world H. Qed.

Lemma fresh_setTrackEnabled i v w : fresh w → fresh (setTrackEnabled i v w).
Proof.
  intros (Ht & Hu & Hf & Hq & Hk). unfold setTrackEnabled, fresh.
  split_and!; try assumption.
  change (tracks (withTracks ?x w)) with x. change (nextId (withTracks ?x w)) with (nextId w).
  apply Forall_fmap. eapply Forall_impl; [exact Hk|].
  intros t Hlt. unfold compose. by destruct (decide _).
Qed.

Lemma fresh_speakQuestion r txt k w : fresh w → fresh (speakQuestion r txt k w).
Proof.
  intros H. destruct (isInterviewEnded r) eqn:He.
  - unfold speakQuestion. by rewrite He.
  - rewrite speakQuestion_live by exact He. fresh_world H.
Qed.

Create HintDb fresh discriminated.
Hint Resolve fresh_withStore fresh_record fresh_withOnResultOf fresh_withNow
  fresh_withTimeoutsRef fresh_withStreamRef fresh_setTimeout fresh_clearTimeout
  fresh_createTimeout fresh_clearAllTimeouts fresh_speechSynthesisCancel fresh_fetch
  fresh_getUserMedia fresh_stopAll fresh_setTrackEnabled fresh_speakQuestion : fresh.

Ltac fresh_through :=
  intros; repeat case_match; eauto 20 with fresh.

Lemma fresh_generateQuestionsForPhase r k w :
  fresh w → fresh (generateQuestionsForPhase r k w).
Proof. unfold generateQuestionsForPhase. fresh_through. Qed.
Lemma fresh_installFirstBatch r k b w : fresh w → fresh (installFirstBatch r k b w).
Proof. unfold installFirstBatch. fresh_through. Qed.
Hint Resolve fresh_generateQuestionsForPhase fresh_installFirstBatch : fresh.
Lemma fresh_generateQuestionsForPhase_resume r k reply w :
  fresh w → fresh (generateQuestionsForPhase_resume r k reply w).
Proof. unfold generateQuestionsForPhase_resume. fresh_through. Qed.
Lemma fresh_generateNextQuestionInPhase r k a w :
  fresh w → fresh (generateNextQuestionInPhase r k a w).
Proof. unfold generateNextQuestionInPhase. fresh_through. Qed.
Lemma fresh_generateNextQuestionInPhase_resume r k reply w :
  fresh w → fresh (generateNextQuestionInPhase_resume r k reply w).
Proof. unfold generateNextQuestionInPhase_resume. fresh_through. Qed.
Lemma fresh_endInterview r w : fresh w → fresh (endInterview r w).
Proof. unfold endInterview. fresh_through. Qed.
Hint Resolve fresh_generateQuestionsForPhase_resume fresh_generateNextQuestionInPhase
  fresh_generateNextQuestionInPhase_resume fresh_endInterview : fresh.
Lemma fresh_askNextInPhase r k a w : fresh w → fresh (askNextInPhase r k a w).
Proof. unfold askNextInPhase. fresh_through. Qed.
Lemma fresh_moveToPhase r k w : fresh w → fresh (moveToPhase r k w).
Proof. unfold moveToPhase. fresh_through. Qed.
Lemma fresh_moveToPhase_resume r k reply w :
  fresh w → fresh (moveToPhase_resume r k reply w).
Proof. unfold moveToPhase_resume. fresh_through. Qed.
Hint Resolve fresh_askNextInPhase fresh_moveToPhase fresh_moveToPhase_resume : fresh.
Lemma fresh_determineNextStep r c a w : fresh w → fresh (determineNextStep r c a w).
Proof. unfold determineNextStep. fresh_through. Qed.
Lemma fresh_handleResponse r ans w : fresh w → fresh (handleResponse r ans w).
Proof. unfold handleResponse. fresh_through. Qed.
Hint Resolve fresh_determineNextStep fresh_handleResponse : fresh.
Lemma fresh_handleManualNext r w : fresh w → fresh (handleManualNext r w).
Proof. unfold handleManualNext. fresh_through. Qed.
Lemma fresh_startInterview r w : fresh w → fresh (startInterview r w).
Proof. unfold startInterview, giveVoiceInstructions. fresh_through. Qed.
Lemma fresh_detach i w :
  fresh w → fresh (withUtterances (detachHandlers i <$> utterances w) w).
Proof. intros H. fresh_world H. Qed.
Hint Resolve fresh_detach : fresh.
Lemma fresh_handleEndInterview w : fresh w → fresh (handleEndInterview w).
Proof. unfold handleEndInterview. fresh_through. Qed.
Lemma fresh_toggleCamera r w : fresh w → fresh (toggleCamera r w).
Proof. unfold toggleCamera. fresh_through. Qed.
Lemma fresh_toggleMic r w : fresh w → fresh (toggleMic r w).
Proof. unfold toggleMic. fresh_through. Qed.
Lemma fresh_onRestart w : fresh w → fresh (onRestart w).
Proof. unfold onRestart. fresh_through. Qed.
Lemma fresh_initializeCamera r w : fresh w → fresh (initializeCamera r w).
Proof. unfold initializeCamera. fresh_through. Qed.
Lemma trackId_newTracks i kinds :
  Forall (λ t, (trackId t < i + length kinds)%nat) (newTracks i kinds).
Proof.
  revert i. induction kinds as [|k kinds IH]; intros i; [constructor|].
  cbn. constructor; [cbn; lia|]. eapply Forall_impl; [apply IH|]. cbn. lia.
Qed.
Lemma fresh_granted kinds w :
  fresh w →
  fresh (withStreamRef (Some (trackId <$> newTracks (nextId w) kinds))
           (withNextId (nextId w + length kinds)
              (withTracks (tracks w ++ newTracks (nextId w) kinds) w))).
Proof.
  intros (Ht & Hu & Hf & Hq & Hk). unfold fresh. destruct w. unwrap.
  unwrap in Ht; unwrap in Hu; unwrap in Hf; unwrap in Hq; unwrap in Hk.
  split_and!; try (eapply Forall_lt_weaken; [eassumption|lia]).
  apply Forall_app. split; [eapply Forall_lt_weaken; [eassumption|lia]|].
  apply trackId_newTracks.
Qed.
Hint Resolve fresh_granted fresh_initializeCamera : fresh.
Lemma fresh_initializeCamera_resume q reply w :
  fresh w → fresh (initializeCamera_resume q reply w).
Proof.
  intros H. unfold initializeCamera_resume. destruct reply as [kinds|e].
  - apply fresh_withStore. exact (fresh_granted kinds w H).
  - repeat case_match; eauto 20 with fresh.
Qed.
Lemma fresh_requestCameraPermission r w : fresh w → fresh (requestCameraPermission r w).
Proof. unfold requestCameraPermission. fresh_through. Qed.
Lemma fresh_runCallback cb w : fresh w → fresh (runCallback cb w).
Proof. unfold runCallback. fresh_through. Qed.
Lemma fresh_runOnComplete k w : fresh w → fresh (runOnComplete k w).
Proof. unfold runOnComplete. fresh_through. Qed.
Hint Resolve fresh_runCallback fresh_runOnComplete fresh_handleManualNext
  fresh_startInterview fresh_handleEndInterview fresh_toggleCamera fresh_toggleMic
  fresh_onRestart fresh_initializeCamera_resume fresh_requestCameraPermission : fresh.
Lemma fresh_utteranceSettled u w : fresh w → fresh (utteranceSettled u w).
Proof. unfold utteranceSettled. fresh_through. Qed.
Lemma fresh_fireTimer t w : fresh w → fresh (fireTimer t w).
Proof. unfold fireTimer. fresh_through. Qed.
Lemma fresh_resume k reply w : fresh w → fresh (resume k reply w).
Proof. unfold resume. fresh_through. Qed.
Lemma fresh_fewer w
    (P1 : Utterance → Prop) `{!∀ x, Decision (P1 x)}
    (P2 : Fetch → Prop) `{!∀ x, Decision (P2 x)}
    (P3 : MediaRequest → Prop) `{!∀ x, Decision (P3 x)} :
  fresh w →
  fresh (withUtterances (filter P1 (utterances w)) w)
  ∧ fresh (withFetches (filter P2 (fetches w)) w)
  ∧ fresh (withMediaRequests (filter P3 (mediaRequests w)) w).
Proof.
  intros (Ht & Hu & Hf & Hq & Hk). unfold fresh.
  split_and!; try assumption; by apply Forall_filter_keep.
Qed.
Hint Resolve fresh_utteranceSettled fresh_fireTimer fresh_resume : fresh.

Lemma fresh_handle e w : fresh w → fresh (handle e w).
Proof.
  intros H. destruct e; unfold handle; repeat case_match; eauto 20 with fresh.
  - apply fresh_utteranceSettled. by eapply (fresh_fewer w _ (λ _, True) (λ _, True)).
  - by eapply (fresh_fewer w _ (λ _, True) (λ _, True)).
  - apply fresh_utteranceSettled. by eapply (fresh_fewer w _ (λ _, True) (λ _, True)).
  - by eapply (fresh_fewer w _ (λ _, True) (λ _, True)).
  - apply fresh_resume. by eapply (fresh_fewer w (λ _, True) _ (λ _, True)).
  - apply fresh_initializeCamera_resume.
    by eapply (fresh_fewer w (λ _, True) (λ _, True) _).
Qed.

Lemma fresh_step w e : fresh w → fresh (step w e).
Proof.
  intros H. unfold step, commit. case_match; [by apply fresh_handle|].
  by apply fresh_withOnResultOf, fresh_handle.
Qed.

Lemma fresh_mounted : fresh mounted.
Proof. unfold fresh. cbn. split_and!; repeat constructor. Qed.

Lemma fresh_run es w : fresh w → fresh (run es w).
Proof.
  revert w. induction es as [|e es IH]; intros w H; [done|].
  cbn. by apply IH, fresh_step.
Qed.

Lemma reachable_fresh w : reachable w → fresh w.
Proof. intros [es ->]. apply fresh_run, fresh_mounted. Qed.
End FreshIds.

(** ** The session: changes that say nothing *)

Section Quietly.

Lemma quietly_refl w : quietly w w.
Proof. unfold quietly. split_and!; auto. Qed.

Lemma quietly_trans w1 w2 w3 : quietly w1 w2 → quietly w2 w3 → quietly w1 w3.
Proof.
  intros (A1 & A2 & A3 & A4 & A5 & A6 & A7) (B1 & B2 & B3 & B4 & B5 & B6 & B7).
  unfold quietly. split_and!; try congruence; [lia|auto|].
  intros P HP Hnew. apply B7; [by apply A7|].
  intros x Hx Hid. apply Hnew; [done|lia].
Qed.

(** Changes that touch neither the timers nor the utterances. *)
Lemma quietly_fields w w' :
  course w' = course w → fetches w' = fetches w → (nextId w ≤ nextId w')%nat →
  utterances w' = utterances w → timers w' = timers w → quietly w w'.
Proof.
  intros H1 H2 H3 H4 H5. unfold quietly, loudUtterances, loudTimers.
  rewrite H4, H5. split_and!; auto.
Qed.

Lemma filter_filter_stays {A} (P Q : A → Prop) `{!∀ x, Decision (P x)} `{!∀ x, Decision (Q x)}
    (l : list A) :
  Forall (λ x, P x → Q x) l → filter P (filter Q l) = filter P l.
Proof.
  induction 1 as [|x l Hx _ IH]; [done|].
  destruct (decide (Q x)) as [HQ|HQ].
  - rewrite (filter_cons_True Q) by done.
    destruct (decide (P x)); [rewrite !(filter_cons_True P) by done|
                              rewrite !(filter_cons_False P) by done]; by rewrite IH.
  - rewrite (filter_cons_False Q) by done. rewrite IH.
    rewrite (filter_cons_False P); [done|]. intros HP. by apply HQ, Hx.
Qed.

Lemma course_record a w :
  course (record a w) = course w ++ (if audible a then [a] else []).
Proof.
  unfold course. change (trace (record a w)) with (trace w ++ [a]).
  rewrite filter_app. f_equal. destruct (audible a) eqn:E.
  - by rewrite filter_cons_True.
  - rewrite filter_cons_False; [done|]. by rewrite E.
Qed.

Lemma quietly_withStore f w : quietly w (withStore f w).
Proof. by apply quietly_fields. Qed.
Lemma quietly_withNow v w : quietly w (withNow v w).
Proof. by apply quietly_fields. Qed.
Lemma quietly_withStreamRef v w : quietly w (withStreamRef v w).
Proof. by apply quietly_fields. Qed.
Lemma quietly_withOnResultOf v w : quietly w (withOnResultOf v w).
Proof. by apply quietly_fields. Qed.
Lemma quietly_withTracks v w : quietly w (withTracks v w).
Proof. by apply quietly_fields. Qed.
Lemma quietly_withTimeoutsRef v w : quietly w (withTimeoutsRef v w).
Proof. by apply quietly_fields. Qed.
Lemma quietly_withMediaRequests v w : quietly w (withMediaRequests v w).
Proof. by apply quietly_fields. Qed.
Lemma quietly_withNextId n w : (nextId w ≤ n)%nat → quietly w (withNextId n w).
Proof. intros H. by apply quietly_fields. Qed.
Lemma quietly_record a w : audible a = false → quietly w (record a w).
Proof.
  intros H. apply quietly_fields; try done.
  by rewrite course_record, H, app_nil_r.
Qed.

Lemma quietly_setTimeout b d w :
  muteTimer (mkTimer (nextId w) (now w + d) b) = true → quietly w (setTimeout b d w).
Proof.
  intros Hm. unfold quietly, loudTimers, loudUtterances. split_and!; try done.
  - cbn. lia.
  - change (timers (setTimeout b d w))
      with (timers w ++ [mkTimer (nextId w) (now w + d) b]).
    rewrite filter_app, filter_cons_False by (by rewrite Hm). by rewrite app_nil_r.
  - intros P HP Hnew.
    change (timers (setTimeout b d w))
      with (timers w ++ [mkTimer (nextId w) (now w + d) b]).
    apply Forall_app. split; [done|]. apply Forall_singleton. by apply Hnew.
Qed.

Lemma quietly_createTimeout r cb d w :
  muteCallback cb = true → quietly w (createTimeout r cb d w).
Proof.
  intros H. unfold createTimeout. cbv zeta.
  eapply quietly_trans; [by apply (quietly_setTimeout (Tracked r cb) d w)|].
  apply quietly_withTimeoutsRef.
Qed.

Lemma quietly_clearTimeout i w :
  Forall (λ t, timerId t = i → muteTimer t = true) (timers w) →
  quietly w (clearTimeout i w).
Proof.
  intros H. unfold quietly, loudTimers, loudUtterances. split_and!; try done.
  - change (timers (clearTimeout i w)) with (filter (λ t, timerId t ≠ i) (timers w)).
    apply filter_filter_stays. eapply Forall_impl; [exact H|].
    cbn. intros t Ht Hl Hi. specialize (Ht Hi). congruence.
  - intros P HP _.
    change (timers (clearTimeout i w)) with (filter (λ t, timerId t ≠ i) (timers w)).
    by apply Forall_filter_keep.
Qed.

Lemma quietly_settled i w :
  Forall (λ u, utteranceId u = i → muteUtterance u = true) (utterances w) →
  quietly w (withUtterances (filter (λ u, utteranceId u ≠ i) (utterances w)) w).
Proof.
  intros H. unfold quietly, loudTimers, loudUtterances. split_and!; try done.
  - change (utterances (withUtterances ?v w)) with v.
    apply filter_filter_stays. eapply Forall_impl; [exact H|].
    cbn. intros u Hu Hl Hi. specialize (Hu Hi). congruence.
  - intros P HP. change (utterances (withUtterances ?v w)) with v.
    by apply Forall_filter_keep.
Qed.

Lemma quietly_getUserMedia r c w : quietly w (getUserMedia r c w).
Proof. apply quietly_fields; try done. cbn. lia. Qed.

Lemma quietly_stopAll stream w : quietly w (foldl stopTrack w stream).
Proof.
  revert w. induction stream as [|i stream IH]; intros w; [apply quietly_refl|].
  cbn [foldl]. eapply quietly_trans; [|apply IH]. unfold stopTrack.
  eapply quietly_trans; [apply quietly_withTracks|]. by apply quietly_record.
Qed.

Lemma quietly_setTrackEnabled i v w : quietly w (setTrackEnabled i v w).
Proof. apply quietly_withTracks. Qed.

Create HintDb quiet.
Lemma quietly_then w0 w w' : quietly w w' → quietly w0 w → quietly w0 w'.
Proof. intros H1 H2. by eapply quietly_trans. Qed.

Lemma q_withStore f w0 w : quietly w0 w → quietly w0 (withStore f w).
Proof. apply quietly_then, quietly_withStore. Qed.
Lemma q_withNow v w0 w : quietly w0 w → quietly w0 (withNow v w).
Proof. apply quietly_then, quietly_withNow. Qed.
Lemma q_withStreamRef v w0 w : quietly w0 w → quietly w0 (withStreamRef v w).
Proof. apply quietly_then, quietly_withStreamRef. Qed.
Lemma q_withOnResultOf v w0 w : quietly w0 w → quietly w0 (withOnResultOf v w).
Proof. apply quietly_then, quietly_withOnResultOf. Qed.
Lemma q_withTracks v w0 w : quietly w0 w → quietly w0 (withTracks v w).
Proof. apply quietly_then, quietly_withTracks. Qed.
Lemma q_withTimeoutsRef v w0 w : quietly w0 w → quietly w0 (withTimeoutsRef v w).
Proof. apply quietly_then, quietly_withTimeoutsRef. Qed.
Lemma q_withMediaRequests v w0 w : quietly w0 w → quietly w0 (withMediaRequests v w).
Proof. apply quietly_then, quietly_withMediaRequests. Qed.
Lemma q_withNextId n w0 w :
  (nextId w ≤ n)%nat → quietly w0 w → quietly w0 (withNextId n w).
Proof. intros H. by apply quietly_then, quietly_withNextId. Qed.
Lemma q_record a w0 w : audible a = false → quietly w0 w → quietly w0 (record a w).
Proof. intros H. by apply quietly_then, quietly_record. Qed.
Lemma q_setTimeout_raw cb d w0 w : quietly w0 w → quietly w0 (setTimeout (Raw cb) d w).
Proof. by apply quietly_then, quietly_setTimeout. Qed.
Lemma q_createTimeout r cb d w0 w :
  muteCallback cb = true → quietly w0 w → quietly w0 (createTimeout r cb d w).
Proof. intros H. by apply quietly_then, quietly_createTimeout. Qed.
Lemma q_getUserMedia r c w0 w : quietly w0 w → quietly w0 (getUserMedia r c w).
Proof. apply quietly_then, quietly_getUserMedia. Qed.
Lemma q_stopAll stream w0 w : quietly w0 w → quietly w0 (foldl stopTrack w stream).
Proof. apply quietly_then, quietly_stopAll. Qed.
Lemma q_setTrackEnabled i v w0 w : quietly w0 w → quietly w0 (setTrackEnabled i v w).
Proof. apply quietly_then, quietly_setTrackEnabled. Qed.
Hint Resolve quietly_refl q_withStore q_withNow q_withStreamRef q_withOnResultOf
  q_withTracks q_withTimeoutsRef q_withMediaRequests q_withNextId q_record
  q_setTimeout_raw q_createTimeout q_getUserMedia q_stopAll q_setTrackEnabled : quiet.
Hint Extern 1 (_ ≤ _)%nat => (cbn; lia) : quiet.
Hint Extern 1 (audible _ = false) => reflexivity : quiet.
Hint Extern 1 (muteCallback _ = true) => reflexivity : quiet.

Ltac quiet_through := intros; cbv zeta; repeat case_match; eauto 30 with quiet.

Lemma q_toggleCamera r w0 w : quietly w0 w → quietly w0 (toggleCamera r w).
Proof. unfold toggleCamera. quiet_through. Qed.
Lemma q_toggleMic r w0 w : quietly w0 w → quietly w0 (toggleMic r w).
Proof. unfold toggleMic. quiet_through. Qed.
Lemma q_initializeCamera r w0 w : quietly w0 w → quietly w0 (initializeCamera r w).
Proof. unfold initializeCamera. quiet_through. Qed.
Hint Resolve q_initializeCamera : quiet.
Lemma q_initializeCamera_resume q reply w0 w :
  quietly w0 w → quietly w0 (initializeCamera_resume q reply w).
Proof. unfold initializeCamera_resume. quiet_through. Qed.
Lemma q_requestCameraPermission r w0 w :
  quietly w0 w → quietly w0 (requestCameraPermission r w).
Proof. unfold requestCameraPermission. quiet_through. Qed.
Hint Resolve q_toggleCamera q_toggleMic q_initializeCamera_resume
  q_requestCameraPermission : quiet.

(** A mute utterance settles. *)
Lemma q_utteranceSettled u w0 w :
  muteUtterance u = true → attached u = true →
  quietly w0 w → quietly w0 (utteranceSettled u w).
Proof.
  unfold muteUtterance. intros Hm Ha. rewrite Ha in Hm. cbn in Hm.
  destruct (onComplete u) eqn:E; [done|].
  unfold utteranceSettled. rewrite E. quiet_through.
Qed.

(** A mute timer fires. *)
Lemma q_fireTimer t w0 w :
  muteTimer t = true → quietly w0 w → quietly w0 (fireTimer t w).
Proof.
  unfold muteTimer, fireTimer. destruct (body t) as [r cb|[r]]; [|quiet_through].
  destruct cb; try done; unfold runCallback; quiet_through.
Qed.

Lemma head_of_filter {A} (P : A → Prop) `{!∀ x, Decision (P x)} (l : list A) x xs :
  filter P l = x :: xs → x ∈ l ∧ P x.
Proof.
  intros E. assert (Hin : x ∈ filter P l) by (rewrite E; left).
  apply list_elem_of_filter in Hin. tauto.
Qed.

(** An event that runs none of the closures that speak changes the world
    quietly. *)
Lemma quiet_handle w e : passive e → spares w e → quietly w (handle e w).
Proof.
  intros Hp Hs.
  destruct e as [ms| | | | | | | |i|i|i|i reply|i reply|tr| |];
    cbn [passive] in Hp; try (exfalso; exact Hp);
    unfold handle; cbv zeta; cbn [spares] in Hs.
  - case_match; eauto with quiet.
  - case_match; eauto with quiet.
  - case_match; eauto with quiet.
  - case_match; eauto with quiet.
  - destruct (filter _ (timers w)) as [|t ts] eqn:E; [apply quietly_refl|].
    case_match; [|apply quietly_refl].
    apply head_of_filter in E as [Hin Hi].
    apply q_fireTimer; [|by apply quietly_clearTimeout].
    rewrite Forall_forall in Hs. by apply Hs.
  - destruct (filter _ (utterances w)) as [|u us] eqn:E; [apply quietly_refl|].
    case_match; [apply quietly_refl|].
    apply head_of_filter in E as [Hin Hi]. cbv beta in Hi.
    assert (Hm : muteUtterance u = true) by (rewrite Forall_forall in Hs; by apply Hs).
    destruct (attached u) eqn:Ha; [|by apply quietly_settled].
    apply q_utteranceSettled; [done..|]. by apply quietly_settled.
  - destruct (filter _ (utterances w)) as [|u us] eqn:E; [apply quietly_refl|].
    apply head_of_filter in E as [Hin Hi]. cbv beta in Hi.
    assert (Hm : muteUtterance u = true) by (rewrite Forall_forall in Hs; by apply Hs).
    destruct (attached u) eqn:Ha; [|by apply quietly_settled].
    apply q_utteranceSettled; [done..|]. by apply quietly_settled.
  - rewrite filter_none; [apply quietly_refl|].
    eapply Forall_impl; [exact Hs|]. cbn. auto.
  - destruct (filter _ (mediaRequests w)) as [|q qs] eqn:E; [apply quietly_refl|].
    eauto with quiet.
  - eauto with quiet.
  - eauto with quiet.
Qed.

Lemma quiet_step w e : passive e → spares w e → quietly w (step w e).
Proof.
  intros Hp Hs. unfold step, commit.
  case_match; [by apply quiet_handle|]. apply q_withOnResultOf. by apply quiet_handle.
Qed.

(** A condition on worlds that quiet changes keep, and under which the
    events of a list are passive and spare the closures that speak, holds
    along the list. *)
Lemma quiet_run (I : World → Prop) (ok : Event → Prop) :
  (∀ w w', I w → quietly w w' → I w') →
  (∀ w e, I w → ok e → passive e ∧ spares w e) →
  ∀ es w, I w → Forall ok es → quietly w (run es w) ∧ I (run es w).
Proof.
  intros Hkeep Hok es. induction es as [|e es IH]; intros w Hw Hes.
  - split; [apply quietly_refl|done].
  - apply Forall_cons in Hes as [He Hes].
    destruct (Hok w e Hw He) as [Hp Hs].
    pose proof (quiet_step w e Hp Hs) as Hq.
    destruct (IH (step w e) (Hkeep _ _ Hw Hq) Hes) as [K1 K2].
    split; [|exact K2]. by eapply quietly_trans.
Qed.
End Quietly.

(** ** The session: the order of a phase change *)

Section TransitionInOrder.

Lemma filter_the_one {A} (P Q : A → Prop) `{!∀ x, Decision (P x)} `{!∀ x, Decision (Q x)}
    (l : list A) (x : A) :
  Forall (λ y, y = x ∨ ¬ Q y) l → filter P l = [x] → Q x → filter Q l = [x].
Proof.
  intros Hl HP HQ.
  assert (Hx : P x).
  { assert (Hin : x ∈ filter P l) by (rewrite HP; left).
    apply list_elem_of_filter in Hin. tauto. }
  rewrite <- (filter_filter_stays Q P l).
  - rewrite HP. by rewrite filter_cons_True.
  - eapply Forall_impl; [exact Hl|]. cbn. intros y [->|Hy] Hq; [done|by destruct Hy].
Qed.

Lemma commit_fields w w' :
  trace (commit w w') = trace w' ∧ fetches (commit w w') = fetches w'
  ∧ timers (commit w w') = timers w' ∧ utterances (commit w w') = utterances w'
  ∧ nextId (commit w w') = nextId w' ∧ store (commit w w') = store w'
  ∧ now (commit w w') = now w'.
Proof. unfold commit. by case_match. Qed.

Lemma course_commit w w' : course (commit w w') = course w'.
Proof. unfold course. by destruct (commit_fields w w') as (-> & _). Qed.

Lemma loudUtterances_cancelled (us : list Utterance) :
  filter (λ u, muteUtterance u = false) (cancelUtterance <$> us)
  = cancelUtterance <$> filter (λ u, muteUtterance u = false) us.
Proof.
  induction us as [|u us IH]; [done|]. rewrite fmap_cons.
  destruct (muteUtterance u) eqn:E.
  - rewrite !filter_cons_False; [done|by rewrite E|].
    unfold muteUtterance in *. cbn. by rewrite E.
  - rewrite !filter_cons_True; [by rewrite fmap_cons, IH|done|].
    unfold muteUtterance in *. cbn. exact E.
Qed.

Lemma all_mute_timers w : loudTimers w = [] → Forall (λ t, muteTimer t = true) (timers w).
Proof.
  unfold loudTimers. intros H. apply Forall_forall. intros t Ht.
  destruct (muteTimer t) eqn:E; [done|].
  assert (Hin : t ∈ filter (λ t, muteTimer t = false) (timers w))
    by (by apply list_elem_of_filter).
  rewrite H in Hin. by apply elem_of_nil in Hin.
Qed.

Lemma all_mute_utterances w :
  loudUtterances w = [] → Forall (λ u, muteUtterance u = true) (utterances w).
Proof.
  unfold loudUtterances. intros H. apply Forall_forall. intros u Hu.
  destruct (muteUtterance u) eqn:E; [done|].
  assert (Hin : u ∈ filter (λ u, muteUtterance u = false) (utterances w))
    by (by apply list_elem_of_filter).
  rewrite H in Hin. by apply elem_of_nil in Hin.
Qed.

Lemma awaiting_run f es w :
  awaiting f w →
  Forall (λ e, passive e ∧ ∀ reply, e ≠ FetchReplies (fetchId f) reply) es →
  quietly w (run es w) ∧ awaiting f (run es w).
Proof.
  apply (quiet_run (awaiting f)).
  - intros w1 w2 (H1 & H2 & H3) (_ & Q2 & _ & Q4 & Q5 & _).
    unfold awaiting. by rewrite Q2, Q4, Q5.
  - intros w1 e (H1 & H2 & H3) [Hp He]. split; [exact Hp|].
    destruct e as [ms| | | | | | | |i|i|i|i reply|i reply|tr| |];
      try exact I; cbn [spares].
    + eapply Forall_impl; [exact (all_mute_timers _ H2)|]. auto.
    + eapply Forall_impl; [exact (all_mute_utterances _ H3)|]. auto.
    + eapply Forall_impl; [exact (all_mute_utterances _ H3)|]. auto.
    + rewrite H1. apply Forall_singleton. intros Hid. apply (He reply). by rewrite Hid.
Qed.

Lemma announcing_run u es w :
  announcing u w →
  Forall (λ e, passive e ∧ e ≠ UtteranceEnds (utteranceId u)
               ∧ e ≠ UtteranceFails (utteranceId u)) es →
  quietly w (run es w) ∧ announcing u (run es w).
Proof.
  apply (quiet_run (announcing u)).
  - intros w1 w2 (H1 & H2 & H3 & H4) (_ & Q2 & _ & Q4 & Q5 & Q6 & _).
    unfold announcing. rewrite Q2, Q4, Q5. split_and!; auto.
  - intros w1 e (H1 & H2 & H3 & H4) (Hp & He1 & He2). split; [exact Hp|].
    assert (Hu : ∀ i, i ≠ utteranceId u →
              Forall (λ x, utteranceId x = i → muteUtterance x = true) (utterances w1)).
    { intros i Hi. apply Forall_forall. intros x Hx Hid.
      destruct (muteUtterance x) eqn:E; [done|].
      assert (Hin : x ∈ loudUtterances w1) by (by apply list_elem_of_filter).
      rewrite H3 in Hin. apply list_elem_of_singleton in Hin. congruence. }
    destruct e as [ms| | | | | | | |i|i|i|i reply|i reply|tr| |];
      try exact I; cbn [spares].
    + eapply Forall_impl; [exact (all_mute_timers _ H2)|]. auto.
    + apply Hu. congruence.
    + apply Hu. congruence.
    + by rewrite H1.
Qed.

Lemma pausing_run t es w :
  pausing t w →
  Forall (λ e, passive e ∧ e ≠ TimerFires (timerId t)) es →
  quietly w (run es w) ∧ pausing t (run es w).
Proof.
  apply (quiet_run (pausing t)).
  - intros w1 w2 (H1 & H2 & H3 & H4 & H5) (_ & Q2 & Q3 & Q4 & Q5 & _ & Q7).
    unfold pausing. rewrite Q2, Q4, Q5. split_and!; auto; [|lia].
    apply Q7; [exact H4|]. intros x _ Hx. right. lia.
  - intros w1 e (H1 & H2 & H3 & H4 & H5) (Hp & He). split; [exact Hp|].
    destruct e as [ms| | | | | | | |i|i|i|i reply|i reply|tr| |];
      try exact I; cbn [spares].
    + apply Forall_forall. intros x Hx Hid.
      destruct (muteTimer x) eqn:E; [done|].
      assert (Hin : x ∈ loudTimers w1) by (by apply list_elem_of_filter).
      rewrite H3 in Hin. apply list_elem_of_singleton in Hin. congruence.
    + eapply Forall_impl; [exact (all_mute_utterances _ H2)|]. auto.
    + eapply Forall_impl; [exact (all_mute_utterances _ H2)|]. auto.
    + by rewrite H1.
Qed.

(** The decision: the batch of the next phase is requested, and nothing
    else. *)
Lemma transition_requested r counts allResponses next w :
  isInterviewEnded r = false → atBudget r counts next → hushed w →
  let w1 := determineNextStep r counts allResponses w in
  course w1 = course w ++ [RequestedQuestions next]
  ∧ awaiting (mkFetch (nextId w) (KTransition r next)) w1.
Proof.
  intros He Hb (H1 & H2 & H3) w1. subst w1.
  rewrite (determineNextStep_atBudget r counts allResponses next w He Hb).
  unfold moveToPhase, awaiting, loudTimers, loudUtterances, course in *.
  destruct w. unwrap. unwrap in H1. unwrap in H2. unwrap in H3.
  rewrite H1, H2, H3. split; [|done].
  rewrite filter_app, filter_cons_True by done. done.
Qed.

(** The reply: the batch is installed, then the announcement is spoken;
    it is the one closure pending that speaks. *)
Lemma transition_announced r next reply f w :
  isInterviewEnded r = false → fresh w →
  continuation f = KTransition r next → awaiting f w →
  let batch := batchFor next reply in
  let w2 := step w (FetchReplies (fetchId f) reply) in
  let u := mkUtterance (nextId w) (transitionMessage next) r
             (Some (OcFirstQuestion r batch)) true false in
  trace w2 = trace w ++ [Installed batch; CancelledSpeech; Spoke (transitionMessage next)]
  ∧ questions (store w2) = batch ∧ currentQuestion (store w2) = batch !! 0%nat
  ∧ announcing u w2 ∧ fresh w2.
Proof.
  intros He Hf Hk (H1 & H2 & H3) batch w2 u.
  enough (K : trace w2 = trace w ++ [Installed batch; CancelledSpeech;
                                      Spoke (transitionMessage next)]
              ∧ questions (store w2) = batch
              ∧ currentQuestion (store w2) = batch !! 0%nat ∧ announcing u w2)
    by (destruct K as (? & ? & ? & ?); split_and!; try done; by apply fresh_step).
  subst w2. unfold step in *.
  destruct (commit_fields w (handle (FetchReplies (fetchId f) reply) w))
    as (C1 & C2 & C3 & C4 & C5 & C6 & C7).
  unfold announcing, loudTimers, loudUtterances in *.
  rewrite C1, C2, C3, C4, C6. clear C1 C2 C3 C4 C5 C6 C7.
  rewrite (handle_FetchReplies w (fetchId f) f reply)
    by (rewrite H1; by rewrite filter_cons_True).
  rewrite Hk. cbn [resume].
  rewrite moveToPhase_resume_batchFor by exact He.
  rewrite speakQuestion_live by exact He. fold batch.
  destruct Hf as (_ & Fu & _). destruct w. unwrap. unwrap in H1. unwrap in H2.
  unwrap in H3. unwrap in Fu. fold u.
  split_and!; try done.
  - by rewrite <- app_assoc.
  - rewrite H1. by rewrite filter_cons_False by auto.
  - rewrite filter_app, loudUtterances_cancelled, H3. by rewrite filter_cons_True.
  - apply Forall_app. split; [|apply Forall_singleton; by left].
    apply Forall_fmap. eapply Forall_impl; [exact Fu|]. cbn. intros x Hx. right. lia.
Qed.

Lemma filter_comm {A} (P Q : A → Prop) `{!∀ x, Decision (P x)} `{!∀ x, Decision (Q x)}
    (l : list A) :
  filter P (filter Q l) = filter Q (filter P l).
Proof.
  rewrite !list_filter_filter. apply list_filter_iff. intros; tauto.
Qed.

(** The announcement settles: the timer of the first question is set, one
    second ahead; it is the one closure pending that speaks. *)
Lemma transition_settled r next batch q i settled w :
  isInterviewEnded r = false → fresh w → batch !! 0%nat = Some q →
  let u := mkUtterance i (transitionMessage next) r
             (Some (OcFirstQuestion r batch)) true false in
  announcing u w →
  settled = UtteranceEnds i ∨ settled = UtteranceFails i →
  let w3 := step w settled in
  let t := mkTimer (nextId w) (now w + 1000) (Tracked r (CbSpeakQuestionAt r batch 0)) in
  trace w3 = trace w ++ [Settled (transitionMessage next)]
  ∧ pausing t w3 ∧ fresh w3.
Proof.
  intros He Hf Hq u (H1 & H2 & H3 & H4) Hs w3 t.
  enough (K : trace w3 = trace w ++ [Settled (transitionMessage next)] ∧ pausing t w3)
    by (destruct K; split_and!; try done; by apply fresh_step).
  assert (Hu : filter (λ x, utteranceId x = i) (utterances w) = [u])
    by (by apply (filter_the_one (λ x, muteUtterance x = false)
                    (λ x, utteranceId x = i) _ u H4 H3)).
  subst w3. unfold step.
  destruct (commit_fields w (handle settled w)) as (C1 & C2 & C3 & C4 & C5 & C6 & C7).
  unfold pausing, loudTimers, loudUtterances in *.
  rewrite C1, C2, C3, C4, C5. clear C1 C2 C3 C4 C5 C6 C7.
  rewrite (handle_utterance_settles w i u settled Hs Hu) by reflexivity.
  unfold utteranceSettled. cbn [owner onComplete u utteranceText].
  rewrite He. unfold runOnComplete. rewrite He, Hq.
  destruct Hf as (Ft & _). destruct w. unwrap. unwrap in H1. unwrap in H2.
  unwrap in H3. unwrap in H4. unwrap in Ft. fold t.
  split_and!; try done.
  - rewrite filter_comm, H3. by rewrite filter_cons_False by (cbn; auto).
  - rewrite filter_app, H2. by rewrite filter_cons_True.
  - apply Forall_app. split; [|apply Forall_singleton; by left].
    eapply Forall_impl; [exact Ft|]. cbn. intros x Hx. right. lia.
  - cbn. lia.
Qed.

(** The timer fires: before it is due nothing happens; when due, the
    first question of the batch is spoken. *)
Lemma transition_asks r batch q t w :
  isInterviewEnded r = false → batch !! 0%nat = Some q →
  body t = Tracked r (CbSpeakQuestionAt r batch 0) →
  pausing t w →
  let w4 := step w (TimerFires (timerId t)) in
  ((now w < due t)%Z → w4 = w)
  ∧ ((due t ≤ now w)%Z →
       trace w4 = trace w ++ [CancelledSpeech; Spoke (text q)]).
Proof.
  intros He Hq Hb (H1 & H2 & H3 & H4 & H5) w4.
  assert (Ht : filter (λ x, timerId x = timerId t) (timers w) = [t])
    by (by apply (filter_the_one (λ x, muteTimer x = false)
                    (λ x, timerId x = timerId t) _ t H4 H3)).
  subst w4. unfold step. split; intros Hd.
  - unfold handle. rewrite Ht, bool_decide_false by lia. by apply commit_same.
  - destruct (commit_fields w (handle (TimerFires (timerId t)) w)) as (-> & _).
    rewrite (handle_TimerFires w (timerId t) t Ht Hd).
    unfold fireTimer. rewrite Hb, He. unfold runCallback. rewrite Hq.
    rewrite speakQuestion_live by exact He. by destruct w.
Qed.

Lemma course_app w w' l : trace w' = trace w ++ l →
  course w' = course w ++ filter (λ a, audible a = true) l.
Proof. unfold course. intros ->. by rewrite filter_app. Qed.

(** The order of a phase change.  [determineNextStep] runs with the
    counter of the phase at its budget, in a world where nothing that is
    pending will speak.  As long as the candidate submits no answer and
    does not start, end or restart the session, whatever else happens and
    whenever: the batch is requested, and nothing is installed or spoken
    until the reply; at the reply the batch it yields is installed, then
    the announcement is spoken; nothing more is requested, installed or
    spoken until the announcement settles, by ending or by failing;
    nothing is until the timer set at that moment fires; fired before its
    second has passed the timer does nothing, and fired after, the first
    question of the batch is spoken. *)
Lemma transition_in_order r counts allResponses next reply w es1 es2 settled es3 :
  isInterviewEnded r = false → atBudget r counts next → fresh w → hushed w →
  let batch := batchFor next reply in
  let announcement := transitionMessage next in
  let w1 := determineNextStep r counts allResponses w in
  let f := nextId w in
  Forall (λ e, passive e ∧ ∀ reply', e ≠ FetchReplies f reply') es1 →
  let w1' := run es1 w1 in
  let w2 := step w1' (FetchReplies f reply) in
  let u := nextId w1' in
  Forall (λ e, passive e ∧ e ≠ UtteranceEnds u ∧ e ≠ UtteranceFails u) es2 →
  let w2' := run es2 w2 in
  settled = UtteranceEnds u ∨ settled = UtteranceFails u →
  let w3 := step w2' settled in
  let t := nextId w2' in
  Forall (λ e, passive e ∧ e ≠ TimerFires t) es3 →
  let w3' := run es3 w3 in
  let w4 := step w3' (TimerFires t) in
  course w1 = course w ++ [RequestedQuestions next]
  ∧ course w1' = course w1
  ∧ trace w2 = trace w1' ++ [Installed batch; CancelledSpeech; Spoke announcement]
  ∧ questions (store w2) = batch
  ∧ currentQuestion (store w2) = batch !! 0%nat
  ∧ course w2' = course w2
  ∧ trace w3 = trace w2' ++ [Settled announcement]
  ∧ course w3' = course w3
  ∧ ∃ q, batch !! 0%nat = Some q
         ∧ ((now w3' < now w2' + 1000)%Z → w4 = w3')
         ∧ ((now w2' + 1000 ≤ now w3')%Z →
              trace w4 = trace w3' ++ [CancelledSpeech; Spoke (text q)]
              ∧ course w4
                = course w ++ [RequestedQuestions next; Installed batch;
                               Spoke announcement; Spoke (text q)]).
Proof.
  intros He Hb Hf Hh batch announcement w1 f Hes1 w1' w2 u Hes2 w2' Hs w3 t Hes3 w3' w4.
  destruct (batchFor_nonempty next reply) as (q & qs & Hq). fold batch in Hq.
  assert (Hq0 : batch !! 0%nat = Some q) by (by rewrite Hq).
  destruct (transition_requested r counts allResponses next w He Hb Hh) as [R1 R2].
  fold w1 f in R1, R2.
  assert (Hf1 : fresh w1) by (by apply fresh_determineNextStep).
  destruct (awaiting_run _ es1 w1 R2 Hes1) as [Q1 A1]. fold w1' in Q1, A1.
  assert (Hf1' : fresh w1') by (by apply fresh_run).
  destruct (transition_announced r next reply (mkFetch f (KTransition r next)) w1'
              He Hf1' eq_refl A1)
    as (T2 & S1 & S2 & A2 & Hf2).
  cbn [fetchId] in T2, S1, S2, A2, Hf2. fold batch w2 u announcement in T2, S1, S2, A2, Hf2.
  destruct (announcing_run _ es2 w2 A2 Hes2) as [Q2 A2']. fold w2' in Q2, A2'.
  assert (Hf2' : fresh w2') by (by apply fresh_run).
  destruct (transition_settled r next batch q u settled w2' He Hf2' Hq0 A2' Hs)
    as (T3 & A3 & Hf3).
  fold w3 t announcement in T3, A3, Hf3.
  destruct (pausing_run _ es3 w3 A3 Hes3) as [Q3 A3']. cbn [timerId] in Q3, A3'.
  fold w3' in Q3, A3'.
  destruct (transition_asks r batch q
              (mkTimer t (now w2' + 1000) (Tracked r (CbSpeakQuestionAt r batch 0)))
              w3' He Hq0 eq_refl A3') as [F1 F2].
  cbn [timerId due] in F1, F2. fold w4 in F1, F2.
  assert (C1 : course w1' = course w1) by apply Q1.
  assert (C2 : course w2' = course w2) by apply Q2.
  assert (C3 : course w3' = course w3) by apply Q3.
  split_and!; try done.
  exists q. split_and!; try done.
  intros Hd. specialize (F2 Hd). split; [exact F2|].
  rewrite (course_app _ _ _ F2), C3, (course_app _ _ _ T3), C2, (course_app _ _ _ T2),
    C1, R1.
  rewrite <- !app_assoc. reflexivity.
Qed.

(** The order of a phase change, at the end of the introduction phase:
    the camera timer fires and the camera answers while the batch is
    awaited, time passes during the announcement, and the microphone is
    muted before the first question. *)
Lemma transition_in_order_witness :
  let r := setInterviewPhase PhaseIntroduction initialState in
  let es := [Elapse 100; TimerFires 0; FetchReplies 1 NetworkError;
             Elapse 8000; UtteranceEnds 3;
             MediaReplies 2 (StreamGranted [Video; Audio]); ClickMic; Elapse 1000;
             TimerFires 4] in
  hushed mounted
  ∧ atBudget r (mkCounts 3 0 0) KeyTechnical
  ∧ course (run es (determineNextStep r (mkCounts 3 0 0) [] mounted))
    = [RequestedQuestions KeyTechnical; Installed (fallbackQuestions KeyTechnical);
       Spoke (transitionMessage KeyTechnical);
       Spoke "Describe your experience with the main technologies mentioned in the job description."].
Proof.
  assert (Hh : hushed mounted) by (by split_and!).
  assert (Hb : atBudget (setInterviewPhase PhaseIntroduction initialState)
                 (mkCounts 3 0 0) KeyTechnical)
    by (left; split_and!; [reflexivity|cbn; lia|reflexivity]).
  cbv zeta. split; [exact Hh|]. split; [exact Hb|].
  pose proof (transition_in_order
                (setInterviewPhase PhaseIntroduction initialState) (mkCounts 3 0 0) []
                KeyTechnical NetworkError mounted
                [Elapse 100; TimerFires 0] [Elapse 8000] (UtteranceEnds 3)
                [MediaReplies 2 (StreamGranted [Video; Audio]); ClickMic; Elapse 1000]
                eq_refl Hb fresh_mounted Hh) as H.
  cbv zeta in H.
  specialize (H ltac:(repeat constructor; intros reply'; discriminate)).
  specialize (H ltac:(repeat constructor; discriminate)).
  specialize (H ltac:(left; vm_compute; reflexivity)).
  specialize (H ltac:(repeat constructor; discriminate)).
  destruct H as (_ & _ & _ & _ & _ & _ & _ & _ & q & Hq & _ & H).
  specialize (H ltac:(vm_compute; discriminate)). destruct H as [_ H].
  injection Hq as <-.
  etrans; [|etrans; [exact H|]]; vm_compute; reflexivity.
Defined.

(** C4.  Skip is clicked twice on the last introduction question.  Both
    clicks are logged for question 3 and each sets its own timer for
    [determineNextStep]; both decisions find the counter at the budget,
    so the technical batch is requested, installed and announced twice.
    The second announcement cuts the first; the first fails, its handler
    sets the timer of the first question, and a second later the first
    technical question is spoken while the second announcement has not
    settled: its handlers are still attached, and it is cancelled by the
    question. *)
Theorem second_skip_cuts_the_announcement :
  let w := run secondSkip mounted in
  let announcement := transitionMessage KeyTechnical in
  let batch := fallbackQuestions KeyTechnical in
  isInterviewEnded (store w) = false
  ∧ questionId <$> responses (store w) = [1; 2; 3; 3]%Z
  ∧ drop 18 (trace w)
    = [RequestedQuestions KeyTechnical; RequestedQuestions KeyTechnical;
       Installed batch; CancelledSpeech; Spoke announcement;
       Installed batch; CancelledSpeech; Spoke announcement;
       Settled announcement;
       CancelledSpeech;
       Spoke "Describe your experience with the main technologies mentioned in the job description."]
  ∧ uttered <$> utterances w
    = [(22, announcement, true, true);
       (24, "Describe your experience with the main technologies mentioned in the job description.",
        true, false)]
  ∧ batch !! 0%nat
    = Some (mkQuestion 4
              "Describe your experience with the main technologies mentioned in the job description."
              Technical false).
Proof. vm_compute. by split_and!. Qed.
End TransitionInOrder.

(** ** The session: the log and the counters agree *)

Section LogAndCounters.

Lemma agree_quiet f w : quiet f → agree w → agree (withStore f w).
Proof.
  intros Hq (Hs & Ho & Ht). split_and!; [|exact Ho|exact Ht].
  destruct (Hq (store w)) as (E1 & E2 & E3 & E4). unfold good.
  change (store (withStore f w)) with (f (store w)). by rewrite E1, E2, E3, E4.
Qed.

Lemma agree_setQuestions qs w :
  Forall clean qs → agree w → agree (withStore (setQuestions qs) w).
Proof. intros Hq ((H1 & H2 & H3) & Ho & Ht). by split_and!. Qed.

Lemma agree_setCurrentQuestion oq w :
  (∀ q, oq = Some q → clean q) → agree w → agree (withStore (setCurrentQuestion oq) w).
Proof. intros Hq ((H1 & H2 & H3) & Ho & Ht). by split_and!. Qed.

Lemma agree_world w w' :
  store w' = store w → onResultOf w' = onResultOf w →
  Forall cleanTimer (timers w') → agree w → agree w'.
Proof. intros E1 E2 Ht (Hs & Ho & _). unfold agree. by rewrite E1, E2. Qed.

Lemma agree_timers w : agree w → Forall cleanTimer (timers w).
Proof. by intros (_ & _ & ?). Qed.

Lemma agree_record a w : agree w → agree (record a w).
Proof. done. Qed.
Lemma agree_withNow v w : agree w → agree (withNow v w).
Proof. done. Qed.
Lemma agree_withStreamRef v w : agree w → agree (withStreamRef v w).
Proof. done. Qed.
Lemma agree_withTimeoutsRef v w : agree w → agree (withTimeoutsRef v w).
Proof. done. Qed.
Lemma agree_withUtterances v w : agree w → agree (withUtterances v w).
Proof. done. Qed.
Lemma agree_withFetches v w : agree w → agree (withFetches v w).
Proof. done. Qed.
Lemma agree_withMediaRequests v w : agree w → agree (withMediaRequests v w).
Proof. done. Qed.
Lemma agree_withTracks v w : agree w → agree (withTracks v w).
Proof. done. Qed.
Lemma agree_withNextId v w : agree w → agree (withNextId v w).
Proof. done. Qed.
Lemma agree_withSpeechSynthRef v w : agree w → agree (withSpeechSynthRef v w).
Proof. done. Qed.

Lemma agree_setTimeout b d w :
  cleanTimer (mkTimer (nextId w) (now w + d) b) → agree w → agree (setTimeout b d w).
Proof.
  intros Hb H. apply (agree_world w); [done..| |done].
  apply Forall_app. split; [by apply agree_timers|]. by repeat constructor.
Qed.

Lemma agree_clearTimeout i w : agree w → agree (clearTimeout i w).
Proof.
  intros H. apply (agree_world w); [done..| |done].
  by apply Forall_filter_keep, agree_timers.
Qed.

Lemma agree_createTimeout r cb d w :
  cleanCallback cb → agree w → agree (createTimeout r cb d w).
Proof.
  intros Hb H. apply (agree_world w); [done..| |done].
  apply Forall_app. split; [by apply agree_timers|]. by repeat constructor.
Qed.

Lemma agree_clearAllTimeouts w : agree w → agree (clearAllTimeouts w).
Proof.
  intros H. apply (agree_world w); [done..| |done].
  by apply Forall_filter_keep, agree_timers.
Qed.

Lemma agree_speechSynthesisCancel w : agree w → agree (speechSynthesisCancel w).
Proof. done. Qed.
Lemma agree_fetch k w : agree w → agree (fetch k w).
Proof. done. Qed.
Lemma agree_getUserMedia r c w : agree w → agree (getUserMedia r c w).
Proof. done. Qed.
Lemma agree_stopAll stream w : agree w → agree (foldl stopTrack w stream).
Proof. intros H. rewrite foldl_stopTrack. exact H. Qed.
Lemma agree_setTrackEnabled i v w : agree w → agree (setTrackEnabled i v w).
Proof. done. Qed.

Lemma agree_speakQuestion r txt k w : agree w → agree (speakQuestion r txt k w).
Proof.
  intros H. destruct (isInterviewEnded r) eqn:He.
  - unfold speakQuestion. by rewrite He.
  - rewrite speakQuestion_live by exact He. exact H.
Qed.

Create HintDb agree.
Hint Resolve agree_record agree_withNow agree_withStreamRef agree_withTimeoutsRef
  agree_withUtterances agree_withFetches agree_withMediaRequests agree_withTracks
  agree_withNextId agree_withSpeechSynthRef agree_clearTimeout agree_clearAllTimeouts
  agree_speechSynthesisCancel agree_fetch agree_getUserMedia agree_stopAll
  agree_setTrackEnabled agree_speakQuestion agree_quiet agree_setQuestions
  agree_setCurrentQuestion agree_createTimeout agree_setTimeout : agree.
Hint Extern 1 (quiet _) => (intros ?; done) : agree.
Hint Extern 1 (cleanCallback _) => exact I : agree.
Hint Extern 1 (cleanTimer _) => exact I : agree.
Lemma no_question_clean (q : Question) : None = Some q → clean q.
Proof. discriminate. Qed.
Hint Resolve no_question_clean : agree.

Ltac agree_through := intros; cbv zeta; repeat case_match; eauto 30 with agree.

Lemma clean_lookup (qs : list Question) i q :
  Forall clean qs → qs !! i = Some q → clean q.
Proof. intros H Hq. rewrite Forall_forall in H. apply H. by eapply list_elem_of_lookup_2. Qed.

Lemma clean_fallback phase : Forall clean (fallbackQuestions phase).
Proof.
  destruct phase; cbn [fallbackQuestions];
    repeat (apply Forall_cons_2; [unfold clean, counted; cbn [category]; auto|]);
    apply Forall_nil_2.
Qed.

Lemma clean_usable reply data batch :
  cleanReply reply → received reply = Some data → usableBatch data = Some batch →
  Forall clean batch.
Proof.
  unfold received, usableBatch, cleanReply.
  destruct reply as [|status [body|]]; try done; [|by destruct (ok status)].
  destruct (ok status); [|done]. intros H [= <-].
  destruct (bodyQuestions body) as [[|q qs]|]; try done. by intros [= <-].
Qed.

Lemma agree_generateQuestionsForPhase r k w :
  agree w → agree (generateQuestionsForPhase r k w).
Proof. unfold generateQuestionsForPhase. agree_through. Qed.

Lemma agree_installFirstBatch r k batch w :
  Forall clean batch → agree w → agree (installFirstBatch r k batch w).
Proof.
  intros Hb H. unfold installFirstBatch. cbv zeta.
  assert (Hc : ∀ q, batch !! 0%nat = Some q → clean q)
    by (intros q; by apply clean_lookup).
  repeat case_match; eauto 30 with agree.
Qed.
Hint Resolve agree_generateQuestionsForPhase agree_installFirstBatch clean_fallback : agree.

Lemma agree_generateQuestionsForPhase_resume r k reply w :
  cleanReply reply → agree w → agree (generateQuestionsForPhase_resume r k reply w).
Proof.
  intros Hr H. unfold generateQuestionsForPhase_resume. cbv zeta.
  destruct (received reply) as [data|] eqn:E1; [|eauto 30 with agree].
  destruct (usableBatch data) as [batch|] eqn:E2; [|eauto 30 with agree].
  pose proof (clean_usable _ _ _ Hr E1 E2). eauto 30 with agree.
Qed.

Lemma agree_generateNextQuestionInPhase r k a w :
  agree w → agree (generateNextQuestionInPhase r k a w).
Proof. unfold generateNextQuestionInPhase. agree_through. Qed.

Lemma agree_appendQuestion q w :
  clean q → agree w → agree (withStore (λ s, setQuestions (questions s ++ [q]) s) w).
Proof.
  intros Hq ((H1 & H2 & H3) & Ho & Ht). split; [|by split].
  split; [exact H1|]. split; [|exact H3].
  change (Forall clean (questions (store w) ++ [q])).
  apply Forall_app. split; [exact H2|]. by apply Forall_singleton.
Qed.

Lemma agree_generateNextQuestionInPhase_resume r k reply w :
  agree w → agree (generateNextQuestionInPhase_resume r k reply w).
Proof.
  intros H. unfold generateNextQuestionInPhase_resume. cbv zeta.
  repeat case_match; eauto 30 with agree.
  apply agree_quiet; [intros ?; done|]. apply agree_createTimeout; [exact I|].
  apply agree_quiet; [intros ?; done|].
  assert (Hc : clean (mkQuestion (now w) s (categoryOfKey k) false))
    by (unfold clean, counted; destruct k; cbn [category categoryOfKey]; auto).
  apply agree_appendQuestion; [exact Hc|].
  apply agree_setCurrentQuestion; [|exact H]. by intros q [= <-].
Qed.

Lemma agree_endInterview r w : agree w → agree (endInterview r w).
Proof. unfold endInterview. agree_through. Qed.
Hint Resolve agree_generateQuestionsForPhase_resume agree_generateNextQuestionInPhase
  agree_generateNextQuestionInPhase_resume agree_endInterview : agree.

Lemma agree_askNextInPhase r k a w :
  Forall clean (questions r) → agree w → agree (askNextInPhase r k a w).
Proof.
  intros Hr H. unfold askNextInPhase. cbv zeta.
  assert (Hc : ∀ q, questions r !! (currentQuestionIndex r + 1)%nat = Some q → clean q)
    by (intros q; by apply clean_lookup).
  repeat case_match; eauto 30 with agree.
Qed.

Lemma agree_moveToPhase r k w : agree w → agree (moveToPhase r k w).
Proof. unfold moveToPhase. agree_through. Qed.

Lemma agree_moveToPhase_resume r k reply w :
  cleanReply reply → agree w → agree (moveToPhase_resume r k reply w).
Proof.
  intros Hr H. unfold moveToPhase_resume. cbv zeta.
  assert (Hf : ∀ q, fallbackQuestions k !! 0%nat = Some q → clean q)
    by (intros q; apply clean_lookup, clean_fallback).
  destruct (received reply) as [data|] eqn:E1; [|eauto 30 with agree].
  destruct (usableBatch data) as [batch|] eqn:E2; [|eauto 30 with agree].
  pose proof (clean_usable _ _ _ Hr E1 E2) as Hb.
  assert (Hc : ∀ q, batch !! 0%nat = Some q → clean q)
    by (intros q; by apply clean_lookup).
  eauto 30 with agree.
Qed.
Hint Resolve agree_askNextInPhase agree_moveToPhase agree_moveToPhase_resume : agree.

Lemma agree_determineNextStep r c a w :
  Forall clean (questions r) → agree w → agree (determineNextStep r c a w).
Proof. unfold determineNextStep. agree_through. Qed.

Lemma countAnswer_counted counts :
  countAnswer Introduction counts
  = mkCounts (S (introduction counts)) (technical counts) (behavioral counts)
  ∧ countAnswer Technical counts
    = mkCounts (introduction counts) (S (technical counts)) (behavioral counts)
  ∧ countAnswer Behavioral counts
    = mkCounts (introduction counts) (technical counts) (S (behavioral counts)).
Proof. by split_and!. Qed.

Lemma total_countAnswer c counts :
  counted c → total (countAnswer c counts) = S (total counts).
Proof.
  destruct (countAnswer_counted counts) as (E1 & E2 & E3).
  intros [-> | [-> | ->]]; rewrite ?E1, ?E2, ?E3; unfold total;
    cbn [introduction technical behavioral]; lia.
Qed.

Lemma agree_handleResponse r ans w :
  good r → agree w → agree (handleResponse r ans w).
Proof.
  intros (R1 & R2 & R3) H. unfold handleResponse.
  destruct (currentQuestion r) as [current|] eqn:Ec; [|exact H].
  destruct (isInterviewEnded r); [exact H|]. cbv zeta.
  apply agree_createTimeout; [exact R2|].
  destruct H as ((H1 & H2 & H3) & Ho & Ht).
  split; [|split; [exact Ho|exact Ht]]. split; [|split; [|exact H3]].
  - change (length (responses r ++ [mkResponse (id current) (text current) ans (now w) 0])
            = total (countAnswer (category current) (questionCounts r))).
    rewrite length_app, total_countAnswer by (by apply R3). cbn. lia.
  - change (Forall clean (markAsked current <$> questions r)).
    apply Forall_fmap. eapply Forall_impl; [exact R2|]. by intros q.
Qed.
Hint Resolve agree_determineNextStep agree_handleResponse : agree.

Lemma agree_handleManualNext r w : good r → agree w → agree (handleManualNext r w).
Proof. unfold handleManualNext. agree_through. Qed.
Lemma agree_startInterview r w : agree w → agree (startInterview r w).
Proof. unfold startInterview, giveVoiceInstructions. agree_through. Qed.
Lemma agree_handleEndInterview w : agree w → agree (handleEndInterview w).
Proof. unfold handleEndInterview. agree_through. Qed.
Lemma agree_toggleCamera r w : agree w → agree (toggleCamera r w).
Proof. unfold toggleCamera. agree_through. Qed.
Lemma agree_toggleMic r w : agree w → agree (toggleMic r w).
Proof. unfold toggleMic. agree_through. Qed.
Lemma agree_onRestart w : agree w → agree (onRestart w).
Proof.
  intros H. unfold onRestart. cbv zeta. apply agree_clearAllTimeouts.
  destruct H as ((H1 & H2 & H3) & Ho & Ht).
  split; [|by split]. split; [reflexivity|]. split; [constructor|exact H3].
Qed.
Lemma agree_initializeCamera r w : agree w → agree (initializeCamera r w).
Proof. unfold initializeCamera. agree_through. Qed.
Hint Resolve agree_initializeCamera : agree.
Lemma agree_initializeCamera_resume q reply w :
  agree w → agree (initializeCamera_resume q reply w).
Proof. unfold initializeCamera_resume. agree_through. Qed.
Lemma agree_requestCameraPermission r w : agree w → agree (requestCameraPermission r w).
Proof. unfold requestCameraPermission. agree_through. Qed.
Lemma agree_runCallback cb w : cleanCallback cb → agree w → agree (runCallback cb w).
Proof. unfold runCallback. destruct cb; agree_through. Qed.
Lemma agree_runOnComplete k w : agree w → agree (runOnComplete k w).
Proof. unfold runOnComplete. agree_through. Qed.
Hint Resolve agree_runCallback agree_runOnComplete agree_handleManualNext
  agree_startInterview agree_handleEndInterview agree_toggleCamera agree_toggleMic
  agree_onRestart agree_initializeCamera_resume agree_requestCameraPermission : agree.
Lemma agree_utteranceSettled u w : agree w → agree (utteranceSettled u w).
Proof. unfold utteranceSettled. agree_through. Qed.
Lemma agree_fireTimer t w : cleanTimer t → agree w → agree (fireTimer t w).
Proof. unfold fireTimer, cleanTimer. destruct (body t); agree_through. Qed.
Lemma agree_resume k reply w : cleanReply reply → agree w → agree (resume k reply w).
Proof. unfold resume. agree_through. Qed.
Hint Resolve agree_utteranceSettled agree_fireTimer agree_resume : agree.

Lemma agree_handle e w : cleanEvent e → agree w → agree (handle e w).
Proof.
  intros He H. pose proof H as ((S1 & S2 & S3) & (O1 & O2 & O3) & Ht).
  assert (Hs : good (store w)) by done. assert (Ho : good (onResultOf w)) by done.
  destruct e; unfold handle; cbv zeta; repeat case_match; eauto 30 with agree.
  - apply agree_fireTimer; [|by apply agree_clearTimeout].
    rewrite Forall_forall in Ht. apply Ht.
    assert (Hin : t ∈ filter (λ t, timerId t = i) (timers w))
      by (rewrite H0; constructor).
    by apply list_elem_of_filter in Hin as [_ ?].
  - by split_and!.
Qed.

Lemma agree_step w e : cleanEvent e → agree w → agree (step w e).
Proof.
  intros He H. pose proof (agree_handle e w He H) as (K1 & K2 & K3).
  unfold step, commit. case_match; by split_and!.
Qed.

Lemma agree_mounted : agree mounted.
Proof.
  assert (good initialState) by (by split_and!; [reflexivity|constructor|]).
  split_and!; try done. by repeat constructor.
Qed.

Lemma agree_run es w : Forall cleanEvent es → agree w → agree (run es w).
Proof.
  revert w. induction es as [|e es IH]; intros w He H; [done|].
  apply Forall_cons in He as [He1 He2]. cbn. by apply IH, agree_step.
Qed.
End LogAndCounters.

(** ** The session: the render behind the adapter is not stale *)

Section StaleRender.

Lemma tame_refl w : tame w w.
Proof. by repeat split. Qed.

Lemma tame_discreet f w0 w : discreet f → tame w0 w → tame w0 (withStore f w).
Proof.
  intros Hf (Ho & H1 & H2 & H3). destruct (Hf (store w)) as (E1 & E2 & E3).
  split; [exact Ho|]. unfold calmer. change (store (withStore f w)) with (f (store w)).
  rewrite E1, E2, E3. by split_and!.
Qed.

Lemma tame_off f w0 w :
  (∀ s, isListening (f s) = false) → tame w0 w → tame w0 (withStore f w).
Proof.
  intros Hf (Ho & _). split; [exact Ho|]. unfold calmer.
  change (store (withStore f w)) with (f (store w)). rewrite Hf. by split_and!.
Qed.

Lemma tame_setCurrentQuestion oq w0 w :
  is_Some oq → tame w0 w → tame w0 (withStore (setCurrentQuestion oq) w).
Proof.
  intros [q ->] (Ho & H1 & H2 & H3). split; [exact Ho|]. split_and!; try done.
Qed.

Lemma tame_setIsInterviewEnded_false w0 w :
  tame w0 w → tame w0 (withStore (setIsInterviewEnded false) w).
Proof. intros (Ho & H1 & H2 & H3). split; [exact Ho|]. split_and!; try done. Qed.

Lemma tame_world w0 w w' :
  store w' = store w → onResultOf w' = onResultOf w → tame w0 w → tame w0 w'.
Proof. intros E1 E2 (Ho & H). unfold tame. by rewrite E1, E2. Qed.

Lemma tame_record a w0 w : tame w0 w → tame w0 (record a w).
Proof. done. Qed.
Lemma tame_withNow v w0 w : tame w0 w → tame w0 (withNow v w).
Proof. done. Qed.
Lemma tame_withStreamRef v w0 w : tame w0 w → tame w0 (withStreamRef v w).
Proof. done. Qed.
Lemma tame_withTimeoutsRef v w0 w : tame w0 w → tame w0 (withTimeoutsRef v w).
Proof. done. Qed.
Lemma tame_withUtterances v w0 w : tame w0 w → tame w0 (withUtterances v w).
Proof. done. Qed.
Lemma tame_withFetches v w0 w : tame w0 w → tame w0 (withFetches v w).
Proof. done. Qed.
Lemma tame_withMediaRequests v w0 w : tame w0 w → tame w0 (withMediaRequests v w).
Proof. done. Qed.
Lemma tame_withTracks v w0 w : tame w0 w → tame w0 (withTracks v w).
Proof. done. Qed.
Lemma tame_withNextId v w0 w : tame w0 w → tame w0 (withNextId v w).
Proof. done. Qed.
Lemma tame_setTimeout b d w0 w : tame w0 w → tame w0 (setTimeout b d w).
Proof. done. Qed.
Lemma tame_clearTimeout i w0 w : tame w0 w → tame w0 (clearTimeout i w).
Proof. done. Qed.
Lemma tame_createTimeout r cb d w0 w : tame w0 w → tame w0 (createTimeout r cb d w).
Proof. done. Qed.
Lemma tame_clearAllTimeouts w0 w : tame w0 w → tame w0 (clearAllTimeouts w).
Proof. done. Qed.
Lemma tame_speechSynthesisCancel w0 w : tame w0 w → tame w0 (speechSynthesisCancel w).
Proof. done. Qed.
Lemma tame_fetch k w0 w : tame w0 w → tame w0 (fetch k w).
Proof. done. Qed.
Lemma tame_getUserMedia r c w0 w : tame w0 w → tame w0 (getUserMedia r c w).
Proof. done. Qed.
Lemma tame_stopAll stream w0 w : tame w0 w → tame w0 (foldl stopTrack w stream).
Proof. intros H. rewrite foldl_stopTrack. exact H. Qed.
Lemma tame_setTrackEnabled i v w0 w : tame w0 w → tame w0 (setTrackEnabled i v w).
Proof. done. Qed.

Lemma tame_speakQuestion r txt k w0 w : tame w0 w → tame w0 (speakQuestion r txt k w).
Proof.
  intros H. destruct (isInterviewEnded r) eqn:He.
  - unfold speakQuestion. by rewrite He.
  - rewrite speakQuestion_live by exact He.
    apply (tame_discreet (setAiSpeaking true)) in H; [exact H|by intros ?].
Qed.

Create HintDb tame.
Hint Resolve tame_record tame_withNow tame_withStreamRef tame_withTimeoutsRef
  tame_withUtterances tame_withFetches tame_withMediaRequests tame_withTracks
  tame_withNextId tame_setTimeout tame_clearTimeout tame_createTimeout
  tame_clearAllTimeouts tame_speechSynthesisCancel tame_fetch tame_getUserMedia
  tame_stopAll tame_setTrackEnabled tame_speakQuestion tame_discreet
  tame_setCurrentQuestion tame_setIsInterviewEnded_false : tame.
Hint Extern 1 (discreet _) => (intros ?; done) : tame.
Hint Extern 1 (is_Some (Some _)) => (eexists; reflexivity) : tame.

Ltac tame_through := intros; cbv zeta; repeat case_match; eauto 30 with tame.

Lemma tame_generateQuestionsForPhase r k w0 w :
  tame w0 w → tame w0 (generateQuestionsForPhase r k w).
Proof. unfold generateQuestionsForPhase. tame_through. Qed.

Lemma tame_installFirstBatch r k batch w0 w :
  is_Some (batch !! 0%nat) → tame w0 w → tame w0 (installFirstBatch r k batch w).
Proof. unfold installFirstBatch. tame_through. Qed.
Hint Resolve tame_generateQuestionsForPhase tame_installFirstBatch : tame.

Lemma head_fallback k : is_Some (fallbackQuestions k !! 0%nat).
Proof. destruct k; by eexists. Qed.
Lemma head_usable data batch : usableBatch data = Some batch → is_Some (batch !! 0%nat).
Proof.
  unfold usableBatch. destruct (bodyQuestions data) as [[|q qs]|]; try done.
  intros [= <-]. by eexists.
Qed.
Hint Resolve head_fallback head_usable : tame.

Lemma tame_generateQuestionsForPhase_resume r k reply w0 w :
  tame w0 w → tame w0 (generateQuestionsForPhase_resume r k reply w).
Proof. unfold generateQuestionsForPhase_resume. tame_through. Qed.
Lemma tame_generateNextQuestionInPhase r k a w0 w :
  tame w0 w → tame w0 (generateNextQuestionInPhase r k a w).
Proof. unfold generateNextQuestionInPhase. tame_through. Qed.
Lemma tame_generateNextQuestionInPhase_resume r k reply w0 w :
  tame w0 w → tame w0 (generateNextQuestionInPhase_resume r k reply w).
Proof.
  unfold generateNextQuestionInPhase_resume. tame_through.
Qed.
Lemma tame_endInterview r w0 w : tame w0 w → tame w0 (endInterview r w).
Proof.
  intros H. unfold endInterview. case_match; [exact H|]. cbv zeta.
  apply tame_speakQuestion.
  exact (tame_off (λ s, setIsListening false (setCurrentQuestion None
                           (setInterviewPhase PhaseEnding s))) w0 w (λ _, eq_refl) H).
Qed.
Hint Resolve tame_generateQuestionsForPhase_resume tame_generateNextQuestionInPhase
  tame_generateNextQuestionInPhase_resume tame_endInterview : tame.

Lemma tame_askNextInPhase r k a w0 w :
  tame w0 w → tame w0 (askNextInPhase r k a w).
Proof.
  intros H. unfold askNextInPhase. cbv zeta. case_bool_decide as Hlt; [|eauto with tame].
  apply lookup_lt_is_Some in Hlt. eauto 30 with tame.
Qed.
Lemma tame_moveToPhase r k w0 w : tame w0 w → tame w0 (moveToPhase r k w).
Proof. unfold moveToPhase. tame_through. Qed.
Lemma tame_moveToPhase_resume r k reply w0 w :
  tame w0 w → tame w0 (moveToPhase_resume r k reply w).
Proof. unfold moveToPhase_resume. tame_through. Qed.
Hint Resolve tame_askNextInPhase tame_moveToPhase tame_moveToPhase_resume : tame.
Lemma tame_determineNextStep r c a w0 w :
  tame w0 w → tame w0 (determineNextStep r c a w).
Proof. unfold determineNextStep. tame_through. Qed.
Lemma tame_handleResponse r ans w0 w : tame w0 w → tame w0 (handleResponse r ans w).
Proof.
  intros H. unfold handleResponse. repeat case_match; try exact H. cbv zeta.
  apply tame_createTimeout. apply tame_discreet; [by intros ?|].
  apply tame_discreet; [by intros ?|]. apply tame_off; [done|].
  apply tame_discreet; [by intros ?|]. exact H.
Qed.
Hint Resolve tame_determineNextStep tame_handleResponse : tame.
Lemma tame_handleManualNext r w0 w : tame w0 w → tame w0 (handleManualNext r w).
Proof. unfold handleManualNext. tame_through. Qed.
Lemma tame_startInterview r w0 w : tame w0 w → tame w0 (startInterview r w).
Proof. unfold startInterview, giveVoiceInstructions. tame_through. Qed.

Lemma tame_handleEndInterview w0 w : tame w0 w → tame w0 (handleEndInterview w).
Proof.
  intros (Ho & _). unfold handleEndInterview. cbv zeta.
  assert (G : ∀ w', onResultOf w' = onResultOf w0 →
              isListening (store w') = false → tame w0 w').
  { intros w' E1 E2. split; [exact E1|]. unfold calmer. rewrite E2. by split_and!. }
  apply G; destruct (speechSynthRef _), (streamRef _);
    rewrite ?foldl_stopTrack; try done.
Qed.
Lemma tame_toggleCamera r w0 w : tame w0 w → tame w0 (toggleCamera r w).
Proof. unfold toggleCamera. tame_through. Qed.
Lemma tame_toggleMic r w0 w : tame w0 w → tame w0 (toggleMic r w).
Proof.
  intros H. unfold toggleMic. cbv zeta. repeat case_match; eauto 30 with tame.
  apply tame_off; [done|]. eauto 30 with tame.
Qed.
Lemma tame_onRestart w0 w : tame w0 w → tame w0 (onRestart w).
Proof. unfold onRestart. tame_through. Qed.
Lemma tame_initializeCamera r w0 w : tame w0 w → tame w0 (initializeCamera r w).
Proof. unfold initializeCamera. tame_through. Qed.
Hint Resolve tame_initializeCamera : tame.
Lemma tame_initializeCamera_resume q reply w0 w :
  tame w0 w → tame w0 (initializeCamera_resume q reply w).
Proof. unfold initializeCamera_resume. tame_through. Qed.
Lemma tame_requestCameraPermission r w0 w :
  tame w0 w → tame w0 (requestCameraPermission r w).
Proof. unfold requestCameraPermission. tame_through. Qed.
Lemma tame_runOnComplete k w0 w : tame w0 w → tame w0 (runOnComplete k w).
Proof. unfold runOnComplete. tame_through. Qed.
Hint Resolve tame_runOnComplete tame_handleManualNext tame_startInterview
  tame_handleEndInterview tame_toggleCamera tame_toggleMic tame_onRestart
  tame_initializeCamera_resume tame_requestCameraPermission : tame.
Lemma tame_utteranceSettled u w0 w : tame w0 w → tame w0 (utteranceSettled u w).
Proof. unfold utteranceSettled. tame_through. Qed.
Lemma tame_resume k reply w0 w : tame w0 w → tame w0 (resume k reply w).
Proof. unfold resume. tame_through. Qed.
Hint Resolve tame_utteranceSettled tame_resume : tame.

Lemma tame_mild w w' : tame w w' → mild w w'.
Proof. intros (Ho & H). split; [exact Ho|by left]. Qed.

Hint Resolve tame_refl : tame.

Lemma mild_fireTimer t w : mild w (fireTimer t w).
Proof.
  unfold fireTimer. destruct (body t) as [r cb|[r]]; [|apply tame_mild; eauto with tame].
  cbv zeta. case_match; [apply tame_mild; eauto with tame|].
  assert (T : tame w (withTimeoutsRef (timeoutsRef w ∖ {[timerId t]}) w)) by done.
  destruct cb; unfold runCallback;
    try solve [apply tame_mild; repeat case_match; eauto 30 with tame].
  case_match; [apply tame_mild; eauto with tame|].
  split; [done|by right].
Qed.

Lemma mild_after w w1 w' :
  store w1 = store w → onResultOf w1 = onResultOf w → mild w1 w' → mild w w'.
Proof. intros E1 E2 (Ho & H). unfold mild. by rewrite <- E1, <- E2. Qed.

Lemma mild_handle e w :
  e ≠ RecognitionRebound → mild w (handle e w).
Proof.
  intros He. pose proof (tame_refl w) as T.
  destruct e; try done; unfold handle; cbv zeta; repeat case_match;
    try solve [apply tame_mild; eauto 30 with tame].
  - eapply mild_after; [| |apply mild_fireTimer]; done.
  - apply tame_mild, tame_off; [done|exact T].
Qed.

Lemma bound_step w e : bound w → bound (step w e).
Proof.
  intros Hb. unfold step, commit. case_bool_decide as Hl.
  - assert (e = RecognitionRebound ∨ e ≠ RecognitionRebound) as [->|He]
      by (destruct e; (by left) || (by right)).
    + cbn. intros _. by split.
    + destruct (mild_handle e w He) as (Ho & [(H1 & H2 & H3)|(E1 & E2)]);
        intros Hl'; rewrite Ho.
      * destruct (Hb (H1 Hl')) as [B1 B2]. split; [intros ?; apply B1|intros ?; apply B2]; auto.
      * rewrite <- Hl in Hl'. destruct (Hb Hl') as [B1 B2]. rewrite E1, E2. by split.
  - intros _. by split.
Qed.

Lemma bound_mounted : bound mounted.
Proof. intros H. discriminate. Qed.

Lemma reachable_bound w : reachable w → bound w.
Proof.
  intros [es ->]. generalize mounted, bound_mounted.
  induction es as [|e es IH]; intros w H; [done|]. cbn. by apply IH, bound_step.
Qed.

(** C6.  In every world the session can reach, when the store has no
    current question or has the ended flag, a click on Skip and a result
    of the recogniser both leave the world as it is: the log, the
    counters, the questions, the phase, and the pending timers. *)
Theorem submission_is_a_no_op w e :
  reachable w →
  e = ClickSkip ∨ (∃ transcript, e = RecognitionResult transcript) →
  currentQuestion (store w) = None ∨ isInterviewEnded (store w) = true →
  step w e = w.
Proof.
  intros Hr He Hs. pose proof (reachable_bound w Hr) as Hb.
  assert (E : handle e w = w).
  { destruct He as [->|[transcript ->]]; unfold handle; cbv zeta.
    - case_match; [|done].
      by apply (handleResponse_guard (store w) w).
    - destruct (isListening (store w)) eqn:Hl; [|done].
      destruct (Hb Hl) as [B1 B2].
      apply (handleResponse_guard (onResultOf w) w).
      destruct Hs as [Hs|Hs]; [left; by apply B1|right; by apply B2]. }
  unfold step, commit. rewrite E. by rewrite bool_decide_true.
Qed.

(** C6, after End Interview. *)
Lemma submission_is_a_no_op_witness :
  let w := run retryThenEnd mounted in
  isInterviewEnded (store w) = true
  ∧ step w ClickSkip = w
  ∧ step w (RecognitionResult "hello") = w.
Proof.
  cbv zeta.
  assert (Hr : reachable (run retryThenEnd mounted)) by (by exists retryThenEnd).
  assert (He : isInterviewEnded (store (run retryThenEnd mounted)) = true)
    by (vm_compute; reflexivity).
  split; [exact He|]. split.
  - apply (submission_is_a_no_op _ ClickSkip Hr); [by left|by right].
  - apply (submission_is_a_no_op _ (RecognitionResult "hello") Hr);
      [right; by eexists|by right].
Defined.
End StaleRender.

(** ** The session: the length of the log *)

Section CountedAnswers.
(** What one answer does to the sum of the counters. *)
Lemma total_countAnswer_cases c counts :
  total (countAnswer c counts)
  = if decide (counted c) then S (total counts) else total counts.
Proof.
  case_decide as H; [by apply total_countAnswer|].
  unfold countAnswer. unfold counted, Introduction, Technical, Behavioral in H.
  repeat case_decide; subst; try done; exfalso; apply H; auto.
Qed.

Lemma onRestart_resets w :
  responses (store (onRestart w)) = [] ∧ questionCounts (store (onRestart w)) = mkCounts 0 0 0.
Proof. by destruct w as [[]]. Qed.

Lemma handleResponse_logs_and_counts r ans w current :
  currentQuestion r = Some current → isInterviewEnded r = false →
  let s := store (handleResponse r ans w) in
  responses s = responses r ++ [mkResponse (id current) (text current) ans (now w) 0]
  ∧ questionCounts s = countAnswer (category current) (questionCounts r).
Proof. intros Hc He. unfold handleResponse. rewrite Hc, He. by destruct w. Qed.

(** C3 (amended).  After any sequence of events in which every question
    the question service delivers in a batch has one of the three counted
    categories (introduction, technical, behavioral), the response log is
    as long as the sum of the three counters.  [handleResponse], the one
    function that appends to the log, appends one response; it adds one to
    the sum of the counters when the category of the current question is
    one of the three, and leaves the counters as they are for every other
    category, follow-up included.  Restart empties the log and zeroes the
    counters. *)
Theorem log_length_is_the_sum_of_the_counters :
  (∀ es, Forall cleanEvent es →
     let s := store (run es mounted) in
     length (responses s) = total (questionCounts s))
  ∧ (∀ r ans w current,
       currentQuestion r = Some current → isInterviewEnded r = false →
       let s := store (handleResponse r ans w) in
       length (responses s) = S (length (responses r))
       ∧ total (questionCounts s)
         = if decide (counted (category current))
           then S (total (questionCounts r))
           else total (questionCounts r))
  ∧ (∀ w, let s := store (onRestart w) in
          responses s = [] ∧ questionCounts s = mkCounts 0 0 0).
Proof.
  split_and!.
  - intros es He. pose proof (agree_run es mounted He agree_mounted) as ((H & _) & _).
    exact H.
  - intros r ans w current Hc He.
    destruct (handleResponse_logs_and_counts r ans w current Hc He) as [H1 H2].
    cbv zeta. rewrite H1, H2, length_app, total_countAnswer_cases. cbn. split; [lia|done].
  - intros w. apply onRestart_resets.
Qed.

(** C3, at the introduction phase answered by voice. *)
Lemma log_length_is_the_sum_of_the_counters_witness :
  let es := script (answerIntroduction NetworkError "a" "b" "c") mounted in
  Forall cleanEvent es
  ∧ length (responses (store (run es mounted))) = 3%nat
  ∧ total (questionCounts (store (run es mounted))) = 3%nat.
Proof.
  cbv zeta.
  destruct log_length_is_the_sum_of_the_counters as (H & _).
  specialize (H (script (answerIntroduction NetworkError "a" "b" "c") mounted)).
  assert (Hc : Forall cleanEvent (script (answerIntroduction NetworkError "a" "b" "c") mounted))
    by (vm_compute; repeat constructor).
  specialize (H Hc). cbv zeta in H.
  split; [exact Hc|]. split; [vm_compute; reflexivity|].
  rewrite <- H. vm_compute. reflexivity.
Defined.

(** C3, counterexample.  The service delivers a batch of one follow-up
    question and the candidate answers it: one response is logged and no
    counter moves. *)
Lemma follow_up_answer_is_not_counted :
  let w := run followUpAnswered mounted in
  isInterviewEnded (store w) = false
  ∧ logged <$> responses (store w)
    = [(1%Z, "Could you tell me more about that?", "It went well.")]
  ∧ questionCounts (store w) = mkCounts 0 0 0
  ∧ length (responses (store w)) ≠ total (questionCounts (store w)).
Proof. vm_compute. split_and!; try reflexivity. discriminate. Qed.

End CountedAnswers.

(** ** The session: a failed fetch *)

Section Fallback.
(** The replies that count as a failed fetch. *)
Lemma failed_iff reply :
  failed reply ↔
    reply = NetworkError
    ∨ (∃ status json, reply = Http status json ∧ ¬ (200 ≤ status ≤ 299)%Z)
    ∨ (∃ status, reply = Http status None)
    ∨ (∃ status data, reply = Http status (Some data)
         ∧ (bodyQuestions data = None ∨ bodyQuestions data = Some [])).
Proof.
  unfold failed, batchOf, received, ok. split.
  - destruct reply as [|status [data|]]; [by left| |right; right; left; by eexists].
    case_bool_decide as Hs; [|intros _; right; left; by repeat eexists].
    cbn. unfold usableBatch. destruct (bodyQuestions data) as [[|q qs]|] eqn:E; [|done|];
      intros _; do 3 right; exists status, data; (split; [done|]); [by right|by left].
  - intros [->|[(status & json & -> & Hs)|[(status & ->)|(status & data & -> & Hd)]]];
      [done| |by case_bool_decide|].
    + by rewrite bool_decide_false.
    + case_bool_decide; [|done]. cbn. unfold usableBatch. by destruct Hd as [->| ->].
Qed.

Lemma fallback_budget phase :
  length (fallbackQuestions phase) = budget phase
  ∧ Forall (λ q, category q = categoryOfKey phase) (fallbackQuestions phase).
Proof. destruct phase; (split; [reflexivity|repeat constructor]). Qed.

(** C5.  When the fetch of a batch fails, for any phase: the fallback
    table of the phase has as many questions as the budget, all of the
    category of the phase; [generateQuestionsForPhase] and the phase
    change of [determineNextStep] both install it, make its first question
    current, clear the loading flag and go on (the first question is
    scheduled, the transition message is spoken); and a session whose
    introduction fetch failed logs one response for each of the three
    fallback questions and moves on to the technical phase. *)
Theorem failed_fetch_falls_back_and_continues phase reply r w :
  failed reply →
  isInterviewEnded r = false →
  let fallback := fallbackQuestions phase in
  (length fallback = budget phase
   ∧ Forall (λ q, category q = categoryOfKey phase) fallback)
  ∧ (let w1 := generateQuestionsForPhase_resume r phase reply w in
     questions (store w1) = fallback
     ∧ currentQuestion (store w1) = fallback !! 0%nat
     ∧ isLoading (store w1) = false
     ∧ (phase = KeyIntroduction →
        timers w1 = timers w ++ [mkTimer (nextId w) (now w + 1000)
                                   (Tracked r (CbSpeakQuestionAt r fallback 0))]))
  ∧ (let w2 := moveToPhase_resume r phase reply w in
     questions (store w2) = fallback
     ∧ currentQuestion (store w2) = fallback !! 0%nat
     ∧ isLoading (store w2) = false
     ∧ utterances w2
       = (cancelUtterance <$> utterances w)
         ++ [mkUtterance (nextId w) (transitionMessage phase) r
               (Some (OcFirstQuestion r fallback)) true false])
  ∧ (∀ a1 a2 a3,
       let w3 := play (answerIntroduction reply a1 a2 a3) mounted in
       logged <$> responses (store w3)
       = zip_with (λ q a, (id q, text q, a)) (fallbackQuestions KeyIntroduction) [a1; a2; a3]
       ∧ questionCounts (store w3) = mkCounts 3 0 0
       ∧ interviewPhase (store w3) = PhaseTechnical
       ∧ isInterviewEnded (store w3) = false).
Proof.
  intros Hf He fallback. split; [apply fallback_budget|].
  assert (Hb : ∀ k, batchFor k reply = fallbackQuestions k)
    by (intros k; unfold batchFor; by rewrite Hf).
  split_and!.
  - rewrite generateQuestionsForPhase_resume_batchFor, Hb. fold fallback.
    unfold installFirstBatch. destruct w. case_decide; unwrap; by split_and!.
  - rewrite moveToPhase_resume_batchFor, Hb by exact He. fold fallback.
    rewrite speakQuestion_live by exact He. destruct w. unwrap. by split_and!.
  - intros a1 a2 a3. unfold answerIntroduction, toFirstQuestion. rewrite !play_app.
    erewrite (play_Answer_first (play opening _)); [|vm_compute; reflexivity..].
    rewrite Hb. vm_compute. by split_and!.
Qed.

(** C5, at a network error on the first fetch. *)
Lemma failed_fetch_falls_back_and_continues_witness :
  let w1 := generateQuestionsForPhase_resume initialState KeyIntroduction NetworkError mounted in
  failed NetworkError
  ∧ questions (store w1) = fallbackQuestions KeyIntroduction
  ∧ length (questions (store w1)) = 3%nat.
Proof.
  pose proof (failed_fetch_falls_back_and_continues KeyIntroduction NetworkError
                initialState mounted eq_refl eq_refl) as (_ & (H & _) & _).
  cbv zeta. split; [reflexivity|]. split; [exact H|]. rewrite H. reflexivity.
Defined.
End Fallback.

(** ** The session: what End Interview tears down *)

Section Teardown.

Lemma tracked_world w w' :
  timers w' = timers w → timeoutsRef w' = timeoutsRef w → tracked w → tracked w'.
Proof. intros E1 E2 H. unfold tracked. by rewrite E1, E2. Qed.

Lemma tracked_withStore f w : tracked w → tracked (withStore f w).
Proof. done. Qed.
Lemma tracked_record a w : tracked w → tracked (record a w).
Proof. done. Qed.
Lemma tracked_withNow v w : tracked w → tracked (withNow v w).
Proof. done. Qed.
Lemma tracked_withStreamRef v w : tracked w → tracked (withStreamRef v w).
Proof. done. Qed.
Lemma tracked_withUtterances v w : tracked w → tracked (withUtterances v w).
Proof. done. Qed.
Lemma tracked_withFetches v w : tracked w → tracked (withFetches v w).
Proof. done. Qed.
Lemma tracked_withMediaRequests v w : tracked w → tracked (withMediaRequests v w).
Proof. done. Qed.
Lemma tracked_withTracks v w : tracked w → tracked (withTracks v w).
Proof. done. Qed.
Lemma tracked_withNextId v w : tracked w → tracked (withNextId v w).
Proof. done. Qed.
Lemma tracked_withOnResultOf v w : tracked w → tracked (withOnResultOf v w).
Proof. done. Qed.
Lemma tracked_withSpeechSynthRef v w : tracked w → tracked (withSpeechSynthRef v w).
Proof. done. Qed.

Lemma tracked_setTimeout_raw cb d w : tracked w → tracked (setTimeout (Raw cb) d w).
Proof.
  intros H. unfold tracked, setTimeout. destruct w. unwrap.
  apply Forall_app. split; [exact H|]. by repeat constructor.
Qed.

Lemma tracked_clearTimeout i w : tracked w → tracked (clearTimeout i w).
Proof.
  intros H. unfold tracked, clearTimeout. destruct w. unwrap.
  by apply Forall_filter_keep.
Qed.

Lemma recorded_mono ref ref' t : ref ⊆ ref' → recorded ref t → recorded ref' t.
Proof. unfold recorded. destruct (body t); [set_solver|done]. Qed.

Lemma tracked_createTimeout r cb d w : tracked w → tracked (createTimeout r cb d w).
Proof.
  intros H. unfold tracked, createTimeout, setTimeout. destruct w. unwrap.
  apply Forall_app. split.
  - eapply Forall_impl; [exact H|]. intros t. apply recorded_mono. set_solver.
  - repeat constructor. unfold recorded. cbn. set_solver.
Qed.

Lemma bare_clearAllTimeouts w : tracked w → Forall bare (timers (clearAllTimeouts w)).
Proof.
  intros H. unfold clearAllTimeouts. destruct w as [? ? ? ref ? ? ? tms]. unwrap.
  unfold tracked in H. cbn in H. induction H as [|t ts Ht Hts IH]; [constructor|].
  rewrite filter_cons. case_decide as Hin; [|exact IH].
  constructor; [|exact IH]. unfold recorded in Ht. unfold bare.
  destruct (body t); [done|done].
Qed.

Lemma bare_recorded ref t : bare t → recorded ref t.
Proof. unfold bare, recorded. by destruct (body t). Qed.

Lemma tracked_clearAllTimeouts w : tracked w → tracked (clearAllTimeouts w).
Proof.
  intros H. apply bare_clearAllTimeouts in H. unfold tracked.
  eapply Forall_impl; [exact H|]. intros t. apply bare_recorded.
Qed.

Lemma tracked_speechSynthesisCancel w : tracked w → tracked (speechSynthesisCancel w).
Proof. done. Qed.
Lemma tracked_fetch k w : tracked w → tracked (fetch k w).
Proof. done. Qed.
Lemma tracked_getUserMedia r c w : tracked w → tracked (getUserMedia r c w).
Proof. done. Qed.
Lemma tracked_stopAll stream w : tracked w → tracked (foldl stopTrack w stream).
Proof. intros H. rewrite foldl_stopTrack. exact H. Qed.
Lemma tracked_setTrackEnabled i v w : tracked w → tracked (setTrackEnabled i v w).
Proof. done. Qed.

Lemma tracked_speakQuestion r txt k w : tracked w → tracked (speakQuestion r txt k w).
Proof.
  intros H. destruct (isInterviewEnded r) eqn:He.
  - unfold speakQuestion. by rewrite He.
  - rewrite speakQuestion_live by exact He. exact H.
Qed.

Create HintDb tracked.
Hint Resolve tracked_withStore tracked_record tracked_withNow tracked_withStreamRef
  tracked_withUtterances tracked_withFetches tracked_withMediaRequests tracked_withTracks
  tracked_withNextId tracked_withOnResultOf tracked_withSpeechSynthRef
  tracked_setTimeout_raw tracked_clearTimeout tracked_createTimeout
  tracked_clearAllTimeouts tracked_speechSynthesisCancel tracked_fetch
  tracked_getUserMedia tracked_stopAll tracked_setTrackEnabled tracked_speakQuestion
  : tracked.

Ltac tracked_through := intros; cbv zeta; repeat case_match; eauto 30 with tracked.

Lemma tracked_generateQuestionsForPhase r k w :
  tracked w → tracked (generateQuestionsForPhase r k w).
Proof. unfold generateQuestionsForPhase. tracked_through. Qed.
Lemma tracked_installFirstBatch r k batch w :
  tracked w → tracked (installFirstBatch r k batch w).
Proof. unfold installFirstBatch. tracked_through. Qed.
Hint Resolve tracked_generateQuestionsForPhase tracked_installFirstBatch : tracked.
Lemma tracked_generateQuestionsForPhase_resume r k reply w :
  tracked w → tracked (generateQuestionsForPhase_resume r k reply w).
Proof. unfold generateQuestionsForPhase_resume. tracked_through. Qed.
Lemma tracked_generateNextQuestionInPhase r k a w :
  tracked w → tracked (generateNextQuestionInPhase r k a w).
Proof. unfold generateNextQuestionInPhase. tracked_through. Qed.
Lemma tracked_generateNextQuestionInPhase_resume r k reply w :
  tracked w → tracked (generateNextQuestionInPhase_resume r k reply w).
Proof. unfold generateNextQuestionInPhase_resume. tracked_through. Qed.
Lemma tracked_endInterview r w : tracked w → tracked (endInterview r w).
Proof. unfold endInterview. tracked_through. Qed.
Hint Resolve tracked_generateQuestionsForPhase_resume tracked_generateNextQuestionInPhase
  tracked_generateNextQuestionInPhase_resume tracked_endInterview : tracked.
Lemma tracked_askNextInPhase r k a w : tracked w → tracked (askNextInPhase r k a w).
Proof. unfold askNextInPhase. tracked_through. Qed.
Lemma tracked_moveToPhase r k w : tracked w → tracked (moveToPhase r k w).
Proof. unfold moveToPhase. tracked_through. Qed.
Lemma tracked_moveToPhase_resume r k reply w :
  tracked w → tracked (moveToPhase_resume r k reply w).
Proof. unfold moveToPhase_resume. tracked_through. Qed.
Hint Resolve tracked_askNextInPhase tracked_moveToPhase tracked_moveToPhase_resume : tracked.
Lemma tracked_determineNextStep r c a w : tracked w → tracked (determineNextStep r c a w).
Proof. unfold determineNextStep. tracked_through. Qed.
Lemma tracked_handleResponse r ans w : tracked w → tracked (handleResponse r ans w).
Proof. unfold handleResponse. tracked_through. Qed.
Hint Resolve tracked_determineNextStep tracked_handleResponse : tracked.
Lemma tracked_handleManualNext r w : tracked w → tracked (handleManualNext r w).
Proof. unfold handleManualNext. tracked_through. Qed.
Lemma tracked_startInterview r w : tracked w → tracked (startInterview r w).
Proof. unfold startInterview, giveVoiceInstructions. tracked_through. Qed.
Lemma tracked_handleEndInterview w : tracked w → tracked (handleEndInterview w).
Proof. unfold handleEndInterview. tracked_through. Qed.
Lemma tracked_toggleCamera r w : tracked w → tracked (toggleCamera r w).
Proof. unfold toggleCamera. tracked_through. Qed.
Lemma tracked_toggleMic r w : tracked w → tracked (toggleMic r w).
Proof. unfold toggleMic. tracked_through. Qed.
Lemma tracked_onRestart w : tracked w → tracked (onRestart w).
Proof. unfold onRestart. tracked_through. Qed.
Lemma tracked_initializeCamera r w : tracked w → tracked (initializeCamera r w).
Proof. unfold initializeCamera. tracked_through. Qed.
Hint Resolve tracked_initializeCamera : tracked.
Lemma tracked_initializeCamera_resume q reply w :
  tracked w → tracked (initializeCamera_resume q reply w).
Proof. unfold initializeCamera_resume. tracked_through. Qed.
Lemma tracked_requestCameraPermission r w :
  tracked w → tracked (requestCameraPermission r w).
Proof. unfold requestCameraPermission. tracked_through. Qed.
Lemma tracked_runCallback cb w : tracked w → tracked (runCallback cb w).
Proof. unfold runCallback. tracked_through. Qed.
Lemma tracked_runOnComplete k w : tracked w → tracked (runOnComplete k w).
Proof. unfold runOnComplete. tracked_through. Qed.
Hint Resolve tracked_runCallback tracked_runOnComplete tracked_handleManualNext
  tracked_startInterview tracked_handleEndInterview tracked_toggleCamera
  tracked_toggleMic tracked_onRestart tracked_initializeCamera_resume
  tracked_requestCameraPermission : tracked.
Lemma tracked_utteranceSettled u w : tracked w → tracked (utteranceSettled u w).
Proof. unfold utteranceSettled. tracked_through. Qed.
Lemma tracked_resume k reply w : tracked w → tracked (resume k reply w).
Proof. unfold resume. tracked_through. Qed.
Hint Resolve tracked_utteranceSettled tracked_resume : tracked.

(** Firing the timer [t] after [clearTimeout (timerId t)]. *)
Lemma tracked_fireTimer t w :
  tracked w → tracked (fireTimer t (clearTimeout (timerId t) w)).
Proof.
  intros H. unfold fireTimer. destruct (body t) as [r cb|[r]]; [|eauto with tracked].
  cbv zeta.
  assert (T : tracked (withTimeoutsRef
                         (timeoutsRef (clearTimeout (timerId t) w) ∖ {[timerId t]})
                         (clearTimeout (timerId t) w))).
  { unfold tracked, clearTimeout. destruct w as [? ? ? ref ? ? ? tms]. unwrap.
    unfold tracked in H. cbn in H. induction H as [|t' ts Ht Hts IH]; [constructor|].
    rewrite filter_cons. case_decide as Hne; [|exact IH].
    constructor; [|exact IH]. unfold recorded in *. destruct (body t'); [|done].
    set_solver. }
  case_match; [exact T|]. by apply tracked_runCallback.
Qed.

Lemma tracked_handle e w : tracked w → tracked (handle e w).
Proof.
  intros H. destruct e; unfold handle; cbv zeta; repeat case_match;
    eauto 30 with tracked.
  match goal with
  | E : filter _ (timers w) = ?t :: _ |- _ =>
      assert (Hi : timerId t = i)
        by (assert (Hin : t ∈ filter (λ t, timerId t = i) (timers w))
              by (rewrite E; left);
            by apply list_elem_of_filter in Hin as [? _])
  end.
  rewrite <- Hi. by apply tracked_fireTimer.
Qed.

Lemma tracked_step w e : tracked w → tracked (step w e).
Proof.
  intros H. unfold step, commit. case_bool_decide; [by apply tracked_handle|].
  apply tracked_withOnResultOf. by apply tracked_handle.
Qed.

Lemma tracked_mounted : tracked mounted.
Proof. by repeat constructor. Qed.

Lemma reachable_tracked w : reachable w → tracked w.
Proof.
  intros [es ->]. generalize mounted, tracked_mounted.
  induction es as [|e es IH]; intros w H; [done|]. cbn. by apply IH, tracked_step.
Qed.

(** What [handleEndInterview] does tear down, in any world the session can
    reach: the ended flag is raised, every utterance is cancelled, the
    tracks of the held stream are stopped and the stream is let go, the
    set of tracked timers is empty and only bare timers are left pending,
    and [onEnd] is called last. *)
Lemma handleEndInterview_teardown w :
  reachable w →
  let w' := handleEndInterview w in
  isInterviewEnded (store w') = true
  ∧ isListening (store w') = false ∧ aiSpeaking (store w') = false
  ∧ Forall (λ u, cancelled u = true) (utterances w')
  ∧ streamRef w' = None
  ∧ (∀ stream, streamRef w = Some stream →
       Forall (λ t, trackId t ∈ stream → live t = false) (tracks w'))
  ∧ timeoutsRef w' = ∅
  ∧ Forall bare (timers w')
  ∧ last (trace w') = Some CalledOnEnd.
Proof.
  intros Hr%reachable_tracked w'. subst w'.
  destruct w as [st sr ssr ref oro nw n tms uts fts mrs tks trc].
  unfold tracked in Hr. cbn in Hr.
  assert (Hb : Forall bare (filter (λ t, timerId t ∉ ref) tms)).
  { induction Hr as [|t ts Ht Hts IH]; [constructor|].
    rewrite filter_cons. case_decide as Hin; [|exact IH].
    constructor; [|exact IH]. unfold recorded in Ht. unfold bare.
    by destruct (body t). }
  assert (Hu : Forall (λ u, cancelled u = true) (cancelUtterance <$> uts)).
  { apply Forall_fmap. by apply Forall_true. }
  assert (Hd : ∀ i, Forall (λ u, cancelled u = true)
                      (detachHandlers i <$> (cancelUtterance <$> uts))).
  { intros i. apply Forall_fmap. eapply Forall_impl; [exact Hu|].
    intros u Hcu. unfold detachHandlers. cbn. by case_decide. }
  assert (Hs : ∀ stream ts,
             Forall (λ t, trackId t ∈ stream → live t = false)
               (foldl (λ ts i, halt i <$> ts) ts stream)).
  { intros stream. induction stream as [|i stream IH] using rev_ind; intros ts.
    - apply Forall_true. intros t Hin. by apply elem_of_nil in Hin.
    - rewrite foldl_app. cbn [foldl]. apply Forall_fmap.
      eapply Forall_impl; [apply IH|]. intros t Ht Hin. cbn in *.
      unfold halt in *. case_decide as Hi; [done|]. apply Ht.
      apply elem_of_app in Hin as [Hin|Hin]; [exact Hin|].
      apply list_elem_of_singleton in Hin. cbn in Hi. congruence. }
  unfold handleEndInterview. cbv zeta. unwrap.
  destruct ssr as [i|], sr as [stream|]; rewrite ?foldl_stopTrack; unwrap;
    (split_and!; [done|done|done|by auto|done| |done|exact Hb|by rewrite last_snoc]).
  - intros ? [= <-]. apply Hs.
  - done.
  - intros ? [= <-]. apply Hs.
  - done.
Qed.
End Teardown.

(** ** The session: runs that leave the intended behaviour *)

Section Divergences.
Lemma rapidSkips_script :
  script (toFirstQuestion NetworkError ++ [Do ClickSkip; Do ClickSkip; Do ClickSkip; Do ClickSkip])
    mounted = rapidSkips.
Proof. vm_compute. reflexivity. Qed.

(** The decision of [determineNextStep], by phase. *)
Lemma determineNextStep_policy phase r counts allResponses w :
  isInterviewEnded r = false → interviewPhase r = phaseOfKey phase →
  determineNextStep r counts allResponses w
  = if bool_decide (countOf phase counts < budget phase)%nat
    then askNextInPhase r phase allResponses w
    else match nextPhase phase with
         | Some next => moveToPhase r next w
         | None => endInterview r w
         end.
Proof. intros He Hp. unfold determineNextStep. rewrite He, Hp. by destruct phase. Qed.

(** C1.  Skip is clicked four times while the first introduction
    question is the current one: the session is still in the introduction
    phase, four responses to question 1 are logged, and the introduction
    counter stands at 4, above its budget of 3. *)
Theorem rapid_skips_overrun_the_budget :
  let w := run rapidSkips mounted in
  isInterviewEnded (store w) = false
  ∧ interviewPhase (store w) = PhaseIntroduction
  ∧ questionCounts (store w) = mkCounts 4 0 0
  ∧ questionId <$> responses (store w) = [1; 1; 1; 1]%Z
  ∧ (budget KeyIntroduction < countOf KeyIntroduction (questionCounts (store w)))%nat.
Proof. vm_compute. split_and!; reflexivity || lia. Qed.

(** C2.  End Interview clicked within 100 ms of Retry Camera returns
    with the timer of [requestCameraPermission] still pending, although
    [timeoutsRef] is empty; End Interview clicked after two requests for
    the camera were granted returns with the tracks of the first stream
    still live, although [streamRef] is cleared. *)
Theorem end_interview_misses_timers_and_tracks :
  (let w := run retryThenEnd mounted in
   isInterviewEnded (store w) = true
   ∧ last (trace w) = Some CalledOnEnd
   ∧ timeoutsRef w = ∅
   ∧ pending w = [(3%nat, 200%Z)])
  ∧ (let w := run twoStreamsThenEnd mounted in
     isInterviewEnded (store w) = true
     ∧ last (trace w) = Some CalledOnEnd
     ∧ streamRef w = None
     ∧ liveTracks w = [5; 6]%nat).
Proof. vm_compute. by split_and!. Qed.

(** C7.  Skip is clicked after the first question was spoken and before
    listening has started: the timer that starts listening still fires,
    and when the second question is spoken both flags are set. *)
Theorem speaking_while_listening :
  let w := run skipBeforeListening mounted in
  isInterviewEnded (store w) = false
  ∧ isListening (store w) = true
  ∧ aiSpeaking (store w) = true.
Proof. vm_compute. by split_and!. Qed.

End Divergences.

